(** * desktopSynth: a shallow embedding of the synthesizer core

    The Python sources under [src/audio], [src/audio/engines],
    [src/sequencer], [src/midi] and [src/app.py] are embedded as pure
    functions over explicit state records.  Python [int] is [Z].  A Python
    exception is a [Raise] result.

    Python [float] is embedded twice.  In the engines, the filter, the
    oscillator and the first embedding of the envelope and the clock
    (modules [Envelope], [Clock], ...) a float is idealised as an exact
    rational ([Q]): rounding, infinities and NaN are left out, and a
    decimal literal stands for the number it spells.  Results that depend
    on the rounding are stated for the second embedding (modules
    [Binary64], [Envelope64], [Clock64], [Wavetable64]), which computes in
    IEEE 754 binary64 as Python does, every operation rounded to the
    nearest double.

    The transcendental functions the code calls ([math.sin], [math.pi],
    [2.0 ** x]) and the outcome of [random.shuffle] are parameters of the
    sections that need them.  Names are ASCII strings. *)

From Stdlib Require Import ZArith QArith Qround Qabs Lqa Lia List String Ascii Bool.
From Stdlib Require Import Sorted Permutation SpecFloat.
From Stdlib Require DecimalString.
Import ListNotations.

(** ** Python values and built-ins used by the sources *)

Inductive exn := IndexError | ValueError | ZeroDivisionError | OverflowError.

Inductive result (A : Type) :=
| Ok (a : A)
| Raise (e : exn).
Arguments Ok {A} a.
Arguments Raise {A} e.

Definition py_bind {A B} (r : result A) (k : A -> result B) : result B :=
  match r with
  | Ok a => k a
  | Raise e => Raise e
  end.

(** A numeric argument as the event contract passes it: an [int] or a
    [float]. *)
Inductive number :=
| NInt (z : Z)
| NFloat (q : Q).

(** [int(x)] on a float truncates toward zero. *)
Definition Qtrunc (q : Q) : Z := Z.quot (Qnum q) (Z.pos (Qden q)).

Definition py_int (v : number) : Z :=
  match v with
  | NInt z => z
  | NFloat q => Qtrunc q
  end.

(** [float(v)] as an exact number.  In the code an int of more than 53
    bits is rounded and an int beyond the doubles raises OverflowError;
    the statements that convert a parameter value are for values that
    convert without loss ([float_exact]). *)
Definition py_float (v : number) : Q :=
  match v with
  | NInt z => inject_Z z
  | NFloat q => q
  end.

(** [max(a, b)] returns [a] unless [b > a]; [min(a, b)] returns [a] unless
    [b < a]. *)
Definition Qlt_bool (a b : Q) : bool := negb (Qle_bool b a).
Definition py_max (a b : Q) : Q := if Qlt_bool a b then b else a.
Definition py_min (a b : Q) : Q := if Qlt_bool b a then b else a.

(** [l[i]]: a negative index counts from the end, anything outside
    [-len .. len-1] raises IndexError. *)
Definition norm_index (len : nat) (i : Z) : result nat :=
  let n := Z.of_nat len in
  let j := (if i <? 0 then i + n else i)%Z in
  if ((0 <=? j) && (j <? n))%Z then Ok (Z.to_nat j) else Raise IndexError.

Definition py_getitem {A} (l : list A) (i : Z) : result A :=
  py_bind (norm_index (List.length l) i) (fun j =>
    match nth_error l j with
    | Some a => Ok a
    | None => Raise IndexError
    end).

(** In-place mutation of the object stored at position [j]. *)
Fixpoint set_nth {A} (l : list A) (j : nat) (a : A) : list A :=
  match l, j with
  | [], _ => []
  | _ :: t, O => a :: t
  | h :: t, S j' => h :: set_nth t j' a
  end.

(** ** audio/envelope.py, floats as exact rationals

    [Envelope64] further down is the same code over binary64. *)

Module Envelope.

Inductive EnvState := IDLE | ATTACK | DECAY | SUSTAIN | RELEASE.

Definition EnvState_eqb (a b : EnvState) : bool :=
  match a, b with
  | IDLE, IDLE | ATTACK, ATTACK | DECAY, DECAY
  | SUSTAIN, SUSTAIN | RELEASE, RELEASE => true
  | _, _ => false
  end.

Definition SAMPLE_RATE : Z := 44100.

Definition _time_to_samples (seconds : Q) : Z :=
  Z.max 1 (Qtrunc (seconds * inject_Z SAMPLE_RATE)).

Record ADSREnvelope := mkEnv {
  attack : Q;
  decay : Q;
  sustain : Q;
  release : Q;
  _state : EnvState;
  _level : Q;
  _release_level : Q
}.

Definition init (a d s r : Q) : ADSREnvelope :=
  mkEnv a d s r IDLE 0 0.

Definition with_state (e : ADSREnvelope) (st : EnvState) (lvl rl : Q) :=
  mkEnv (attack e) (decay e) (sustain e) (release e) st lvl rl.

Definition set_attack (e : ADSREnvelope) (v : Q) :=
  mkEnv v (decay e) (sustain e) (release e) (_state e) (_level e) (_release_level e).
Definition set_decay (e : ADSREnvelope) (v : Q) :=
  mkEnv (attack e) v (sustain e) (release e) (_state e) (_level e) (_release_level e).
Definition set_sustain (e : ADSREnvelope) (v : Q) :=
  mkEnv (attack e) (decay e) v (release e) (_state e) (_level e) (_release_level e).
Definition set_release (e : ADSREnvelope) (v : Q) :=
  mkEnv (attack e) (decay e) (sustain e) v (_state e) (_level e) (_release_level e).

Definition note_on (e : ADSREnvelope) : ADSREnvelope :=
  with_state e ATTACK (_level e) (_level e).

Definition note_off (e : ADSREnvelope) : ADSREnvelope :=
  if negb (EnvState_eqb (_state e) IDLE)
  then with_state e RELEASE (_level e) (_level e)
  else e.

Definition is_active (e : ADSREnvelope) : bool :=
  negb (EnvState_eqb (_state e) IDLE).

(** One sample: the new envelope and the value returned. *)
Definition _tick (e : ADSREnvelope) : ADSREnvelope * Q :=
  match _state e with
  | IDLE => (e, 0)
  | ATTACK =>
      let atk_rate := 1 / inject_Z (_time_to_samples (attack e)) in
      let lvl := _level e + atk_rate in
      if Qle_bool 1 lvl
      then (with_state e DECAY 1 (_release_level e), 1)
      else (with_state e ATTACK lvl (_release_level e), lvl)
  | DECAY =>
      let dec_rate := (1 - sustain e) / inject_Z (_time_to_samples (decay e)) in
      let lvl := _level e - dec_rate in
      if Qle_bool lvl (sustain e)
      then (with_state e SUSTAIN (sustain e) (_release_level e), sustain e)
      else (with_state e DECAY lvl (_release_level e), lvl)
  | SUSTAIN =>
      (with_state e SUSTAIN (sustain e) (_release_level e), sustain e)
  | RELEASE =>
      let rel_rate := _release_level e / inject_Z (_time_to_samples (release e)) in
      let lvl := _level e - rel_rate in
      if Qle_bool lvl 0
      then (with_state e IDLE 0 (_release_level e), 0)
      else (with_state e RELEASE lvl (_release_level e), lvl)
  end.

Fixpoint render_block (e : ADSREnvelope) (n_frames : nat) : ADSREnvelope * list Q :=
  match n_frames with
  | O => (e, [])
  | S n =>
      let '(e1, v) := _tick e in
      let '(e2, vs) := render_block e1 n in
      (e2, v :: vs)
  end.

End Envelope.

(** ** audio/filter.py *)

Module Filter.

Definition SAMPLE_RATE : Z := 44100.

Record SVFilter := mkFilter {
  cutoff : Q;
  resonance : Q;
  mode : string;
  _low : Q;
  _band : Q
}.

Definition init (c r : Q) (m : string) : SVFilter := mkFilter c r m 0 0.

Definition reset (flt : SVFilter) : SVFilter :=
  mkFilter (cutoff flt) (resonance flt) (mode flt) 0 0.

Definition set_cutoff (flt : SVFilter) (v : Q) :=
  mkFilter v (resonance flt) (mode flt) (_low flt) (_band flt).
Definition set_resonance (flt : SVFilter) (v : Q) :=
  mkFilter (cutoff flt) v (mode flt) (_low flt) (_band flt).
Definition set_mode (flt : SVFilter) (m : string) :=
  mkFilter (cutoff flt) (resonance flt) m (_low flt) (_band flt).

(** [fc = min(max(self.cutoff, 20.0), SAMPLE_RATE * 0.49)] *)
Definition effective_cutoff (c : Q) : Q :=
  py_min (py_max c 20.0) (inject_Z SAMPLE_RATE * 0.49).

Section Render.

Variable sin : Q -> Q.
Variable pi : Q.

Definition coeff_f (flt : SVFilter) : Q :=
  2.0 * sin (pi * effective_cutoff (cutoff flt) / inject_Z SAMPLE_RATE).

Definition coeff_q (flt : SVFilter) : Q :=
  2.0 - 1.99 * resonance flt.

(** The per-sample loop on the local registers [low] and [band]. *)
Fixpoint run (m : string) (f q low band : Q) (signal : list Q)
  : Q * Q * list Q :=
  match signal with
  | [] => (low, band, [])
  | s :: rest =>
      let low1 := low + f * band in
      let high := s - low1 - q * band in
      let band1 := f * high + band in
      let o := if (m =? "lp")%string then low1
               else if (m =? "hp")%string then high
               else band1 in
      let '(low2, band2, out) := run m f q low1 band1 rest in
      (low2, band2, o :: out)
  end.

Definition render_block (flt : SVFilter) (signal : list Q) : SVFilter * list Q :=
  let f := coeff_f flt in
  let q := coeff_q flt in
  let '(low, band, out) := run (mode flt) f q (_low flt) (_band flt) signal in
  (mkFilter (cutoff flt) (resonance flt) (mode flt) low band, out).

End Render.

End Filter.

(** ** audio/oscillator.py (state and note-to-frequency conversion) *)

Module Oscillator.

Definition WAVE_NAMES : list string :=
  ["sine"; "saw"; "square"; "triangle"]%string.

Section Pitch.

(** [exp2 x] stands for [2.0 ** x].  In the code [2.0 ** x] raises
    OverflowError from [x = 1024] on, that is from note 12357; the
    statements that play a note are for MIDI notes (0..127). *)
Variable exp2 : Q -> Q.

Definition midi_to_hz (note : Z) : Q :=
  440.0 * exp2 (inject_Z (note - 69) / 12.0).

End Pitch.

Record WavetableOscillator := mkOsc {
  wave : string;
  _phase : Q
}.

Definition init (w : string) : WavetableOscillator := mkOsc w 0.0.

Definition set_wave (o : WavetableOscillator) (w : string) :=
  mkOsc w (_phase o).

Definition reset_phase (o : WavetableOscillator) :=
  mkOsc (wave o) 0.0.

End Oscillator.

(** ** Python string operations used by [FMEngine.set_param] *)

Module Str.

Definition underscore : ascii := "_"%char.

(** [s.split(sep, 1)]: one element when [sep] does not occur, else the text
    before the first [sep] and the text after it. *)
Fixpoint cut (sep : ascii) (s : string) : option (string * string) :=
  match s with
  | EmptyString => None
  | String c t =>
      if Ascii.eqb c sep then Some (EmptyString, t)
      else match cut sep t with
           | Some (a, b) => Some (String c a, b)
           | None => None
           end
  end.

Definition split1 (sep : ascii) (s : string) : list string :=
  match cut sep s with
  | Some (a, b) => [a; b]
  | None => [s]
  end.

(** [s[n:]] *)
Fixpoint drop (n : nat) (s : string) : string :=
  match n, s with
  | O, _ => s
  | S _, EmptyString => EmptyString
  | S n', String _ t => drop n' t
  end.

Fixpoint rev_append (s acc : string) : string :=
  match s with
  | EmptyString => acc
  | String c t => rev_append t (String c acc)
  end.

Definition rev (s : string) : string := rev_append s EmptyString.

Definition is_space (c : ascii) : bool :=
  let n := nat_of_ascii c in
  ((9 <=? n) && (n <=? 13) || (28 <=? n) && (n <=? 32))%nat.

Fixpoint lstrip (s : string) : string :=
  match s with
  | String c t => if is_space c then lstrip t else s
  | EmptyString => EmptyString
  end.

Definition strip (s : string) : string := rev (lstrip (rev (lstrip s))).

Definition digit (c : ascii) : option Z :=
  let n := nat_of_ascii c in
  if ((48 <=? n) && (n <=? 57))%nat then Some (Z.of_nat n - 48)%Z else None.

Fixpoint digits (s : string) (acc : Z) : option Z :=
  match s with
  | EmptyString => Some acc
  | String c t =>
      match digit c with
      | Some d => digits t (10 * acc + d)%Z
      | None => None
      end
  end.

(** [int(s)] for a string of ASCII characters: surrounding whitespace, an
    optional sign, then at least one decimal digit; anything else raises
    ValueError.  (Underscore digit separators cannot reach this call, the
    argument is cut at the first underscore.) *)
Definition to_int (s : string) : result Z :=
  let t := strip s in
  let '(sign, body) :=
    match t with
    | String "-"%char r => ((-1)%Z, r)
    | String "+"%char r => (1%Z, r)
    | _ => (1%Z, t)
    end in
  match body with
  | EmptyString => Raise ValueError
  | _ => match digits body 0 with
         | Some n => Ok (sign * n)%Z
         | None => Raise ValueError
         end
  end.

End Str.

(** ** audio/engines/fm.py *)

Module FM.

Definition SAMPLE_RATE : Z := 44100.

(** Per operator: the modulator sources and the carrier flag. *)
Definition ALGORITHMS : list (list (list nat * bool)) :=
  [ [ ([], false); ([0], false); ([1], false); ([2], true) ];
    [ ([], false); ([0], false); ([1], true); ([0], true) ];
    [ ([], false); ([0], true); ([0], true); ([], true) ];
    [ ([], true); ([], true); ([0; 1], false); ([2], false) ];
    [ ([], false); ([0], true); ([0], true); ([], true) ];
    [ ([], true); ([], true); ([], true); ([], true) ] ]%nat.

Definition N_OPS : nat := 4.
Definition N_ALGORITHMS : Z := Z.of_nat (List.length ALGORITHMS).

Record FMOperator := mkOp {
  ratio : Q;
  level : Q;
  feedback : Q;
  env : Envelope.ADSREnvelope;
  _phase : Q;
  _last_out : Q
}.

Definition op_init : FMOperator :=
  mkOp 1.0 0.7 0.0 (Envelope.init 0.005 0.2 0.5 0.4) 0.0 0.0.

Definition set_ratio (op : FMOperator) (v : Q) :=
  mkOp v (level op) (feedback op) (env op) (_phase op) (_last_out op).
Definition set_level (op : FMOperator) (v : Q) :=
  mkOp (ratio op) v (feedback op) (env op) (_phase op) (_last_out op).
Definition set_feedback (op : FMOperator) (v : Q) :=
  mkOp (ratio op) (level op) v (env op) (_phase op) (_last_out op).
Definition set_env (op : FMOperator) (e : Envelope.ADSREnvelope) :=
  mkOp (ratio op) (level op) (feedback op) e (_phase op) (_last_out op).

Definition op_note_on (op : FMOperator) : FMOperator :=
  mkOp (ratio op) (level op) (feedback op) (Envelope.note_on (env op)) 0.0 0.0.

Definition op_note_off (op : FMOperator) : FMOperator :=
  set_env op (Envelope.note_off (env op)).

Record FMEngine := mkFM {
  ops : list FMOperator;
  algorithm : Z;
  _note_freq : Q;
  _velocity_scale : Q
}.

Definition init : FMEngine :=
  mkFM [ set_ratio op_init 1.0; set_ratio op_init 2.0;
         set_ratio op_init 3.0; set_ratio op_init 1.0 ]
       0 440.0 1.0.

Definition set_ops (e : FMEngine) (l : list FMOperator) :=
  mkFM l (algorithm e) (_note_freq e) (_velocity_scale e).
Definition set_algorithm (e : FMEngine) (a : Z) :=
  mkFM (ops e) a (_note_freq e) (_velocity_scale e).

Definition is_active (e : FMEngine) : bool :=
  existsb (fun op => Envelope.is_active (env op)) (ops e).

Definition note_off (e : FMEngine) : FMEngine :=
  set_ops e (map op_note_off (ops e)).

Section Sound.

Variable sin : Q -> Q.
Variable pi : Q.
Variable exp2 : Q -> Q.

Definition note_on (e : FMEngine) (note velocity : Z) : FMEngine :=
  mkFM (map op_note_on (ops e)) (algorithm e)
       (Oscillator.midi_to_hz exp2 note) (inject_Z velocity / 127.0).

Definition render_sample (op : FMOperator) (freq_hz mod_input env_val : Q)
  : FMOperator * Q :=
  let phase_inc := freq_hz * ratio op / inject_Z SAMPLE_RATE in
  let ph := _phase op + phase_inc in
  let ph := ph - inject_Z (Qfloor ph) in
  let total_mod := mod_input + feedback op * _last_out op in
  let sample := level op * env_val * sin (2.0 * pi * ph + 2.0 * pi * total_mod) in
  (mkOp (ratio op) (level op) (feedback op) (env op) ph sample, sample).

(** [op.env.render_block(n_frames)] for one operator. *)
Definition render_env (op : FMOperator) (n_frames : nat) : FMOperator * list Q :=
  let '(e1, blk) := Envelope.render_block (env op) n_frames in
  (set_env op e1, blk).

(** [sum(op_outputs[src][i] for src in mod_sources)]; [cur] is column [i]
    of [op_outputs]. *)
Fixpoint sum_sources (cur : list Q) (srcs : list nat) (acc : Q) : result Q :=
  match srcs with
  | [] => Ok acc
  | src :: rest =>
      match nth_error cur src with
      | Some v => sum_sources cur rest (acc + v)
      | None => Raise IndexError
      end
  end.

(** Body of the inner loop for one operator index at sample [i]: the state
    is the operators, column [i] of [op_outputs] and [out[i]]. *)
Definition render_op (alg : list (list nat * bool)) (freq : Q)
    (env_blocks : list (list Q)) (i : nat)
    (st : list FMOperator * list Q * Q) (op_idx : nat)
  : result (list FMOperator * list Q * Q) :=
  let '(os, cur, out_i) := st in
  match nth_error alg op_idx, nth_error env_blocks op_idx, nth_error os op_idx with
  | Some (mod_sources, is_carrier), Some blk, Some op =>
      py_bind (sum_sources cur mod_sources 0) (fun mod_input =>
        match nth_error blk i with
        | Some env_val =>
            let '(op1, sample) := render_sample op freq mod_input env_val in
            Ok (set_nth os op_idx op1, set_nth cur op_idx sample,
                if is_carrier then out_i + sample else out_i)
        | None => Raise IndexError
        end)
  | _, _, _ => Raise IndexError
  end.

Fixpoint for_ops (alg : list (list nat * bool)) (freq : Q)
    (env_blocks : list (list Q)) (i : nat)
    (st : list FMOperator * list Q * Q) (idxs : list nat)
  : result (list FMOperator * list Q * Q) :=
  match idxs with
  | [] => Ok st
  | op_idx :: rest =>
      py_bind (render_op alg freq env_blocks i st op_idx) (fun st1 =>
        for_ops alg freq env_blocks i st1 rest)
  end.

(** Samples [i], [i+1], ..., [i+k-1] of the outer loop. *)
Fixpoint for_frames (alg : list (list nat * bool)) (freq : Q)
    (env_blocks : list (list Q)) (os : list FMOperator) (i k : nat)
  : result (list FMOperator * list Q) :=
  match k with
  | O => Ok (os, [])
  | S k' =>
      py_bind (for_ops alg freq env_blocks i (os, repeat 0.0 N_OPS, 0.0)
                 (seq 0 N_OPS))
        (fun '(os1, _, out_i) =>
           py_bind (for_frames alg freq env_blocks os1 (S i) k')
             (fun '(os2, out) => Ok (os2, out_i :: out)))
  end.

Definition n_carriers (alg : list (list nat * bool)) : Z :=
  Z.of_nat (List.length (filter (fun e => snd e) alg)).

Definition render_block (e : FMEngine) (n_frames : nat)
  : result (FMEngine * list Q) :=
  py_bind (py_getitem ALGORITHMS (algorithm e)) (fun alg =>
    let rendered := map (fun op => render_env op n_frames) (ops e) in
    let os := map fst rendered in
    let env_blocks := map snd rendered in
    py_bind (for_frames alg (_note_freq e) env_blocks os 0 n_frames)
      (fun '(os1, out) =>
         let nc := n_carriers alg in
         let out := if (1 <? nc)%Z
                    then map (fun x => x / inject_Z nc) out else out in
         let out := map (fun x => x * _velocity_scale e) out in
         Ok (set_ops e os1, out))).

End Sound.

(** [set_param]: the attribute assignments on one operator. *)
Definition assign_attr (op : FMOperator) (attr : string) (value : number)
  : FMOperator :=
  if (attr =? "ratio")%string then set_ratio op (py_max 0.01 (py_float value))
  else if (attr =? "level")%string then set_level op (py_float value)
  else if (attr =? "feedback")%string then set_feedback op (py_float value)
  else if (attr =? "attack")%string
  then set_env op (Envelope.set_attack (env op) (py_max 0.001 (py_float value)))
  else if (attr =? "decay")%string
  then set_env op (Envelope.set_decay (env op) (py_max 0.001 (py_float value)))
  else if (attr =? "sustain")%string
  then set_env op (Envelope.set_sustain (env op) (py_float value))
  else if (attr =? "release")%string
  then set_env op (Envelope.set_release (env op) (py_max 0.001 (py_float value)))
  else op.

Definition set_param (e : FMEngine) (name : string) (value : number)
  : result FMEngine :=
  if (name =? "algorithm")%string
  then Ok (set_algorithm e (py_int value mod N_ALGORITHMS)%Z)
  else
    match Str.split1 Str.underscore name with
    | [p0; attr] =>
        if prefix "op" p0 then
          match Str.to_int (Str.drop 2 p0) with
          | Raise ValueError => Ok e
          | Raise x => Raise x
          | Ok op_idx =>
              py_bind (norm_index (List.length (ops e)) op_idx) (fun j =>
                match nth_error (ops e) j with
                | Some op => Ok (set_ops e (set_nth (ops e) j (assign_attr op attr value)))
                | None => Raise IndexError
                end)
          end
        else Ok e
    | _ => Ok e
    end.

End FM.

(** ** audio/engines/vector.py (state, note events and parameters) *)

Module Vector.

Record VectorEngine := mkVector {
  oscs : list Oscillator.WavetableOscillator;
  xy : Q * Q;
  lfo_rate : Q;
  lfo_depth : Q;
  _lfo_phase : Q;
  filt : Filter.SVFilter;
  env : Envelope.ADSREnvelope;
  _note_freq : Q;
  _velocity_scale : Q
}.

Definition init : VectorEngine :=
  mkVector (map Oscillator.init ["sine"; "saw"; "square"; "triangle"]%string)
           (0.5, 0.5) 0.5 0.0 0.0
           (Filter.init 4000.0 0.2 "lp")
           (Envelope.init 0.01 0.2 0.6 0.5)
           440.0 1.0.

Definition set_oscs (e : VectorEngine) (l : list Oscillator.WavetableOscillator) :=
  mkVector l (xy e) (lfo_rate e) (lfo_depth e) (_lfo_phase e) (filt e) (env e)
           (_note_freq e) (_velocity_scale e).
Definition set_xy (e : VectorEngine) (p : Q * Q) :=
  mkVector (oscs e) p (lfo_rate e) (lfo_depth e) (_lfo_phase e) (filt e) (env e)
           (_note_freq e) (_velocity_scale e).
Definition set_lfo_rate (e : VectorEngine) (v : Q) :=
  mkVector (oscs e) (xy e) v (lfo_depth e) (_lfo_phase e) (filt e) (env e)
           (_note_freq e) (_velocity_scale e).
Definition set_lfo_depth (e : VectorEngine) (v : Q) :=
  mkVector (oscs e) (xy e) (lfo_rate e) v (_lfo_phase e) (filt e) (env e)
           (_note_freq e) (_velocity_scale e).
Definition set_filt (e : VectorEngine) (f : Filter.SVFilter) :=
  mkVector (oscs e) (xy e) (lfo_rate e) (lfo_depth e) (_lfo_phase e) f (env e)
           (_note_freq e) (_velocity_scale e).
Definition set_env (e : VectorEngine) (a : Envelope.ADSREnvelope) :=
  mkVector (oscs e) (xy e) (lfo_rate e) (lfo_depth e) (_lfo_phase e) (filt e) a
           (_note_freq e) (_velocity_scale e).

Definition is_active (e : VectorEngine) : bool := Envelope.is_active (env e).

Definition note_off (e : VectorEngine) : VectorEngine :=
  set_env e (Envelope.note_off (env e)).

Section Pitch.

Variable exp2 : Q -> Q.

Definition note_on (e : VectorEngine) (note velocity : Z) : VectorEngine :=
  mkVector (map Oscillator.reset_phase (oscs e)) (xy e) (lfo_rate e)
           (lfo_depth e) (_lfo_phase e) (filt e) (Envelope.note_on (env e))
           (Oscillator.midi_to_hz exp2 note) (inject_Z velocity / 127.0).

End Pitch.

(** [{"osc_a": 0, "osc_b": 1, "osc_c": 2, "osc_d": 3}.get(name)] *)
Definition osc_slot (name : string) : option Z :=
  if (name =? "osc_a")%string then Some 0%Z
  else if (name =? "osc_b")%string then Some 1%Z
  else if (name =? "osc_c")%string then Some 2%Z
  else if (name =? "osc_d")%string then Some 3%Z
  else None.

Definition set_param (e : VectorEngine) (name : string) (value : number)
  : result VectorEngine :=
  if prefix "osc_" name then
    match osc_slot name with
    | Some idx =>
        py_bind (py_getitem Oscillator.WAVE_NAMES
                   (py_int value mod Z.of_nat (List.length Oscillator.WAVE_NAMES))%Z)
          (fun w =>
             py_bind (norm_index (List.length (oscs e)) idx) (fun j =>
               match nth_error (oscs e) j with
               | Some o => Ok (set_oscs e (set_nth (oscs e) j (Oscillator.set_wave o w)))
               | None => Raise IndexError
               end))
    | None => Ok e
    end
  else if (name =? "xy_x")%string then Ok (set_xy e (py_float value, snd (xy e)))
  else if (name =? "xy_y")%string then Ok (set_xy e (fst (xy e), py_float value))
  else if (name =? "lfo_rate")%string
  then Ok (set_lfo_rate e (py_max 0.01 (py_float value)))
  else if (name =? "lfo_depth")%string then Ok (set_lfo_depth e (py_float value))
  else if (name =? "filter_cutoff")%string
  then Ok (set_filt e (Filter.set_cutoff (filt e) (py_float value)))
  else if (name =? "filter_res")%string
  then Ok (set_filt e (Filter.set_resonance (filt e) (py_float value)))
  else if (name =? "filter_mode")%string
  then py_bind (py_getitem ["lp"; "hp"; "bp"]%string (py_int value mod 3)%Z)
         (fun m => Ok (set_filt e (Filter.set_mode (filt e) m)))
  else if (name =? "attack")%string
  then Ok (set_env e (Envelope.set_attack (env e) (py_max 0.001 (py_float value))))
  else if (name =? "decay")%string
  then Ok (set_env e (Envelope.set_decay (env e) (py_max 0.001 (py_float value))))
  else if (name =? "sustain")%string
  then Ok (set_env e (Envelope.set_sustain (env e) (py_float value)))
  else if (name =? "release")%string
  then Ok (set_env e (Envelope.set_release (env e) (py_max 0.001 (py_float value))))
  else Ok e.

End Vector.

(** ** audio/engines/subtractive.py (state, note events, arpeggiator and
    parameters) *)

Module Subtractive.

Definition ARP_MODES : list string :=
  ["off"; "up"; "down"; "random"; "chord"]%string.

Record SubtractiveEngine := mkSub {
  osc1 : Oscillator.WavetableOscillator;
  osc2 : Oscillator.WavetableOscillator;
  osc_mix : Q;
  detune : Q;
  octave : Z;
  filt : Filter.SVFilter;
  filter_env_amt : Q;
  filter_base_cutoff : Q;
  amp_env : Envelope.ADSREnvelope;
  filt_env : Envelope.ADSREnvelope;
  arp_mode : string;
  arp_octaves : Z;
  _arp_notes : list Z;
  _arp_index : Z;
  _note_freq : Q;
  _velocity_scale : Q;
  _held_notes : list Z
}.

Definition init : SubtractiveEngine :=
  mkSub (Oscillator.init "saw") (Oscillator.init "square") 0.5 0.0 0
        (Filter.init 2000.0 0.3 "lp") 0.5 2000.0
        (Envelope.init 0.005 0.15 0.7 0.3)
        (Envelope.init 0.005 0.25 0.3 0.3)
        "off" 1 [] 0 440.0 1.0 [].

Definition set_osc1 e v := mkSub v (osc2 e) (osc_mix e) (detune e) (octave e)
  (filt e) (filter_env_amt e) (filter_base_cutoff e) (amp_env e) (filt_env e)
  (arp_mode e) (arp_octaves e) (_arp_notes e) (_arp_index e) (_note_freq e)
  (_velocity_scale e) (_held_notes e).
Definition set_osc2 e v := mkSub (osc1 e) v (osc_mix e) (detune e) (octave e)
  (filt e) (filter_env_amt e) (filter_base_cutoff e) (amp_env e) (filt_env e)
  (arp_mode e) (arp_octaves e) (_arp_notes e) (_arp_index e) (_note_freq e)
  (_velocity_scale e) (_held_notes e).
Definition set_osc_mix e v := mkSub (osc1 e) (osc2 e) v (detune e) (octave e)
  (filt e) (filter_env_amt e) (filter_base_cutoff e) (amp_env e) (filt_env e)
  (arp_mode e) (arp_octaves e) (_arp_notes e) (_arp_index e) (_note_freq e)
  (_velocity_scale e) (_held_notes e).
Definition set_detune e v := mkSub (osc1 e) (osc2 e) (osc_mix e) v (octave e)
  (filt e) (filter_env_amt e) (filter_base_cutoff e) (amp_env e) (filt_env e)
  (arp_mode e) (arp_octaves e) (_arp_notes e) (_arp_index e) (_note_freq e)
  (_velocity_scale e) (_held_notes e).
Definition set_octave e v := mkSub (osc1 e) (osc2 e) (osc_mix e) (detune e) v
  (filt e) (filter_env_amt e) (filter_base_cutoff e) (amp_env e) (filt_env e)
  (arp_mode e) (arp_octaves e) (_arp_notes e) (_arp_index e) (_note_freq e)
  (_velocity_scale e) (_held_notes e).
Definition set_filt e v := mkSub (osc1 e) (osc2 e) (osc_mix e) (detune e)
  (octave e) v (filter_env_amt e) (filter_base_cutoff e) (amp_env e)
  (filt_env e) (arp_mode e) (arp_octaves e) (_arp_notes e) (_arp_index e)
  (_note_freq e) (_velocity_scale e) (_held_notes e).
Definition set_filter_env_amt e v := mkSub (osc1 e) (osc2 e) (osc_mix e)
  (detune e) (octave e) (filt e) v (filter_base_cutoff e) (amp_env e)
  (filt_env e) (arp_mode e) (arp_octaves e) (_arp_notes e) (_arp_index e)
  (_note_freq e) (_velocity_scale e) (_held_notes e).
Definition set_filter_base_cutoff e v := mkSub (osc1 e) (osc2 e) (osc_mix e)
  (detune e) (octave e) (filt e) (filter_env_amt e) v (amp_env e) (filt_env e)
  (arp_mode e) (arp_octaves e) (_arp_notes e) (_arp_index e) (_note_freq e)
  (_velocity_scale e) (_held_notes e).
Definition set_amp_env e v := mkSub (osc1 e) (osc2 e) (osc_mix e) (detune e)
  (octave e) (filt e) (filter_env_amt e) (filter_base_cutoff e) v (filt_env e)
  (arp_mode e) (arp_octaves e) (_arp_notes e) (_arp_index e) (_note_freq e)
  (_velocity_scale e) (_held_notes e).
Definition set_filt_env e v := mkSub (osc1 e) (osc2 e) (osc_mix e) (detune e)
  (octave e) (filt e) (filter_env_amt e) (filter_base_cutoff e) (amp_env e) v
  (arp_mode e) (arp_octaves e) (_arp_notes e) (_arp_index e) (_note_freq e)
  (_velocity_scale e) (_held_notes e).
Definition set_arp_mode e v := mkSub (osc1 e) (osc2 e) (osc_mix e) (detune e)
  (octave e) (filt e) (filter_env_amt e) (filter_base_cutoff e) (amp_env e)
  (filt_env e) v (arp_octaves e) (_arp_notes e) (_arp_index e) (_note_freq e)
  (_velocity_scale e) (_held_notes e).
Definition set_arp_octaves e v := mkSub (osc1 e) (osc2 e) (osc_mix e)
  (detune e) (octave e) (filt e) (filter_env_amt e) (filter_base_cutoff e)
  (amp_env e) (filt_env e) (arp_mode e) v (_arp_notes e) (_arp_index e)
  (_note_freq e) (_velocity_scale e) (_held_notes e).
Definition set_arp e notes idx := mkSub (osc1 e) (osc2 e) (osc_mix e)
  (detune e) (octave e) (filt e) (filter_env_amt e) (filter_base_cutoff e)
  (amp_env e) (filt_env e) (arp_mode e) (arp_octaves e) notes idx
  (_note_freq e) (_velocity_scale e) (_held_notes e).
Definition set_velocity_scale e v := mkSub (osc1 e) (osc2 e) (osc_mix e)
  (detune e) (octave e) (filt e) (filter_env_amt e) (filter_base_cutoff e)
  (amp_env e) (filt_env e) (arp_mode e) (arp_octaves e) (_arp_notes e)
  (_arp_index e) (_note_freq e) v (_held_notes e).
Definition set_held_notes e v := mkSub (osc1 e) (osc2 e) (osc_mix e)
  (detune e) (octave e) (filt e) (filter_env_amt e) (filter_base_cutoff e)
  (amp_env e) (filt_env e) (arp_mode e) (arp_octaves e) (_arp_notes e)
  (_arp_index e) (_note_freq e) (_velocity_scale e) v.

Definition is_active (e : SubtractiveEngine) : bool :=
  Envelope.is_active (amp_env e).

Definition note_off (e : SubtractiveEngine) : SubtractiveEngine :=
  let e := set_held_notes e [] in
  let e := set_amp_env e (Envelope.note_off (amp_env e)) in
  set_filt_env e (Envelope.note_off (filt_env e)).

(** [sorted(...)] on a list of ints. *)
Fixpoint insert_sorted (x : Z) (l : list Z) : list Z :=
  match l with
  | [] => [x]
  | y :: t => if (x <=? y)%Z then x :: l else y :: insert_sorted x t
  end.

Definition sorted (l : list Z) : list Z := fold_right insert_sorted [] l.

Section Play.

Variable exp2 : Q -> Q.
(** The order [random.shuffle] leaves a list in. *)
Variable shuffle : list Z -> list Z.

Definition _trigger_note (e : SubtractiveEngine) (note : Z) : SubtractiveEngine :=
  let shifted := (note + octave e * 12)%Z in
  mkSub (Oscillator.reset_phase (osc1 e)) (Oscillator.reset_phase (osc2 e))
        (osc_mix e) (detune e) (octave e) (filt e) (filter_env_amt e)
        (filter_base_cutoff e) (Envelope.note_on (amp_env e))
        (Envelope.note_on (filt_env e)) (arp_mode e) (arp_octaves e)
        (_arp_notes e) (_arp_index e) (Oscillator.midi_to_hz exp2 shifted)
        (_velocity_scale e) (_held_notes e).

Definition _rebuild_arp_sequence (e : SubtractiveEngine) : SubtractiveEngine :=
  match _held_notes e with
  | [] => set_arp e [] (_arp_index e)
  | _ =>
      let base := sorted (_held_notes e) in
      let notes :=
        flat_map (fun oct_shift =>
                    map (fun n => (n + Z.of_nat oct_shift * 12)%Z) base)
                 (seq 0 (Z.to_nat (arp_octaves e))) in
      let arp :=
        if (arp_mode e =? "up")%string then notes
        else if (arp_mode e =? "down")%string then List.rev notes
        else if (arp_mode e =? "random")%string then shuffle notes
        else if (arp_mode e =? "chord")%string then notes
        else _arp_notes e in
      set_arp e arp 0
  end.

Definition note_on (e : SubtractiveEngine) (note velocity : Z)
  : SubtractiveEngine :=
  let e := set_velocity_scale e (inject_Z velocity / 127.0) in
  let e := if existsb (Z.eqb note) (_held_notes e) then e
           else set_held_notes e (_held_notes e ++ [note]) in
  if (arp_mode e =? "off")%string then _trigger_note e note
  else _rebuild_arp_sequence e.

Definition arp_tick (e : SubtractiveEngine) : result SubtractiveEngine :=
  if (arp_mode e =? "off")%string then Ok e
  else match _arp_notes e with
       | [] => Ok e
       | _ =>
           let len := Z.of_nat (List.length (_arp_notes e)) in
           py_bind (py_getitem (_arp_notes e) (_arp_index e mod len)%Z)
             (fun note =>
                Ok (_trigger_note
                      (set_arp e (_arp_notes e) ((_arp_index e + 1) mod len)%Z)
                      note))
       end.

End Play.

Definition set_wave_param (value : number)
    (k : string -> SubtractiveEngine) : result SubtractiveEngine :=
  py_bind (py_getitem Oscillator.WAVE_NAMES
             (py_int value mod Z.of_nat (List.length Oscillator.WAVE_NAMES))%Z)
    (fun w => Ok (k w)).

Definition set_param (e : SubtractiveEngine) (name : string) (value : number)
  : result SubtractiveEngine :=
  if (name =? "osc1_wave")%string
  then set_wave_param value (fun w => set_osc1 e (Oscillator.set_wave (osc1 e) w))
  else if (name =? "osc2_wave")%string
  then set_wave_param value (fun w => set_osc2 e (Oscillator.set_wave (osc2 e) w))
  else if (name =? "osc_mix")%string then Ok (set_osc_mix e (py_float value))
  else if (name =? "detune")%string then Ok (set_detune e (py_float value))
  else if (name =? "octave")%string then Ok (set_octave e (py_int value))
  else if (name =? "filter_cutoff")%string
  then Ok (set_filt (set_filter_base_cutoff e (py_float value))
                    (Filter.set_cutoff (filt e) (py_float value)))
  else if (name =? "filter_res")%string
  then Ok (set_filt e (Filter.set_resonance (filt e) (py_float value)))
  else if (name =? "filter_mode")%string
  then py_bind (py_getitem ["lp"; "hp"; "bp"]%string (py_int value mod 3)%Z)
         (fun m => Ok (set_filt e (Filter.set_mode (filt e) m)))
  else if (name =? "filter_env_amt")%string
  then Ok (set_filter_env_amt e (py_float value))
  else if (name =? "amp_attack")%string
  then Ok (set_amp_env e (Envelope.set_attack (amp_env e) (py_max 0.001 (py_float value))))
  else if (name =? "amp_decay")%string
  then Ok (set_amp_env e (Envelope.set_decay (amp_env e) (py_max 0.001 (py_float value))))
  else if (name =? "amp_sustain")%string
  then Ok (set_amp_env e (Envelope.set_sustain (amp_env e) (py_float value)))
  else if (name =? "amp_release")%string
  then Ok (set_amp_env e (Envelope.set_release (amp_env e) (py_max 0.001 (py_float value))))
  else if (name =? "filt_attack")%string
  then Ok (set_filt_env e (Envelope.set_attack (filt_env e) (py_max 0.001 (py_float value))))
  else if (name =? "filt_decay")%string
  then Ok (set_filt_env e (Envelope.set_decay (filt_env e) (py_max 0.001 (py_float value))))
  else if (name =? "filt_sustain")%string
  then Ok (set_filt_env e (Envelope.set_sustain (filt_env e) (py_float value)))
  else if (name =? "filt_release")%string
  then Ok (set_filt_env e (Envelope.set_release (filt_env e) (py_max 0.001 (py_float value))))
  else if (name =? "arp_mode")%string
  then py_bind (py_getitem ARP_MODES
                  (py_int value mod Z.of_nat (List.length ARP_MODES))%Z)
         (fun m => Ok (set_arp_mode e m))
  else if (name =? "arp_octaves")%string
  then Ok (set_arp_octaves e (Z.max 1 (py_int value)))
  else Ok e.

End Subtractive.

(** ** audio/engines/__init__.py and the engine interface of base.py *)

Module Engines.

Inductive SynthEngine :=
| FMEngine (e : FM.FMEngine)
| VectorEngine (e : Vector.VectorEngine)
| SubtractiveEngine (e : Subtractive.SubtractiveEngine).

(** [ENGINE_CLASSES.get(name, FMEngine)()] *)
Definition make_engine (name : string) : SynthEngine :=
  if (name =? "fm")%string then FMEngine FM.init
  else if (name =? "vector")%string then VectorEngine Vector.init
  else if (name =? "subtractive")%string then SubtractiveEngine Subtractive.init
  else FMEngine FM.init.

Definition ENGINE_NAMES : list string := ["fm"; "vector"; "subtractive"]%string.

Definition is_active (g : SynthEngine) : bool :=
  match g with
  | FMEngine e => FM.is_active e
  | VectorEngine e => Vector.is_active e
  | SubtractiveEngine e => Subtractive.is_active e
  end.

Definition note_off (g : SynthEngine) : SynthEngine :=
  match g with
  | FMEngine e => FMEngine (FM.note_off e)
  | VectorEngine e => VectorEngine (Vector.note_off e)
  | SubtractiveEngine e => SubtractiveEngine (Subtractive.note_off e)
  end.

Definition set_param (g : SynthEngine) (name : string) (value : number)
  : result SynthEngine :=
  match g with
  | FMEngine e => py_bind (FM.set_param e name value) (fun e' => Ok (FMEngine e'))
  | VectorEngine e =>
      py_bind (Vector.set_param e name value) (fun e' => Ok (VectorEngine e'))
  | SubtractiveEngine e =>
      py_bind (Subtractive.set_param e name value)
              (fun e' => Ok (SubtractiveEngine e'))
  end.

Section Play.

Variable exp2 : Q -> Q.
Variable shuffle : list Z -> list Z.

Definition note_on (g : SynthEngine) (note velocity : Z) : SynthEngine :=
  match g with
  | FMEngine e => FMEngine (FM.note_on exp2 e note velocity)
  | VectorEngine e => VectorEngine (Vector.note_on exp2 e note velocity)
  | SubtractiveEngine e =>
      SubtractiveEngine (Subtractive.note_on exp2 shuffle e note velocity)
  end.

End Play.

End Engines.

(** ** audio/voice.py *)

Module Voice.

Record Voice := mkVoice {
  engine : Engines.SynthEngine;
  current_note : option Z;
  active : bool;
  velocity : Z;
  _engine_name : string
}.

Definition init (engine_name : string) : Voice :=
  mkVoice (Engines.make_engine engine_name) None false 100 engine_name.

Definition change_engine (v : Voice) (engine_name : string) : Voice :=
  if negb (engine_name =? _engine_name v)%string
  then mkVoice (Engines.make_engine engine_name) None false (velocity v) engine_name
  else v.

Definition note_off (v : Voice) : Voice :=
  mkVoice (Engines.note_off (engine v)) (current_note v) (active v)
          (velocity v) (_engine_name v).

Definition is_free (v : Voice) : bool :=
  negb (active v) && negb (Engines.is_active (engine v)).

Definition set_engine (v : Voice) (g : Engines.SynthEngine) : Voice :=
  mkVoice g (current_note v) (active v) (velocity v) (_engine_name v).

Section Play.

Variable exp2 : Q -> Q.
Variable shuffle : list Z -> list Z.

Definition note_on (v : Voice) (note vel : Z) : Voice :=
  mkVoice (Engines.note_on exp2 shuffle (engine v) note vel)
          (Some note) true vel (_engine_name v).

End Play.

End Voice.

(** ** audio/voice_pool.py (allocation, note events, parameter routing) *)

Module VoicePool.

Definition N_VOICES : Z := 4.

Record VoicePool := mkPool {
  voices : list Voice.Voice;
  _next_voice : Z
}.

Definition init : VoicePool :=
  mkPool (map Voice.init ["fm"; "vector"; "subtractive"; "fm"]%string) 0.

(** [self.voices[i]] followed by a mutation of that voice object. *)
Definition on_voice (p : VoicePool) (i : Z) (f : Voice.Voice -> result Voice.Voice)
  : result VoicePool :=
  py_bind (norm_index (List.length (voices p)) i) (fun j =>
    match nth_error (voices p) j with
    | Some v =>
        py_bind (f v) (fun v' => Ok (mkPool (set_nth (voices p) j v') (_next_voice p)))
    | None => Raise IndexError
    end).

Definition set_track_engine (p : VoicePool) (track_idx : Z) (engine_name : string)
  : result VoicePool :=
  on_voice p track_idx (fun v => Ok (Voice.change_engine v engine_name)).

Definition set_track_param (p : VoicePool) (track_idx : Z) (param : string)
    (value : number) : result VoicePool :=
  on_voice p track_idx (fun v =>
    py_bind (Engines.set_param (Voice.engine v) param value)
            (fun g => Ok (Voice.set_engine v g))).

(** Position of the first free voice, scanning in list order from [k]. *)
Fixpoint first_free (vs : list Voice.Voice) (k : nat) : option nat :=
  match vs with
  | [] => None
  | v :: rest => if Voice.is_free v then Some k else first_free rest (S k)
  end.

(** [_allocate] returns a voice of the pool: here its position, with the
    pool after the cursor update. *)
Definition _allocate (p : VoicePool) : result (nat * VoicePool) :=
  match first_free (voices p) 0 with
  | Some k => Ok (k, p)
  | None =>
      py_bind (norm_index (List.length (voices p)) (_next_voice p mod N_VOICES)%Z)
        (fun j => Ok (j, mkPool (voices p) ((_next_voice p + 1) mod N_VOICES)%Z))
  end.

(** The voice [note_on] addresses. *)
Definition target (p : VoicePool) (track_idx : option Z) : result (nat * VoicePool) :=
  match track_idx with
  | Some i =>
      py_bind (norm_index (List.length (voices p)) (i mod N_VOICES)%Z)
              (fun j => Ok (j, p))
  | None => _allocate p
  end.

(** [v.current_note == note] *)
Definition holds (v : Voice.Voice) (note : Z) : bool :=
  match Voice.current_note v with
  | Some n => (n =? note)%Z
  | None => false
  end.

Definition release_if_holds (note : Z) (v : Voice.Voice) : Voice.Voice :=
  if holds v note then Voice.note_off v else v.

Definition note_off (p : VoicePool) (track_idx : option Z) (note : Z)
  : result VoicePool :=
  match track_idx with
  | Some i =>
      on_voice p (i mod N_VOICES)%Z (fun v => Ok (release_if_holds note v))
  | None =>
      Ok (mkPool (map (release_if_holds note) (voices p)) (_next_voice p))
  end.

Section Play.

Variable exp2 : Q -> Q.
Variable shuffle : list Z -> list Z.

(** [note_on], also reporting the position of the voice that took the
    note. *)
Definition note_on_at (p : VoicePool) (track_idx : option Z) (note velocity : Z)
  : result (nat * VoicePool) :=
  py_bind (target p track_idx) (fun '(j, p1) =>
    match nth_error (voices p1) j with
    | Some v =>
        Ok (j, mkPool (set_nth (voices p1) j (Voice.note_on exp2 shuffle v note velocity))
                      (_next_voice p1))
    | None => Raise IndexError
    end).

Definition note_on (p : VoicePool) (track_idx : option Z) (note velocity : Z)
  : result VoicePool :=
  py_bind (note_on_at p track_idx note velocity) (fun r => Ok (snd r)).

End Play.

End VoicePool.

(** ** audio/engine.py (event dispatch) *)

Module AudioEngine.

Inductive Event :=
| NoteOn (track_idx : option Z) (note velocity : Z)
| NoteOff (track_idx : option Z) (note : Z)
| SetEngine (track_idx : Z) (engine_name : string)
| SetParam (track_idx : Z) (param : string) (value : number).

Section Play.

Variable exp2 : Q -> Q.
Variable shuffle : list Z -> list Z.

Definition _handle_event (p : VoicePool.VoicePool) (ev : Event)
  : result VoicePool.VoicePool :=
  match ev with
  | NoteOn t n v => VoicePool.note_on exp2 shuffle p t n v
  | NoteOff t n => VoicePool.note_off p t n
  | SetEngine t name => VoicePool.set_track_engine p t name
  | SetParam t param value => VoicePool.set_track_param p t param value
  end.

End Play.

End AudioEngine.

(** ** sequencer/clock.py (step timing), floats as exact rationals

    [Clock64] further down is the same code over binary64. *)

Module Clock.

Record Clock := mkClock {
  bpm : Q;
  _running : bool;
  _step : Z;
  n_steps : Z;
  swing : Q
}.

Definition init (b : Q) : Clock := mkClock b false 0 16 0.0.

Definition _step_duration (c : Clock) (step : Z) : result Q :=
  if Qeq_bool (bpm c) 0 then Raise ZeroDivisionError
  else
    let base := 60.0 / bpm c / 4.0 in
    if Qeq_bool (swing c) 0.0 then Ok base
    else
      let swing_amount := swing c * 0.33 in
      if (step mod 2 =? 0)%Z
      then Ok (base * (1.0 + swing_amount))
      else Ok (base * (1.0 - swing_amount)).

End Clock.

(** ** Envelope histories

    The operations a client (an engine) performs on one envelope over its
    life: note events, per-sample ticks, block renders and assignments to
    the four parameters. *)

Module EnvelopeHistory.

Import Envelope.

Inductive op :=
| NoteOn
| NoteOff
| Tick
| Render (n_frames : nat)
| SetAttack (v : Q)
| SetDecay (v : Q)
| SetSustain (v : Q)
| SetRelease (v : Q).

(** The envelope after the operation and the values it returned. *)
Definition apply (e : ADSREnvelope) (o : op) : ADSREnvelope * list Q :=
  match o with
  | NoteOn => (note_on e, [])
  | NoteOff => (note_off e, [])
  | Tick => let '(e1, v) := _tick e in (e1, [v])
  | Render n => render_block e n
  | SetAttack v => (set_attack e v, [])
  | SetDecay v => (set_decay e v, [])
  | SetSustain v => (set_sustain e v, [])
  | SetRelease v => (set_release e v, [])
  end.

Fixpoint run (e : ADSREnvelope) (os : list op) : ADSREnvelope * list Q :=
  match os with
  | [] => (e, [])
  | o :: rest =>
      let '(e1, vs) := apply e o in
      let '(e2, ws) := run e1 rest in
      (e2, vs ++ ws)
  end.

(** An assignment keeps the parameter in its documented range. *)
Definition in_range (o : op) : Prop :=
  match o with
  | SetAttack v | SetDecay v | SetRelease v => 0.001 <= v
  | SetSustain v => 0 <= v <= 1
  | _ => True
  end.

End EnvelopeHistory.

(** ** Reference definitions, written from the specification's wording *)

Module Reference.

(** Python's [round]: to the nearest integer, ties to the even one. *)
Definition py_round (q : Q) : Z :=
  let f := Qfloor q in
  match Qcompare (q - inject_Z f) 0.5 with
  | Lt => f
  | Gt => (f + 1)%Z
  | Eq => if Z.even f then f else (f + 1)%Z
  end.

(** "samples = max(1, round(seconds x sample_rate))" *)
Definition time_to_samples (seconds : Q) : Z :=
  Z.max 1 (py_round (seconds * 44100)).

(** Pointwise combination of two sample blocks. *)
Fixpoint zip_with (f : Q -> Q -> Q) (a b : list Q) : list Q :=
  match a, b with
  | x :: a', y :: b' => f x y :: zip_with f a' b'
  | _, _ => []
  end.

Section Additive.

Variable sin : Q -> Q.
Variable pi : Q.

(** "an independent sine generator" at [freq] Hz: per sample the phase (in
    cycles, kept in [0,1)) advances by [freq / 44100] and the output is
    [sin(2 pi phase)]. *)
Fixpoint sine_generator (freq phase : Q) (n_frames : nat) : list Q :=
  match n_frames with
  | O => []
  | S n =>
      let ph := phase + freq / 44100 in
      let ph := ph - inject_Z (Qfloor ph) in
      sin (2 * pi * ph) :: sine_generator freq ph n
  end.

(** "each scaled per-sample by its own envelope value and its level" *)
Definition scaled (level : Q) (envelope wave : list Q) : list Q :=
  zip_with (fun ev w => w * ev * level) envelope wave.

(** "the arithmetic mean of four" blocks, sample by sample. *)
Definition mean4 (a b c d : list Q) : list Q :=
  map (fun x => x / 4)
      (zip_with Qplus (zip_with Qplus (zip_with Qplus a b) c) d).

(** The additive voice of the four operators: generator [i] runs at
    [ratio_i * note_freq] from the operator's phase, under the operator's
    own envelope and level; "the whole scaled by velocity/127". *)
Definition additive_block (note_freq : Q) (velocity : Z)
    (o0 o1 o2 o3 : FM.FMOperator) (n_frames : nat) : list Q :=
  let voice o :=
    scaled (FM.level o)
           (snd (Envelope.render_block (FM.env o) n_frames))
           (sine_generator (FM.ratio o * note_freq) (FM._phase o) n_frames) in
  map (fun x => x * (inject_Z velocity / 127))
      (mean4 (voice o0) (voice o1) (voice o2) (voice o3)).

End Additive.

End Reference.

(** ** Predicates used by the statements *)

(** The envelope invariant: the level is in the unit interval, the
    captured release level is not negative (it is always a copy of an
    earlier level) and the sustain parameter is in its range. *)
Definition env_ok (e : Envelope.ADSREnvelope) : Prop :=
  0 <= Envelope._level e <= 1
  /\ 0 <= Envelope._release_level e
  /\ 0 <= Envelope.sustain e <= 1.

Definition unit_interval (v : Q) : Prop := 0 <= v <= 1.

(** Successive [render_block] calls on one filter, one per signal block. *)
Fixpoint filter_renders (sin : Q -> Q) (pi : Q) (flt : Filter.SVFilter)
    (blocks : list (list Q)) : Filter.SVFilter :=
  match blocks with
  | [] => flt
  | b :: rest => filter_renders sin pi (fst (Filter.render_block sin pi flt b)) rest
  end.

(** A run of auto-allocated note-ons ([track_idx] is [None]), one per
    (note, velocity) pair: the positions of the voices that took the notes,
    in order, and the pool afterwards. *)
Fixpoint auto_note_ons (exp2 : Q -> Q) (shuffle : list Z -> list Z)
    (p : VoicePool.VoicePool) (notes : list (Z * Z))
  : result (list nat * VoicePool.VoicePool) :=
  match notes with
  | [] => Ok ([], p)
  | (note, velocity) :: rest =>
      py_bind (VoicePool.note_on_at exp2 shuffle p None note velocity)
        (fun '(j, p1) =>
           py_bind (auto_note_ons exp2 shuffle p1 rest)
             (fun '(js, p2) => Ok (j :: js, p2)))
  end.

(** The keys of [get_params] of the vector and subtractive engines. *)
Definition vector_keys : list string :=
  ["osc_a"; "osc_b"; "osc_c"; "osc_d"; "xy_x"; "xy_y"; "lfo_rate";
   "lfo_depth"; "filter_cutoff"; "filter_res"; "filter_mode"; "attack";
   "decay"; "sustain"; "release"]%string.

Definition subtractive_keys : list string :=
  ["osc1_wave"; "osc2_wave"; "osc_mix"; "detune"; "octave"; "filter_cutoff";
   "filter_res"; "filter_mode"; "filter_env_amt"; "amp_attack"; "amp_decay";
   "amp_sustain"; "amp_release"; "filt_attack"; "filt_decay"; "filt_sustain";
   "filt_release"; "arp_mode"; "arp_octaves"]%string.

(** The attribute names of an FM operator parameter [op{i}_{attr}]. *)
Definition fm_attrs : list string :=
  ["ratio"; "level"; "feedback"; "attack"; "decay"; "sustain"; "release"]%string.

(** A voice as it is while it holds [note]. *)
Definition holding (note : Z) (v : Voice.Voice) : Voice.Voice :=
  Voice.mkVoice (Voice.engine v) (Some note) true 100 (Voice._engine_name v).

(** The initial pool with voices 0 and 2 both holding note 60 and voices 1
    and 3 holding notes 64 and 67. *)
Definition chord_pool : VoicePool.VoicePool :=
  match VoicePool.voices VoicePool.init with
  | [v0; v1; v2; v3] =>
      VoicePool.mkPool [holding 60 v0; holding 64 v1; holding 60 v2; holding 67 v3] 2
  | _ => VoicePool.init
  end.

(** A voice whose recorded engine name is the unknown name "organ" (left
    there by an earlier [change_engine]) and whose FM engine has since been
    set to algorithm 5. *)
Definition organ_voice : Voice.Voice :=
  let v := Voice.change_engine (Voice.init "fm") "organ" in
  match Engines.set_param (Voice.engine v) "algorithm" (NInt 5) with
  | Ok g => Voice.set_engine v g
  | Raise _ => v
  end.

(** Entry 5 of [FM.ALGORITHMS]: no modulator sources, four carriers. *)
Definition alg5 : list (list nat * bool) :=
  [([], true); ([], true); ([], true); ([], true)].

(** An operator without feedback, in step with a sine generator of
    frequency [F] and phase [phi] when the note frequency is [f]. *)
Definition tracks (f F phi : Q) (p : FM.FMOperator) : Prop :=
  FM.feedback p == 0 /\ F == FM.ratio p * f /\ phi == FM._phase p.

(** Stand-ins used to run the sound path on concrete inputs: a cubic
    approximation of the sine, 355/113 for pi and a power function that is
    exact at 0 (MIDI note 69 is 440 Hz). *)
Definition sin_cubic (x : Q) : Q := x - x * x * x / 6.
Definition pi_approx : Q := 355 # 113.
Definition exp2_near_0 (x : Q) : Q := 1 + x.

(** The default FM patch switched to algorithm 5 and playing A4 at
    velocity 100. *)
Definition additive_a4 : FM.FMEngine :=
  FM.set_algorithm (FM.note_on exp2_near_0 FM.init 69 100) 5.

(** The envelope after [k] per-sample ticks. *)
Definition ticks (e : Envelope.ADSREnvelope) (k : nat) : Envelope.ADSREnvelope :=
  fst (Envelope.render_block e k).

(** The four parameters of two envelopes agree. *)
Definition same_params (e e' : Envelope.ADSREnvelope) : Prop :=
  Envelope.attack e' = Envelope.attack e
  /\ Envelope.decay e' = Envelope.decay e
  /\ Envelope.sustain e' = Envelope.sustain e
  /\ Envelope.release e' = Envelope.release e.

(** The block [c * x + y], sample by sample. *)
Definition scale_add (c : Q) (x y : list Q) : list Q :=
  map (fun p => c * fst p + snd p) (combine x y).

(** ** audio/oscillator.py (wavetables and rendering), floats as exact
    rationals

    [Wavetable64] further down has the phase of [render_block] over
    binary64. *)

Module Wavetable.

Definition SAMPLE_RATE : Z := 44100.
Definition TABLE_SIZE : Z := 2048.

(** [x % m] on floats, for a positive [m], without rounding: the result
    has the sign of [m] and is below [m]. *)
Definition py_fmod (x m : Q) : Q := x - inject_Z (Qfloor (x / m)) * m.

Section Tables.

Variable sin : Q -> Q.
Variable pi : Q.

(** The precomputed tables, as the value of entry [i]; every lookup of the
    code is at an index in [0, TABLE_SIZE). *)
Definition _SINE_TABLE (i : Z) : Q :=
  sin (2.0 * pi * inject_Z i / inject_Z TABLE_SIZE).

Definition _SAW_TABLE (i : Z) : Q :=
  2.0 * inject_Z i / inject_Z TABLE_SIZE - 1.0.

Definition _SQUARE_TABLE (i : Z) : Q :=
  if (i <? TABLE_SIZE / 2)%Z then 1.0 else -1.0.

Definition _TRIANGLE_TABLE (i : Z) : Q :=
  2.0 * Qabs (2.0 * inject_Z i / inject_Z TABLE_SIZE - 1.0) - 1.0.

(** [WAVE_TABLES[wave]]; [None] is the KeyError of an unknown name. *)
Definition WAVE_TABLES (wave : string) : option (Z -> Q) :=
  if (wave =? "sine")%string then Some _SINE_TABLE
  else if (wave =? "saw")%string then Some _SAW_TABLE
  else if (wave =? "square")%string then Some _SQUARE_TABLE
  else if (wave =? "triangle")%string then Some _TRIANGLE_TABLE
  else None.

(** The sample loop on the local [phase]: the phase after the loop and the
    samples. *)
Fixpoint run (table : Z -> Q) (phase_inc phase : Q) (n_frames : nat)
  : Q * list Q :=
  match n_frames with
  | O => (phase, [])
  | S n =>
      let idx := (Qtrunc phase mod TABLE_SIZE)%Z in
      let frac := phase - inject_Z (Qtrunc phase) in
      let next_idx := ((idx + 1) mod TABLE_SIZE)%Z in
      let o := table idx + frac * (table next_idx - table idx) in
      let '(ph, out) := run table phase_inc (phase + phase_inc) n in
      (ph, o :: out)
  end.

Definition render_block (o : Oscillator.WavetableOscillator) (freq : Q)
    (n_frames : nat) : option (Oscillator.WavetableOscillator * list Q) :=
  match WAVE_TABLES (Oscillator.wave o) with
  | None => None
  | Some table =>
      let phase_inc := freq * inject_Z TABLE_SIZE / inject_Z SAMPLE_RATE in
      let '(ph, out) := run table phase_inc (Oscillator._phase o) n_frames in
      Some (Oscillator.mkOsc (Oscillator.wave o)
              (py_fmod ph (inject_Z TABLE_SIZE)), out)
  end.

End Tables.

End Wavetable.

(** A sine stand-in that stays within [-1, 1]. *)
Definition sin_clamped (x : Q) : Q := py_min (py_max (sin_cubic x) (-1)) 1.

(** A sample within full scale. *)
Definition full_scale (v : Q) : Prop := -1 <= v <= 1.

(** Two phases that differ by a whole number of table lengths. *)
Definition same_table_position (ph ph' : Q) : Prop :=
  exists k : Z, ph' == ph - 2048 * inject_Z k.

(** ** A Python [dict] with string keys

    An association list in insertion order with one entry per key:
    assignment to a present key replaces the value where it stands,
    assignment to a new key appends. *)

Module PyDict.

Section Dict.

Context {V : Type}.

Definition t := list (string * V).

Fixpoint get (d : t) (k : string) : option V :=
  match d with
  | [] => None
  | (k', v) :: rest => if (k' =? k)%string then Some v else get rest k
  end.

(** [d[k] = v] *)
Fixpoint set (d : t) (k : string) (v : V) : t :=
  match d with
  | [] => [(k, v)]
  | (k', v') :: rest =>
      if (k' =? k)%string then (k, v) :: rest else (k', v') :: set rest k v
  end.

(** [d.pop(k, None)], keeping the dict *)
Fixpoint pop (d : t) (k : string) : t :=
  match d with
  | [] => []
  | (k', v') :: rest =>
      if (k' =? k)%string then rest else (k', v') :: pop rest k
  end.

Definition keys (d : t) : list string := map fst d.

End Dict.

Arguments t : clear implicits.

End PyDict.

(** ** sequencer/step.py *)

Module Step.

Record Step := mkStep {
  active : bool;
  note : Z;
  velocity : Z;
  length : Q;
  param_locks : PyDict.t number
}.

Definition init : Step := mkStep false 60 100 0.5 [].

Definition toggle (s : Step) : Step :=
  mkStep (negb (active s)) (note s) (velocity s) (length s) (param_locks s).

Definition set_param_lock (s : Step) (param : string) (value : number) : Step :=
  mkStep (active s) (note s) (velocity s) (length s)
         (PyDict.set (param_locks s) param value).

Definition clear_param_lock (s : Step) (param : string) : Step :=
  mkStep (active s) (note s) (velocity s) (length s)
         (PyDict.pop (param_locks s) param).

End Step.

(** ** sequencer/track.py *)

Module Track.

Definition N_STEPS : Z := 16.

Record Track := mkTrack {
  track_idx : Z;
  engine_name : string;
  steps : list Step.Step;
  midi_channel : Z;
  midi_out_enabled : bool;
  muted : bool
}.

Definition init (idx : Z) (name : string) : Track :=
  mkTrack idx name (repeat Step.init (Z.to_nat N_STEPS)) idx false false.

Definition set_engine (t : Track) (name : string) : Track :=
  mkTrack (track_idx t) name (steps t) (midi_channel t) (midi_out_enabled t)
          (muted t).

Definition set_steps (t : Track) (l : list Step.Step) : Track :=
  mkTrack (track_idx t) (engine_name t) l (midi_channel t) (midi_out_enabled t)
          (muted t).

Definition step_at (t : Track) (idx : Z) : result Step.Step :=
  py_getitem (steps t) (idx mod N_STEPS)%Z.

(** [[(i, s) for i, s in enumerate(self.steps) if s.active]], counting
    from [i]. *)
Fixpoint enumerate_active (l : list Step.Step) (i : Z) : list (Z * Step.Step) :=
  match l with
  | [] => []
  | s :: rest =>
      if Step.active s then (i, s) :: enumerate_active rest (i + 1)
      else enumerate_active rest (i + 1)
  end.

Definition active_steps (t : Track) : list (Z * Step.Step) :=
  enumerate_active (steps t) 0.

End Track.

(** ** sequencer/pattern.py *)

Module Pattern.

Definition N_TRACKS : Z := 4.

Record Pattern := mkPattern {
  tracks : list Track.Track;
  bpm : Q;
  swing : Q;
  n_steps : Z
}.

Definition init : Pattern :=
  mkPattern (map (fun i => Track.init (Z.of_nat i) "fm") (seq 0 (Z.to_nat N_TRACKS)))
            120.0 0.0 16.

Definition track (p : Pattern) (idx : Z) : result Track.Track :=
  py_getitem (tracks p) (idx mod N_TRACKS)%Z.

End Pattern.

(** ** midi/output.py and midi/input.py (message construction and
    dispatch; the port itself is outside) *)

Module MidiOutput.

(** [_midi_out] is either [None] or an open port; [sent] is what the port
    has been given. *)
Record MidiOutput := mkOut {
  port_open : bool;
  sent : list (list Z)
}.

Definition send_message (m : MidiOutput) (msg : list Z) : MidiOutput :=
  mkOut (port_open m) (sent m ++ [msg]).

Definition note_on (m : MidiOutput) (channel note velocity : Z) : MidiOutput :=
  if negb (port_open m) then m
  else send_message m
         [Z.lor 0x90 (Z.land channel 0x0F); Z.land note 0x7F; Z.land velocity 0x7F].

Definition note_off (m : MidiOutput) (channel note : Z) : MidiOutput :=
  if negb (port_open m) then m
  else send_message m [Z.lor 0x80 (Z.land channel 0x0F); Z.land note 0x7F; 0%Z].

Definition send_cc (m : MidiOutput) (channel cc value : Z) : MidiOutput :=
  if negb (port_open m) then m
  else send_message m
         [Z.lor 0xB0 (Z.land channel 0x0F); Z.land cc 0x7F; Z.land value 0x7F].

End MidiOutput.

Module MidiInput.

(** Which of the three callbacks are set. *)
Record MidiInput := mkIn {
  has_note_on_cb : bool;
  has_note_off_cb : bool;
  has_cc_cb : bool
}.

(** A callback invocation with its arguments. *)
Inductive call :=
| note_on_cb (note velocity : Z)
| note_off_cb (note : Z)
| cc_cb (cc_num cc_val : Z).

(** [_on_message((msg, dt))]: the callback it invokes, if any. *)
Definition _on_message (m : MidiInput) (msg : list Z) : option call :=
  match msg with
  | [] => None
  | b0 :: _ =>
      let status := Z.land b0 0xF0 in
      let long := (3 <=? List.length msg)%nat in
      if (status =? 0x90)%Z && long then
        match msg with
        | _ :: note :: velocity :: _ =>
            if (velocity =? 0)%Z
            then if has_note_off_cb m then Some (note_off_cb note) else None
            else if has_note_on_cb m then Some (note_on_cb note velocity) else None
        | _ => None
        end
      else if (status =? 0x80)%Z && long then
        match msg with
        | _ :: note :: _ =>
            if has_note_off_cb m then Some (note_off_cb note) else None
        | _ => None
        end
      else if (status =? 0xB0)%Z && long then
        match msg with
        | _ :: cc_num :: cc_val :: _ =>
            if has_cc_cb m then Some (cc_cb cc_num cc_val) else None
        | _ => None
        end
      else None
  end.

End MidiInput.

(** [a % n] on ints: a zero divisor raises ZeroDivisionError. *)
Definition py_mod (a n : Z) : result Z :=
  if (n =? 0)%Z then Raise ZeroDivisionError else Ok (a mod n)%Z.

(** ** sequencer/clock.py (transport and the timing loop) *)

Module ClockLoop.

Definition set_step (c : Clock.Clock) (s : Z) : Clock.Clock :=
  Clock.mkClock (Clock.bpm c) (Clock._running c) s (Clock.n_steps c) (Clock.swing c).

Definition start (c : Clock.Clock) : Clock.Clock :=
  if Clock._running c then c
  else Clock.mkClock (Clock.bpm c) true 0 (Clock.n_steps c) (Clock.swing c).

Definition stop (c : Clock.Clock) : Clock.Clock :=
  Clock.mkClock (Clock.bpm c) false 0 (Clock.n_steps c) (Clock.swing c).

Definition reset (c : Clock.Clock) : Clock.Clock := set_step c 0.

(** One pass through the body of the [while self._running] loop of
    [_run]: the step handed to the callbacks (whose failures are caught
    and dropped), the clock with the step advanced and the next deadline.
    The sleep until the deadline is outside the model. *)
Definition _run_pass (c : Clock.Clock) (next_tick : Q)
  : result (Z * Clock.Clock * Q) :=
  let step := Clock._step c in
  py_bind (Clock._step_duration c step) (fun duration =>
    py_bind (py_mod (step + 1) (Clock.n_steps c)) (fun step' =>
      Ok (step, set_step c step', next_tick + duration))).

(** [k] passes: the steps fired in order, the clock and the deadline. *)
Fixpoint _run (k : nat) (c : Clock.Clock) (next_tick : Q)
  : result (list Z * Clock.Clock * Q) :=
  match k with
  | O => Ok ([], c, next_tick)
  | S k' =>
      py_bind (_run_pass c next_tick) (fun '(step, c1, t1) =>
        py_bind (_run k' c1 t1) (fun '(fired, c2, t2) =>
          Ok (step :: fired, c2, t2)))
  end.

End ClockLoop.

(** ** audio/engine.py (the event queue and its drain) *)

Module AudioQueue.

Section Play.

Variable exp2 : Q -> Q.
Variable shuffle : list Z -> list Z.

(** The drain loop of [_callback]: events are handled oldest first; an
    exception leaves the loop. *)
Fixpoint drain (p : VoicePool.VoicePool) (queue : list AudioEngine.Event)
  : result VoicePool.VoicePool :=
  match queue with
  | [] => Ok p
  | ev :: rest =>
      py_bind (AudioEngine._handle_event exp2 shuffle p ev) (fun p1 => drain p1 rest)
  end.

End Play.

End AudioQueue.

(** ** app.py (the controller callbacks) *)

Module App.

(** The parts of the application the callbacks touch: the pattern, the
    audio engine's event queue (oldest first), the clock, the MIDI output
    and the playhead updates queued for the interface. *)
Record App := mkApp {
  pattern : Pattern.Pattern;
  audio_queue : list AudioEngine.Event;
  clock : Clock.Clock;
  midi_out : MidiOutput.MidiOutput;
  playhead_updates : list Z
}.

Definition init : App :=
  mkApp Pattern.init [] (Clock.init 120.0) (MidiOutput.mkOut false []) [].

Definition enqueue (a : App) (ev : AudioEngine.Event) : App :=
  mkApp (pattern a) (audio_queue a ++ [ev]) (clock a) (midi_out a)
        (playhead_updates a).

Definition set_midi_out (a : App) (m : MidiOutput.MidiOutput) : App :=
  mkApp (pattern a) (audio_queue a) (clock a) m (playhead_updates a).

Definition set_pattern (a : App) (p : Pattern.Pattern) : App :=
  mkApp p (audio_queue a) (clock a) (midi_out a) (playhead_updates a).

Definition set_clock (a : App) (c : Clock.Clock) : App :=
  mkApp (pattern a) (audio_queue a) c (midi_out a) (playhead_updates a).

(** The parameter locks of a step, in insertion order. *)
Fixpoint apply_locks (a : App) (track_idx : Z) (locks : PyDict.t number) : App :=
  match locks with
  | [] => a
  | (param, val) :: rest =>
      apply_locks (enqueue a (AudioEngine.SetParam track_idx param val)) track_idx rest
  end.

(** Body of the loop of [_on_step_tick] for one track. *)
Definition tick_track (a : App) (step_idx track_idx : Z) : result App :=
  py_bind (Pattern.track (pattern a) track_idx) (fun track =>
    if Track.muted track then Ok a
    else
      py_bind (Track.step_at track step_idx) (fun s =>
        py_bind (py_mod (step_idx - 1) (Pattern.n_steps (pattern a))) (fun prev_idx =>
          py_bind (Track.step_at track prev_idx) (fun prev_step =>
            let a :=
              if Step.active prev_step then
                let a := enqueue a (AudioEngine.NoteOff (Some track_idx) (Step.note prev_step)) in
                if Track.midi_out_enabled track
                then set_midi_out a (MidiOutput.note_off (midi_out a)
                                       (Track.midi_channel track) (Step.note prev_step))
                else a
              else a in
            let a :=
              if Step.active s then
                let a := apply_locks a track_idx (Step.param_locks s) in
                let a := enqueue a (AudioEngine.NoteOn (Some track_idx) (Step.note s)
                                      (Step.velocity s)) in
                if Track.midi_out_enabled track
                then set_midi_out a (MidiOutput.note_on (midi_out a)
                                       (Track.midi_channel track) (Step.note s)
                                       (Step.velocity s))
                else a
              else a in
            Ok a)))).

Fixpoint for_tracks (a : App) (step_idx : Z) (idxs : list Z) : result App :=
  match idxs with
  | [] => Ok a
  | t :: rest => py_bind (tick_track a step_idx t) (fun a1 => for_tracks a1 step_idx rest)
  end.

Definition _on_step_tick (a : App) (step_idx : Z) : result App :=
  py_bind (for_tracks a step_idx [0; 1; 2; 3]%Z) (fun a1 =>
    Ok (mkApp (pattern a1) (audio_queue a1) (clock a1) (midi_out a1)
              (playhead_updates a1 ++ [step_idx]))).

(** [self.pattern.track(track_idx).step_at(step_idx).toggle()] *)
Definition _on_step_toggle (a : App) (track_idx step_idx : Z) : result App :=
  let p := pattern a in
  py_bind (norm_index (List.length (Pattern.tracks p)) (track_idx mod Pattern.N_TRACKS)%Z)
    (fun ti =>
       match nth_error (Pattern.tracks p) ti with
       | None => Raise IndexError
       | Some track =>
           py_bind (norm_index (List.length (Track.steps track))
                      (step_idx mod Track.N_STEPS)%Z)
             (fun si =>
                match nth_error (Track.steps track) si with
                | None => Raise IndexError
                | Some s =>
                    let track' := Track.set_steps track
                                    (set_nth (Track.steps track) si (Step.toggle s)) in
                    Ok (set_pattern a
                          (Pattern.mkPattern (set_nth (Pattern.tracks p) ti track')
                             (Pattern.bpm p) (Pattern.swing p) (Pattern.n_steps p)))
                end)
       end).

Definition _on_engine_change (a : App) (track_idx : Z) (engine_name : string)
  : result App :=
  let p := pattern a in
  py_bind (norm_index (List.length (Pattern.tracks p)) (track_idx mod Pattern.N_TRACKS)%Z)
    (fun ti =>
       match nth_error (Pattern.tracks p) ti with
       | None => Raise IndexError
       | Some track =>
           let p' := Pattern.mkPattern
                       (set_nth (Pattern.tracks p) ti (Track.set_engine track engine_name))
                       (Pattern.bpm p) (Pattern.swing p) (Pattern.n_steps p) in
           Ok (enqueue (set_pattern a p') (AudioEngine.SetEngine track_idx engine_name))
       end).

Definition _on_param_change (a : App) (track_idx : Z) (param : string)
    (value : number) : App :=
  enqueue a (AudioEngine.SetParam track_idx param value).

Definition _midi_note_on (a : App) (note velocity : Z) : App :=
  enqueue a (AudioEngine.NoteOn None note velocity).

Definition _midi_note_off (a : App) (note : Z) : App :=
  enqueue a (AudioEngine.NoteOff None note).

Definition _on_bpm_change (a : App) (b : Q) : App :=
  let c := clock a in
  let p := pattern a in
  mkApp (Pattern.mkPattern (Pattern.tracks p) b (Pattern.swing p) (Pattern.n_steps p))
        (audio_queue a)
        (Clock.mkClock b (Clock._running c) (Clock._step c) (Clock.n_steps c)
                       (Clock.swing c))
        (midi_out a) (playhead_updates a).

Definition _on_swing_change (a : App) (sw : Q) : App :=
  let c := clock a in
  let p := pattern a in
  mkApp (Pattern.mkPattern (Pattern.tracks p) (Pattern.bpm p) sw (Pattern.n_steps p))
        (audio_queue a)
        (Clock.mkClock (Clock.bpm c) (Clock._running c) (Clock._step c)
                       (Clock.n_steps c) sw)
        (midi_out a) (playhead_updates a).

(** Note-offs of [_on_stop] for the steps of one track. *)
Fixpoint stop_steps (a : App) (t : Z) (track : Track.Track) (l : list Step.Step)
  : App :=
  match l with
  | [] => a
  | step :: rest =>
      let a :=
        if Step.active step then
          let a := enqueue a (AudioEngine.NoteOff (Some t) (Step.note step)) in
          if Track.midi_out_enabled track
          then set_midi_out a (MidiOutput.note_off (midi_out a)
                                 (Track.midi_channel track) (Step.note step))
          else a
        else a in
      stop_steps a t track rest
  end.

Fixpoint stop_tracks (a : App) (idxs : list Z) : result App :=
  match idxs with
  | [] => Ok a
  | t :: rest =>
      py_bind (Pattern.track (pattern a) t) (fun track =>
        stop_tracks (stop_steps a t track (Track.steps track)) rest)
  end.

Definition _on_stop (a : App) : result App :=
  stop_tracks (set_clock a (ClockLoop.stop (clock a))) [0; 1; 2; 3]%Z.

Definition _on_play (a : App) : App :=
  set_clock a (ClockLoop.start (clock a)).

End App.

(** The duration of a step, 0 where [_step_duration] raises. *)
Definition step_seconds (c : Clock.Clock) (step : Z) : Q :=
  match Clock._step_duration c step with
  | Ok d => d
  | Raise _ => 0
  end.

(** Two clocks that differ at most in the step counter. *)
Definition same_settings (c c' : Clock.Clock) : Prop :=
  Clock.bpm c' = Clock.bpm c /\ Clock.swing c' = Clock.swing c
  /\ Clock.n_steps c' = Clock.n_steps c /\ Clock._running c' = Clock._running c.

(** A pattern of four tracks of sixteen steps each. *)
Definition pattern_ok (p : Pattern.Pattern) : Prop :=
  List.length (Pattern.tracks p) = 4%nat
  /\ Forall (fun t => List.length (Track.steps t) = 16%nat) (Pattern.tracks p).

(** An event a step tick queues for voice [t]: a note-on or note-off
    addressed to [t], or a parameter change on [t]. *)
Definition tick_event (t : Z) (ev : AudioEngine.Event) : Prop :=
  match ev with
  | AudioEngine.NoteOn (Some t') _ _ => t' = t
  | AudioEngine.NoteOff (Some t') _ => t' = t
  | AudioEngine.SetParam t' _ _ => t' = t
  | _ => False
  end.

Definition is_note_event (ev : AudioEngine.Event) : Prop :=
  match ev with
  | AudioEngine.NoteOn _ _ _ | AudioEngine.NoteOff _ _ => True
  | _ => False
  end.

(** The voice an event addresses, when it names one. *)
Definition event_voice (ev : AudioEngine.Event) : option Z :=
  match ev with
  | AudioEngine.NoteOn t _ _ => t
  | AudioEngine.NoteOff t _ => t
  | AudioEngine.SetEngine t _ => Some t
  | AudioEngine.SetParam t _ _ => Some t
  end.

(** No step of the pattern carries a parameter lock. *)
Definition no_locks (p : Pattern.Pattern) : Prop :=
  Forall (fun t => Forall (fun s => Step.param_locks s = []) (Track.steps t))
         (Pattern.tracks p).

(** [k] calls of [arp_tick] in a row: the note frequencies triggered, in
    order, and the engine afterwards. *)
Fixpoint arp_ticks (exp2 : Q -> Q) (k : nat) (e : Subtractive.SubtractiveEngine)
  : result (list Q * Subtractive.SubtractiveEngine) :=
  match k with
  | O => Ok ([], e)
  | S k' =>
      py_bind (Subtractive.arp_tick exp2 e) (fun e1 =>
        py_bind (arp_ticks exp2 k' e1) (fun '(fs, e2) =>
          Ok (Subtractive._note_freq e1 :: fs, e2)))
  end.

(** The held notes in ascending order, once per octave layer, each layer
    twelve semitones above the one before. *)
Definition arp_layers (held : list Z) (octaves : Z) : list Z :=
  flat_map (fun oct_shift =>
              map (fun n => (n + Z.of_nat oct_shift * 12)%Z) (Subtractive.sorted held))
           (seq 0 (Z.to_nat octaves)).

(** ** [get_params] of the three engines *)

Module Params.











End Params.




(** The note-offs [_on_stop] queues for track [t]: one for each active
    step, in step order. *)
Definition stop_events (t : Z) (track : Track.Track) : list AudioEngine.Event :=
  map (fun s => AudioEngine.NoteOff (Some t) (Step.note s))
      (filter Step.active (Track.steps track)).

(** The application after step [s] of track [t] has been toggled. *)
Definition with_step_on (a : App.App) (t s : Z) : App.App :=
  match App._on_step_toggle a t s with
  | Ok a' => a'
  | Raise _ => a
  end.

(** The initial pool after one auto-allocated note-on. *)
Definition one_note_pool : VoicePool.VoicePool :=
  match VoicePool.note_on exp2_near_0 (fun l => l) VoicePool.init None 60 100 with
  | Ok p => p
  | Raise _ => VoicePool.init
  end.

(** * The code's float arithmetic

    IEEE 754 binary64 as Python computes with it: every operation
    returns the nearest double, ties to even.  The rounding is that of the
    Standard Library's specification of floating-point arithmetic. *)

Module Binary64.

Definition float : Type := spec_float.

Definition prec : Z := 53.
Definition emax : Z := 1024.

Definition zero : float := S754_zero false.

(** [x + y], [x - y] and [x * y] raise nothing: an overflow is an
    infinity. *)
Definition add (x y : float) : float := SFadd prec emax x y.
Definition sub (x y : float) : float := SFsub prec emax x y.
Definition mul (x y : float) : float := SFmul prec emax x y.

(** [x <= y], [x < y], [x == y]: false when either side is NaN. *)
Definition leb (x y : float) : bool := SFleb x y.
Definition ltb (x y : float) : bool := SFltb x y.
Definition eqb (x y : float) : bool := SFeqb x y.

(** [x / y]: a zero divisor raises ZeroDivisionError. *)
Definition div (x y : float) : result float :=
  match y with
  | S754_zero _ => Raise ZeroDivisionError
  | _ => Ok (SFdiv prec emax x y)
  end.

(** [float(n)] for an int, also where an int meets a float in an
    operation: the nearest double, OverflowError when the int is beyond
    the doubles. *)
Definition of_int (n : Z) : result float :=
  match binary_normalize prec emax n 0 false with
  | S754_infinity _ => Raise OverflowError
  | x => Ok x
  end.

(** The double a decimal literal denotes: the quotient of two integers,
    rounded once. *)
Definition of_Q (q : Q) : float :=
  match Qnum q with
  | Z0 => zero
  | Zpos n => SFdiv prec emax (S754_finite false n 0) (S754_finite false (Qden q) 0)
  | Zneg n => SFdiv prec emax (S754_finite true n 0) (S754_finite false (Qden q) 0)
  end.

Definition one : float := of_Q 1.

(** The number a finite double is. *)
Definition to_Q (x : float) : option Q :=
  match x with
  | S754_zero _ => Some 0
  | S754_finite s m e =>
      let n := if s then Zneg m else Zpos m in
      Some (match e with
            | Z0 => inject_Z n
            | Zpos p => inject_Z (n * 2 ^ Zpos p)
            | Zneg p => n # (2 ^ p)
            end)
  | _ => None
  end.

(** [int(x)]: the integer part, toward zero; ValueError for NaN,
    OverflowError for an infinity. *)
Definition to_int (x : float) : result Z :=
  match x with
  | S754_zero _ => Ok 0%Z
  | S754_nan => Raise ValueError
  | S754_infinity _ => Raise OverflowError
  | S754_finite s m e =>
      let a := match e with
               | Z0 => Zpos m
               | Zpos p => (Zpos m * 2 ^ Zpos p)%Z
               | Zneg p => (Zpos m / 2 ^ Zpos p)%Z
               end in
      Ok (if s then (- a)%Z else a)
  end.

(** C's [fmod]: the exact remainder of [x / y] truncated, with the sign
    of [x]. *)
Definition fmod (x y : float) : float :=
  match to_Q x, to_Q y with
  | Some qx, Some qy =>
      if Qeq_bool qy 0 then S754_nan
      else
        let r := qx - inject_Z (Qtrunc (qx / qy)) * qy in
        if Qeq_bool r 0
        then match x with
             | S754_finite s _ _ => S754_zero s
             | _ => x
             end
        else of_Q r
  | Some _, None =>
      match y with
      | S754_infinity _ => x
      | _ => S754_nan
      end
  | None, _ => S754_nan
  end.

(** [x % y] on floats: [fmod], moved by [y] when its sign differs from
    that of [y]; a zero remainder takes the sign of [y]; a zero divisor
    raises ZeroDivisionError. *)
Definition modulo (x y : float) : result float :=
  if eqb y zero then Raise ZeroDivisionError
  else
    let m := fmod x y in
    if eqb m zero
    then Ok (match y with
             | S754_finite s _ _ | S754_infinity s => S754_zero s
             | _ => m
             end)
    else if xorb (ltb y zero) (ltb m zero) then Ok (add m y)
    else Ok m.

(** Zero or above, [+inf] included. *)
Definition nonneg (x : float) : Prop := leb zero x = true.

End Binary64.

(** ** audio/envelope.py over binary64 *)

Module Envelope64.

Import Binary64.

Definition SAMPLE_RATE : Z := 44100.

(** [max(1, int(seconds * SAMPLE_RATE))] *)
Definition _time_to_samples (seconds : float) : result Z :=
  py_bind (of_int SAMPLE_RATE) (fun rate =>
    py_bind (to_int (mul seconds rate)) (fun n => Ok (Z.max 1 n))).

Record ADSREnvelope := mkEnv {
  attack : float;
  decay : float;
  sustain : float;
  release : float;
  _state : Envelope.EnvState;
  _level : float;
  _release_level : float
}.

Definition init (a d s r : float) : ADSREnvelope :=
  mkEnv a d s r Envelope.IDLE zero zero.

Definition with_state (e : ADSREnvelope) (st : Envelope.EnvState) (lvl : float) :=
  mkEnv (attack e) (decay e) (sustain e) (release e) st lvl (_release_level e).

Definition note_on (e : ADSREnvelope) : ADSREnvelope :=
  mkEnv (attack e) (decay e) (sustain e) (release e) Envelope.ATTACK (_level e)
        (_level e).

Definition note_off (e : ADSREnvelope) : ADSREnvelope :=
  match _state e with
  | Envelope.IDLE => e
  | _ => mkEnv (attack e) (decay e) (sustain e) (release e) Envelope.RELEASE
               (_level e) (_level e)
  end.

(** [x / _time_to_samples(seconds)] *)
Definition per_sample (x seconds : float) : result float :=
  py_bind (_time_to_samples seconds) (fun n =>
    py_bind (of_int n) (fun d => div x d)).

(** [_tick]: the envelope after the call and the value returned. *)
Definition _tick (e : ADSREnvelope) : result (ADSREnvelope * float) :=
  match _state e with
  | Envelope.IDLE => Ok (e, zero)
  | Envelope.ATTACK =>
      py_bind (per_sample one (attack e)) (fun atk_rate =>
        let level := add (_level e) atk_rate in
        if leb one level
        then Ok (with_state e Envelope.DECAY one, one)
        else Ok (with_state e Envelope.ATTACK level, level))
  | Envelope.DECAY =>
      py_bind (per_sample (sub one (sustain e)) (decay e)) (fun dec_rate =>
        let level := sub (_level e) dec_rate in
        if leb level (sustain e)
        then Ok (with_state e Envelope.SUSTAIN (sustain e), sustain e)
        else Ok (with_state e Envelope.DECAY level, level))
  | Envelope.SUSTAIN =>
      Ok (with_state e Envelope.SUSTAIN (sustain e), sustain e)
  | Envelope.RELEASE =>
      py_bind (per_sample (_release_level e) (release e)) (fun rel_rate =>
        let level := sub (_level e) rel_rate in
        if leb level zero
        then Ok (with_state e Envelope.IDLE zero, zero)
        else Ok (with_state e Envelope.RELEASE level, level))
  end.

(** The envelope after [k] calls of [_tick]. *)
Fixpoint ticks (e : ADSREnvelope) (k : nat) : result ADSREnvelope :=
  match k with
  | O => Ok e
  | S k' => py_bind (_tick e) (fun r => ticks (fst r) k')
  end.

End Envelope64.

(** ** sequencer/clock.py over binary64 *)

Module Clock64.

Import Binary64.

Record Clock := mkClock {
  bpm : float;
  _running : bool;
  _step : Z;
  n_steps : Z;
  swing : float
}.

(** [base = 60.0 / self.bpm / 4.0] *)
Definition base (c : Clock) : result float :=
  py_bind (div (of_Q 60.0) (bpm c)) (fun b => div b (of_Q 4.0)).

Definition _step_duration (c : Clock) (step : Z) : result float :=
  py_bind (base c) (fun base =>
    if eqb (swing c) (of_Q 0.0) then Ok base
    else
      let swing_amount := mul (swing c) (of_Q 0.33) in
      if (step mod 2 =? 0)%Z
      then Ok (mul base (add (of_Q 1.0) swing_amount))
      else Ok (mul base (sub (of_Q 1.0) swing_amount))).

(** One pass through the body of the loop of [_run], as
    [ClockLoop._run_pass]. *)
Definition _run_pass (c : Clock) (next_tick : float)
  : result (Z * Clock * float) :=
  let step := _step c in
  py_bind (_step_duration c step) (fun duration =>
    py_bind (py_mod (step + 1) (n_steps c)) (fun step' =>
      Ok (step, mkClock (bpm c) (_running c) step' (n_steps c) (swing c),
          add next_tick duration))).

Fixpoint _run (k : nat) (c : Clock) (next_tick : float)
  : result (list Z * Clock * float) :=
  match k with
  | O => Ok ([], c, next_tick)
  | S k' =>
      py_bind (_run_pass c next_tick) (fun '(step, c1, t1) =>
        py_bind (_run k' c1 t1) (fun '(fired, c2, t2) =>
          Ok (step :: fired, c2, t2)))
  end.

End Clock64.

(** ** audio/oscillator.py over binary64: the phase of [render_block]

    For an oscillator whose wave has a table.  The samples are float32
    values computed by NumPy and are not part of this embedding; the phase
    is a Python float. *)

Module Wavetable64.

Import Binary64.

Definition TABLE_SIZE : Z := 2048.
Definition SAMPLE_RATE : Z := 44100.

(** [phase_inc = freq * TABLE_SIZE / SAMPLE_RATE] *)
Definition phase_inc (freq : float) : result float :=
  py_bind (of_int TABLE_SIZE) (fun size =>
    py_bind (of_int SAMPLE_RATE) (fun rate => div (mul freq size) rate)).

(** The loop over the frames: [int(phase)] is taken for the table index,
    then [phase += phase_inc]. *)
Fixpoint run_phase (phase inc : float) (n_frames : nat) : result float :=
  match n_frames with
  | O => Ok phase
  | S n => py_bind (to_int phase) (fun _ => run_phase (add phase inc) inc n)
  end.

(** The value [render_block] leaves in [self._phase]:
    [phase % TABLE_SIZE] after the loop. *)
Definition _phase_after (phase freq : float) (n_frames : nat) : result float :=
  py_bind (phase_inc freq) (fun inc =>
    py_bind (run_phase phase inc n_frames) (fun ph =>
      py_bind (of_int TABLE_SIZE) (fun size => modulo ph size))).

End Wavetable64.

(** ** Vocabulary of the statements about notes and releases *)

(** A MIDI data value: note numbers and velocities are 0..127. *)
Definition midi_data (n : Z) : Prop := (0 <= n <= 127)%Z.

(** The envelopes of an engine, in the order its [note_off] visits
    them. *)
Definition engine_envelopes (g : Engines.SynthEngine)
  : list Envelope.ADSREnvelope :=
  match g with
  | Engines.FMEngine e => map FM.env (FM.ops e)
  | Engines.VectorEngine e => [Vector.env e]
  | Engines.SubtractiveEngine e => [Subtractive.amp_env e; Subtractive.filt_env e]
  end.

(** What a release does to an envelope: one that sounds is put in
    RELEASE, to fall from the level it has; an idle one stays as it is.
    Level and times are not touched. *)
Definition env_released (e e' : Envelope.ADSREnvelope) : Prop :=
  same_params e e'
  /\ Envelope._level e' = Envelope._level e
  /\ (Envelope._state e <> Envelope.IDLE ->
      Envelope._state e' = Envelope.RELEASE
      /\ Envelope._release_level e' = Envelope._level e)
  /\ (Envelope._state e = Envelope.IDLE -> e' = e).

(** A voice after the release of its note: every envelope of its engine
    is released; the note on record, the active flag, the velocity and
    the engine name stay. *)
Definition voice_released (v v' : Voice.Voice) : Prop :=
  Voice.current_note v' = Voice.current_note v
  /\ Voice.active v' = Voice.active v
  /\ Voice.velocity v' = Voice.velocity v
  /\ Voice._engine_name v' = Voice._engine_name v
  /\ Forall2 env_released (engine_envelopes (Voice.engine v))
                          (engine_envelopes (Voice.engine v')).

(** The states of the envelopes of voice [j] of a pool. *)
Definition envelope_states (p : VoicePool.VoicePool) (j : nat)
  : list Envelope.EnvState :=
  match nth_error (VoicePool.voices p) j with
  | Some v => map Envelope._state (engine_envelopes (Voice.engine v))
  | None => []
  end.

(** The initial pool after auto-allocated note-ons for 60, 64, 60 and 67:
    voices 0 and 2 both sound note 60. *)
Definition sounding_pool : VoicePool.VoicePool :=
  match auto_note_ons exp2_near_0 (fun l => l) VoicePool.init
          [(60, 100); (64, 100); (60, 100); (67, 100)]%Z with
  | Ok (_, p) => p
  | Raise _ => VoicePool.init
  end.

(** A note event whose note-on data are MIDI data. *)
Definition playable (ev : AudioEngine.Event) : Prop :=
  match ev with
  | AudioEngine.NoteOn _ note velocity => midi_data note /\ midi_data velocity
  | AudioEngine.NoteOff _ _ => True
  | _ => False
  end.

(** Every step of the pattern carries MIDI data. *)
Definition midi_steps (p : Pattern.Pattern) : Prop :=
  Forall (fun t => Forall (fun s => midi_data (Step.note s)
                                    /\ midi_data (Step.velocity s))
                          (Track.steps t))
         (Pattern.tracks p).


(** ** Vocabulary of the binary64 replays *)

(** The state and the level of a binary64 envelope after [k] ticks. *)
Definition state_after64 (e : Envelope64.ADSREnvelope) (k : nat)
  : result (Envelope.EnvState * Binary64.float) :=
  py_bind (Envelope64.ticks e k)
          (fun e' => Ok (Envelope64._state e', Envelope64._level e')).

(** The deadline after [k] passes of the binary64 clock loop. *)
Definition deadline_after64 (c : Clock64.Clock) (t0 : Binary64.float) (k : nat)
  : result Binary64.float :=
  py_bind (Clock64._run k c t0) (fun r => Ok (snd r)).

(** The binary64 phase after a block of [m] frames and a block of [n]. *)
Definition phase_after_two64 (phase freq : Binary64.float) (m n : nat)
  : result Binary64.float :=
  py_bind (Wavetable64._phase_after phase freq m)
          (fun ph => Wavetable64._phase_after ph freq n).

(** The ranges the interface gives the octave shift (-2..2) and the
    arpeggiator span (1..4) of a subtractive engine. *)
Definition patch_in_range (g : Engines.SynthEngine) : Prop :=
  match g with
  | Engines.SubtractiveEngine e =>
      (-2 <= Subtractive.octave e <= 2)%Z
      /\ (1 <= Subtractive.arp_octaves e <= 4)%Z
  | _ => True
  end.

Definition pool_in_range (p : VoicePool.VoicePool) : Prop :=
  Forall (fun v => patch_in_range (Voice.engine v)) (VoicePool.voices p).

(** * Properties *)

(** ** Arithmetic helpers *)

Lemma Qle_bool_false (x y : Q) : Qle_bool x y = false -> y < x.
Proof.
  intro H. apply Qnot_le_lt. intro Hle.
  apply Qle_bool_iff in Hle. congruence.
Qed.

Lemma Qtrunc_nonneg_floor (q : Q) : 0 <= q -> Qtrunc q = Qfloor q.
Proof.
  destruct q as [n d]. unfold Qle, Qtrunc, Qfloor. simpl. intro H.
  apply Z.quot_div_nonneg; lia.
Qed.

(** ** Envelope *)

Lemma time_to_samples_ge_1 (s : Q) : (1 <= Envelope._time_to_samples s)%Z.
Proof. unfold Envelope._time_to_samples. lia. Qed.

Lemma time_to_samples_pos (s : Q) : 0 < inject_Z (Envelope._time_to_samples s).
Proof.
  pose proof (time_to_samples_ge_1 s) as H.
  change 0 with (inject_Z 0). rewrite <- Zlt_Qlt. lia.
Qed.

(** ** Binary64 *)

Lemma binary_round_aux_sign (sx : bool) (mx ex : Z) (lx : location) :
  match binary_round_aux Binary64.prec Binary64.emax sx mx ex lx with
  | S754_zero s | S754_infinity s | S754_finite s _ _ => s = sx
  | S754_nan => True
  end.
Proof.
  unfold binary_round_aux.
  destruct (shr_fexp Binary64.prec Binary64.emax mx ex lx) as [mrs' e'].
  destruct (shr_fexp Binary64.prec Binary64.emax
              (round_nearest_even (shr_m mrs') (loc_of_shr_record mrs')) e'
              loc_Exact) as [mrs'' e''].
  destruct (shr_m mrs''); [reflexivity | | exact I].
  destruct (Z.leb e'' (Z.sub Binary64.emax Binary64.prec)); reflexivity.
Qed.

Lemma nonneg_sign (s : bool) (m : positive) (e : Z) :
  Binary64.nonneg (S754_finite s m e) -> s = false.
Proof. destruct s; [discriminate | reflexivity]. Qed.

(** A product of two floats that are not negative is not negative. *)
Lemma mul_nonneg (x : Binary64.float) (my : positive) (ey : Z) :
  Binary64.nonneg x ->
  match Binary64.mul x (S754_finite false my ey) with
  | S754_finite s _ _ => s = false
  | _ => True
  end.
Proof.
  intro Hx. destruct x as [s | s | | s m e]; simpl; try exact I.
  apply nonneg_sign in Hx. subst s.
  pose proof (binary_round_aux_sign (xorb false false) (Zpos (m * my)) (e + ey)
                loc_Exact) as H.
  unfold Binary64.mul, SFmul.
  destruct (binary_round_aux Binary64.prec Binary64.emax (xorb false false)
              (Zpos (m * my)) (e + ey) loc_Exact); try exact I.
  exact H.
Qed.

(** [int(x)] of a float that is not negative is the floor of its
    value. *)
Lemma to_int_floor (x : Binary64.float) (p : Q) :
  match x with S754_finite s _ _ => s = false | _ => True end ->
  Binary64.to_Q x = Some p ->
  Binary64.to_int x = Ok (Qfloor p) /\ 0 <= p.
Proof.
  destruct x as [s | s | | s m e]; cbn [Binary64.to_Q Binary64.to_int];
    intros Hs Hp; try discriminate Hp.
  - injection Hp as <-. split; [reflexivity | discriminate].
  - subst s. injection Hp as <-. destruct e as [| e | e].
    + split; [now rewrite Qfloor_Z | discriminate].
    + split; [now rewrite Qfloor_Z |].
      assert (H : (0 <= Zpos m * 2 ^ Zpos e)%Z)
        by (apply Z.mul_nonneg_nonneg; [lia | apply Z.pow_nonneg; lia]).
      rewrite Zle_Qle in H. exact H.
    + split; [| discriminate].
      unfold Qfloor. now rewrite Pos2Z.inj_pow.
Qed.

Lemma sample_rate_float :
  Binary64.of_int Envelope64.SAMPLE_RATE = Ok (Binary64.of_Q 44100).
Proof. vm_compute. reflexivity. Qed.

(** C3 (as amended): for a number of seconds that is not negative and
    whose binary64 product [p] with 44100 is finite, the conversion
    returns [max(1, floor(p))]: the product is truncated, not rounded to the
    nearest integer, and the result is at least one sample. *)
Theorem C3_time_to_samples_truncates (seconds : Binary64.float) (p : Q) :
  Binary64.nonneg seconds ->
  Binary64.to_Q (Binary64.mul seconds (Binary64.of_Q 44100)) = Some p ->
  Envelope64._time_to_samples seconds = Ok (Z.max 1 (Qfloor p))
  /\ (1 <= Z.max 1 (Qfloor p))%Z
  /\ 0 <= p.
Proof.
  intros Hs Hp. unfold Envelope64._time_to_samples.
  rewrite sample_rate_float. cbn [py_bind].
  assert (Hsign : match Binary64.mul seconds (Binary64.of_Q 44100) with
                  | S754_finite s _ _ => s = false
                  | _ => True
                  end).
  { assert (E : exists my ey, Binary64.of_Q 44100 = S754_finite false my ey)
      by (vm_compute; eauto).
    destruct E as (my & ey & ->). apply mul_nonneg. exact Hs. }
  destruct (to_int_floor _ p Hsign Hp) as [Hint Hpos].
  rewrite Hint. cbn [py_bind].
  split; [reflexivity | split; [lia | exact Hpos]].
Qed.

Lemma C3_time_to_samples_truncates_witness :
  Envelope64._time_to_samples (Binary64.of_Q 0.7) = Ok 30869%Z.
Proof.
  destruct (C3_time_to_samples_truncates (Binary64.of_Q 0.7)
              (8485480987361279 # 274877906944))
    as [H _].
  - reflexivity.
  - vm_compute. reflexivity.
  - rewrite H. vm_compute. reflexivity.
Defined.

(** C3 (as stated) fails: 1/128 s is a double, and its product with
    44100 is exactly 344.53125, which the code truncates to 344 while
    [max(1, round(...))] is 345. *)
Lemma C3_round_counterexample :
  Binary64.nonneg (Binary64.of_Q 0.0078125)
  /\ (exists q, Binary64.to_Q (Binary64.of_Q 0.0078125) = Some q
                /\ q == 0.0078125)
  /\ (exists p, Binary64.to_Q (Binary64.mul (Binary64.of_Q 0.0078125)
                                 (Binary64.of_Q 44100)) = Some p
                /\ p == 344.53125)
  /\ Envelope64._time_to_samples (Binary64.of_Q 0.0078125) = Ok 344%Z
  /\ Reference.time_to_samples 0.0078125 = 345%Z.
Proof.
  split; [reflexivity |].
  split; [eexists; split; [vm_compute; reflexivity | reflexivity] |].
  split; [eexists; split; [vm_compute; reflexivity | reflexivity] |].
  split; vm_compute; reflexivity.
Qed.

(** No time gives one sample, and the least time [set_param] lets
    through gives 44. *)
Example time_to_samples_least :
  Envelope64._time_to_samples Binary64.zero = Ok 1%Z
  /\ Envelope64._time_to_samples (Binary64.of_Q 0.001) = Ok 44%Z.
Proof. split; vm_compute; reflexivity. Qed.


Lemma rate_nonneg (x s : Q) :
  0 <= x -> 0 <= x / inject_Z (Envelope._time_to_samples s).
Proof.
  intro H. apply Qle_shift_div_l; [apply time_to_samples_pos | lra].
Qed.

Lemma env_ok_init (a d s r : Q) : 0 <= s <= 1 -> env_ok (Envelope.init a d s r).
Proof. unfold env_ok; simpl; intros; lra. Qed.

Lemma env_ok_note_on e : env_ok e -> env_ok (Envelope.note_on e).
Proof. unfold env_ok; simpl; intros; lra. Qed.

Lemma env_ok_note_off e : env_ok e -> env_ok (Envelope.note_off e).
Proof.
  unfold env_ok, Envelope.note_off.
  destruct (negb _); simpl; intros; lra.
Qed.

Lemma env_ok_tick e :
  env_ok e ->
  env_ok (fst (Envelope._tick e)) /\ unit_interval (snd (Envelope._tick e)).
Proof.
  unfold env_ok, unit_interval, Envelope._tick.
  intros (Hl & Hr & Hs).
  destruct (Envelope._state e).
  - simpl; lra.
  - pose proof (rate_nonneg 1 (Envelope.attack e)) as Hrate.
    destruct (Qle_bool _ _) eqn:E; simpl.
    + lra.
    + apply Qle_bool_false in E. lra.
  - pose proof (rate_nonneg (1 - Envelope.sustain e) (Envelope.decay e)) as Hrate.
    destruct (Qle_bool _ _) eqn:E; simpl.
    + lra.
    + apply Qle_bool_false in E. lra.
  - simpl; lra.
  - pose proof (rate_nonneg (Envelope._release_level e) (Envelope.release e)) as Hrate.
    destruct (Qle_bool _ _) eqn:E; simpl.
    + lra.
    + apply Qle_bool_false in E. lra.
Qed.

Lemma env_ok_render_block n : forall e,
  env_ok e ->
  env_ok (fst (Envelope.render_block e n))
  /\ Forall unit_interval (snd (Envelope.render_block e n)).
Proof.
  induction n as [|n IH]; intros e He; simpl.
  - split; [exact He | constructor].
  - destruct (env_ok_tick e He) as [H1 Hv].
    destruct (Envelope._tick e) as [e1 v]. simpl in H1, Hv.
    destruct (IH e1 H1) as [H2 Hvs].
    destruct (Envelope.render_block e1 n) as [e2 vs]. simpl in *.
    split; [exact H2 | constructor; assumption].
Qed.

Lemma env_ok_apply e o :
  env_ok e -> EnvelopeHistory.in_range o ->
  env_ok (fst (EnvelopeHistory.apply e o))
  /\ Forall unit_interval (snd (EnvelopeHistory.apply e o)).
Proof.
  intros He Ho. destruct o; simpl.
  - split; [apply env_ok_note_on; exact He | constructor].
  - split; [apply env_ok_note_off; exact He | constructor].
  - destruct (env_ok_tick e He) as [H1 Hv].
    destruct (Envelope._tick e) as [e1 v]. simpl in *.
    split; [exact H1 | constructor; [exact Hv | constructor]].
  - apply env_ok_render_block; exact He.
  - split; [exact He | constructor].
  - split; [exact He | constructor].
  - split; [| constructor].
    unfold env_ok in *; simpl in *; lra.
  - split; [exact He | constructor].
Qed.

Lemma env_ok_run os : forall e,
  env_ok e -> Forall EnvelopeHistory.in_range os ->
  env_ok (fst (EnvelopeHistory.run e os))
  /\ Forall unit_interval (snd (EnvelopeHistory.run e os)).
Proof.
  induction os as [|o os IH]; intros e He Hos; simpl.
  - split; [exact He | constructor].
  - inversion Hos as [|? ? Ho Hrest]; subst.
    destruct (env_ok_apply e o He Ho) as [H1 Hv].
    destruct (EnvelopeHistory.apply e o) as [e1 vs]. simpl in H1, Hv.
    destruct (IH e1 H1 Hrest) as [H2 Hws].
    destruct (EnvelopeHistory.run e1 os) as [e2 ws]. simpl in *.
    split; [exact H2 | apply Forall_app; split; assumption].
Qed.

(** C8: with the sustain level in [0,1] (the three times may be anything,
    the conversion to samples never yields less than one sample), the
    level of a freshly constructed envelope is in [0,1], it stays there
    through every sequence of note-ons, note-offs, ticks, block renders
    and in-range parameter assignments, and every value the envelope
    renders along the way is in [0,1]. *)
Theorem C8_envelope_level_in_unit_interval (a d s r : Q)
    (os : list EnvelopeHistory.op) :
  0.001 <= a -> 0.001 <= d -> 0.001 <= r -> 0 <= s <= 1 ->
  Forall EnvelopeHistory.in_range os ->
  unit_interval (Envelope._level (Envelope.init a d s r))
  /\ unit_interval
       (Envelope._level (fst (EnvelopeHistory.run (Envelope.init a d s r) os)))
  /\ Forall unit_interval
       (snd (EnvelopeHistory.run (Envelope.init a d s r) os)).
Proof.
  intros _ _ _ Hs Hos.
  pose proof (env_ok_init a d s r Hs) as H0.
  destruct (env_ok_run os _ H0 Hos) as [(Hl & _) Hv].
  split; [destruct H0 as (H0 & _); exact H0 |].
  split; [exact Hl | exact Hv].
Qed.

Lemma C8_envelope_level_in_unit_interval_witness :
  let os := [EnvelopeHistory.NoteOn; EnvelopeHistory.Render 300;
             EnvelopeHistory.SetSustain 0.25; EnvelopeHistory.Tick;
             EnvelopeHistory.NoteOff; EnvelopeHistory.Render 50;
             EnvelopeHistory.NoteOn; EnvelopeHistory.Tick] in
  unit_interval (Envelope._level (Envelope.init 0.005 0.2 0.5 0.4))
  /\ unit_interval
       (Envelope._level
          (fst (EnvelopeHistory.run (Envelope.init 0.005 0.2 0.5 0.4) os)))
  /\ Forall unit_interval
       (snd (EnvelopeHistory.run (Envelope.init 0.005 0.2 0.5 0.4) os)).
Proof.
  apply (C8_envelope_level_in_unit_interval 0.005 0.2 0.5 0.4).
  - discriminate.
  - discriminate.
  - discriminate.
  - split; discriminate.
  - repeat constructor; discriminate.
Defined.

(** ** Clock *)

Lemma even_step_mod (k : Z) : ((2 * k) mod 2 =? 0)%Z = true.
Proof. apply Z.eqb_eq. Z.div_mod_to_equations. lia. Qed.

Lemma odd_step_mod (k : Z) : ((2 * k + 1) mod 2 =? 0)%Z = false.
Proof. apply Z.eqb_neq. Z.div_mod_to_equations. lia. Qed.

(** C7 (as amended): for a tempo that is not zero, step [2k] lasts
    [base * (1.0 + swing * 0.33)] and step [2k+1] lasts
    [base * (1.0 - swing * 0.33)], every operation rounded to binary64,
    with [base = 60.0 / bpm / 4.0], and both last [base] when the swing is
    zero.  In exact arithmetic the two durations are
    [base * (1 + 0.33 * swing)] and [base * (1 - 0.33 * swing)] and
    together last [2 * base]. *)
Theorem C7_swing_step_duration (c : Clock64.Clock) (k : Z)
    (base : Binary64.float) :
  Clock64.base c = Ok base ->
  let amount := Binary64.mul (Clock64.swing c) (Binary64.of_Q 0.33) in
  let straight := Binary64.eqb (Clock64.swing c) (Binary64.of_Q 0.0) in
  Clock64._step_duration c (2 * k)
  = Ok (if straight then base
        else Binary64.mul base (Binary64.add (Binary64.of_Q 1.0) amount))
  /\ Clock64._step_duration c (2 * k + 1)
     = Ok (if straight then base
           else Binary64.mul base (Binary64.sub (Binary64.of_Q 1.0) amount))
  /\ forall ideal : Clock.Clock,
       ~ Clock.bpm ideal == 0 ->
       let b := 60 / Clock.bpm ideal / 4 in
       exists d_even d_odd : Q,
         Clock._step_duration ideal (2 * k) = Ok d_even
         /\ Clock._step_duration ideal (2 * k + 1) = Ok d_odd
         /\ d_even == b * (1 + 0.33 * Clock.swing ideal)
         /\ d_odd == b * (1 - 0.33 * Clock.swing ideal)
         /\ d_even + d_odd == 2 * b.
Proof.
  intros Hbase amount straight.
  split; [| split].
  - unfold Clock64._step_duration. rewrite Hbase. cbn [py_bind].
    rewrite even_step_mod. fold straight. fold amount.
    destruct straight; reflexivity.
  - unfold Clock64._step_duration. rewrite Hbase. cbn [py_bind].
    rewrite odd_step_mod. fold straight. fold amount.
    destruct straight; reflexivity.
  - intros ideal Hbpm b. unfold Clock._step_duration.
    destruct (Qeq_bool (Clock.bpm ideal) 0) eqn:Eb.
    { apply Qeq_bool_iff in Eb. contradiction. }
    rewrite even_step_mod, odd_step_mod.
    assert (Hb : 60.0 / Clock.bpm ideal / 4.0 == b)
      by (unfold b; field; exact Hbpm).
    destruct (Qeq_bool (Clock.swing ideal) 0.0) eqn:Es.
    + apply Qeq_bool_iff in Es.
      do 2 eexists. split; [reflexivity | split; [reflexivity |]].
      rewrite Hb, Es. repeat split; ring.
    + do 2 eexists. split; [reflexivity | split; [reflexivity |]].
      rewrite Hb. repeat split; ring.
Qed.

(** The worked example of C7, 120 BPM with swing 0.5: the durations are
    the doubles 0.145625 and 0.104375, and their binary64 sum is 0.25. *)
Lemma C7_swing_step_duration_witness :
  let c := Clock64.mkClock (Binary64.of_Q 120) true 0 16 (Binary64.of_Q 0.5) in
  Clock64.base c = Ok (Binary64.of_Q 0.125)
  /\ Clock64._step_duration c (2 * 3) = Ok (Binary64.of_Q 0.145625)
  /\ Clock64._step_duration c (2 * 3 + 1) = Ok (Binary64.of_Q 0.104375)
  /\ Binary64.add (Binary64.of_Q 0.145625) (Binary64.of_Q 0.104375)
     = Binary64.of_Q 0.25.
Proof.
  cbv zeta.
  assert (Hbase : Clock64.base (Clock64.mkClock (Binary64.of_Q 120) true 0 16
                                  (Binary64.of_Q 0.5))
                  = Ok (Binary64.of_Q 0.125)) by (vm_compute; reflexivity).
  destruct (C7_swing_step_duration _ 3 _ Hbase) as (He & Ho & _).
  split; [exact Hbase |].
  split; [rewrite He; vm_compute; reflexivity |].
  split; [rewrite Ho; vm_compute; reflexivity |].
  vm_compute. reflexivity.
Defined.

(** C7 (as stated) fails in the code's arithmetic: at 100 BPM with swing
    0.1 an even and an odd step together last 0.29999999999999993 s, and
    twice the base is 0.3 s. *)
Lemma C7_pair_sum_counterexample :
  let c := Clock64.mkClock (Binary64.of_Q 100) true 0 16 (Binary64.of_Q 0.1) in
  exists base d_even d_odd,
    Clock64.base c = Ok base
    /\ Clock64._step_duration c 0 = Ok d_even
    /\ Clock64._step_duration c 1 = Ok d_odd
    /\ Binary64.add d_even d_odd = Binary64.of_Q 0.29999999999999993
    /\ Binary64.mul (Binary64.of_Q 2) base = Binary64.of_Q 0.3
    /\ Binary64.eqb (Binary64.add d_even d_odd)
                    (Binary64.mul (Binary64.of_Q 2) base) = false.
Proof.
  cbv zeta. do 3 eexists.
  split; [vm_compute; reflexivity |].
  split; [vm_compute; reflexivity |].
  split; [vm_compute; reflexivity |].
  split; [vm_compute; reflexivity |].
  split; vm_compute; reflexivity.
Qed.

(** The worked example of C7 in exact arithmetic: 120 BPM with swing
    0.5. *)
Example swing_120_half :
  let c := Clock.mkClock 120 true 0 16 0.5 in
  (exists d, Clock._step_duration c 0 = Ok d /\ d == 0.145625)
  /\ (exists d, Clock._step_duration c 1 = Ok d /\ d == 0.104375)
  /\ 0.145625 + 0.104375 == 0.25.
Proof.
  cbv zeta. split; [| split].
  - eexists; split; [vm_compute; reflexivity | reflexivity].
  - eexists; split; [vm_compute; reflexivity | reflexivity].
  - reflexivity.
Qed.

(** ** Filter *)

Lemma render_block_frame sin pi flt signal :
  let flt' := fst (Filter.render_block sin pi flt signal) in
  Filter.cutoff flt' = Filter.cutoff flt
  /\ Filter.resonance flt' = Filter.resonance flt
  /\ Filter.mode flt' = Filter.mode flt.
Proof.
  unfold Filter.render_block.
  destruct (Filter.run _ _ _ _ _ _) as [[low band] out]. simpl. auto.
Qed.

Lemma filter_renders_frame sin pi blocks : forall flt,
  let flt' := filter_renders sin pi flt blocks in
  Filter.cutoff flt' = Filter.cutoff flt
  /\ Filter.resonance flt' = Filter.resonance flt
  /\ Filter.mode flt' = Filter.mode flt.
Proof.
  induction blocks as [|b rest IH]; intro flt; simpl.
  - auto.
  - destruct (IH (fst (Filter.render_block sin pi flt b))) as (Hc & Hr & Hm).
    destruct (render_block_frame sin pi flt b) as (Hc' & Hr' & Hm').
    simpl in *. repeat split; congruence.
Qed.

Lemma effective_cutoff_idempotent (c : Q) :
  Filter.effective_cutoff (Filter.effective_cutoff c) = Filter.effective_cutoff c.
Proof.
  unfold Filter.effective_cutoff, py_min, py_max, Qlt_bool.
  destruct (Qle_bool 20.0 c) eqn:E1; simpl.
  - destruct (Qle_bool c (inject_Z Filter.SAMPLE_RATE * 0.49)) eqn:E2; simpl.
    + rewrite E1. simpl. rewrite E2. reflexivity.
    + reflexivity.
  - reflexivity.
Qed.

Lemma effective_cutoff_bounds (c : Q) :
  20 <= Filter.effective_cutoff c <= 0.49 * 44100.
Proof.
  unfold Filter.effective_cutoff, py_min, py_max, Qlt_bool, Filter.SAMPLE_RATE.
  destruct (Qle_bool 20.0 c) eqn:E1; simpl.
  - destruct (Qle_bool c (inject_Z 44100 * 0.49)) eqn:E2; simpl.
    + apply Qle_bool_iff in E1, E2. split.
      * apply Qle_trans with (2 := E1). discriminate.
      * apply Qle_trans with (1 := E2). discriminate.
    + split; discriminate.
  - split; discriminate.
Qed.

Lemma effective_cutoff_formula (c : Q) :
  Filter.effective_cutoff c == py_min (py_max c 20) (0.49 * 44100).
Proof.
  unfold Filter.effective_cutoff, Filter.SAMPLE_RATE.
  change (inject_Z 44100 * 0.49) with (0.49 * 44100).
  assert (H : py_max c 20.0 == py_max c 20).
  { unfold py_max, Qlt_bool.
    rewrite (Qleb_comp 20.0 20 (eq_refl : 20.0 == 20) c c (Qeq_refl c)).
    destruct (Qle_bool 20 c); reflexivity. }
  unfold py_min, Qlt_bool.
  rewrite (Qleb_comp _ _ H _ _ (Qeq_refl (0.49 * 44100))).
  destruct (Qle_bool _ _); [exact H | reflexivity].
Qed.

(** C9: [render_block] leaves the stored cutoff (and resonance and mode)
    as they were, over any number of successive calls; the clamped cutoff
    [min(max(cutoff, 20), 0.49 * 44100)] and the coefficient [f] computed
    from it are therefore the same on every call; clamping is idempotent
    and lands in [20, 0.49 * 44100]. *)
Theorem C9_render_block_preserves_cutoff (sin : Q -> Q) (pi : Q)
    (flt : Filter.SVFilter) (blocks : list (list Q)) :
  let flt' := filter_renders sin pi flt blocks in
  Filter.cutoff flt' = Filter.cutoff flt
  /\ Filter.resonance flt' = Filter.resonance flt
  /\ Filter.mode flt' = Filter.mode flt
  /\ Filter.effective_cutoff (Filter.cutoff flt')
     = Filter.effective_cutoff (Filter.cutoff flt)
  /\ Filter.effective_cutoff (Filter.cutoff flt')
     == py_min (py_max (Filter.cutoff flt) 20) (0.49 * 44100)
  /\ Filter.coeff_f sin pi flt' = Filter.coeff_f sin pi flt
  /\ Filter.effective_cutoff (Filter.effective_cutoff (Filter.cutoff flt))
     = Filter.effective_cutoff (Filter.cutoff flt)
  /\ 20 <= Filter.effective_cutoff (Filter.cutoff flt) <= 0.49 * 44100.
Proof.
  destruct (filter_renders_frame sin pi blocks flt) as (Hc & Hr & Hm).
  cbv zeta. unfold Filter.coeff_f. rewrite Hc.
  repeat split; auto using effective_cutoff_idempotent, effective_cutoff_formula;
    apply effective_cutoff_bounds.
Qed.

(** ** Lists indexed the Python way *)

Lemma norm_index_in_range (len : nat) (i : Z) :
  (0 <= i < Z.of_nat len)%Z -> norm_index len i = Ok (Z.to_nat i).
Proof.
  intro H. unfold norm_index.
  destruct (i <? 0)%Z eqn:E; [apply Z.ltb_lt in E; lia |].
  replace ((0 <=? i)%Z && (i <? Z.of_nat len)%Z) with true; [reflexivity |].
  symmetry. apply andb_true_iff. split; [apply Z.leb_le | apply Z.ltb_lt]; lia.
Qed.

Lemma nth_error_set_nth_same {A} (l : list A) : forall j a,
  (j < List.length l)%nat -> nth_error (set_nth l j a) j = Some a.
Proof.
  induction l as [|h t IH]; intros [|j] a H; simpl in *; try lia.
  - reflexivity.
  - apply IH. lia.
Qed.

Lemma nth_error_set_nth_other {A} (l : list A) : forall j k a,
  j <> k -> nth_error (set_nth l j a) k = nth_error l k.
Proof.
  induction l as [|h t IH]; intros [|j] [|k] a H; simpl; try reflexivity.
  - congruence.
  - apply IH. congruence.
Qed.

Lemma set_nth_length {A} (l : list A) : forall j a,
  List.length (set_nth l j a) = List.length l.
Proof.
  induction l as [|h t IH]; intros [|j] a; simpl; try reflexivity.
  now rewrite IH.
Qed.

Lemma set_nth_same {A} (l : list A) : forall j a,
  nth_error l j = Some a -> set_nth l j a = l.
Proof.
  induction l as [|h t IH]; intros [|j] a H; simpl in *; try congruence.
  now rewrite (IH j a H).
Qed.

Lemma voice_index_in_range (i : Z) :
  (0 <= i mod VoicePool.N_VOICES < 4)%Z.
Proof. unfold VoicePool.N_VOICES. apply Z.mod_pos_bound. lia. Qed.

(** ** Voice pool: note-off *)

Lemma holds_iff (v : Voice.Voice) (note : Z) :
  VoicePool.holds v note = true <-> Voice.current_note v = Some note.
Proof.
  unfold VoicePool.holds. destruct (Voice.current_note v) as [n|].
  - rewrite Z.eqb_eq. split; congruence.
  - split; congruence.
Qed.

Lemma release_if_holds_yes (v : Voice.Voice) (note : Z) :
  Voice.current_note v = Some note ->
  VoicePool.release_if_holds note v = Voice.note_off v.
Proof.
  intro H. unfold VoicePool.release_if_holds.
  apply holds_iff in H. now rewrite H.
Qed.

Lemma release_if_holds_no (v : Voice.Voice) (note : Z) :
  Voice.current_note v <> Some note ->
  VoicePool.release_if_holds note v = v.
Proof.
  intro H. unfold VoicePool.release_if_holds.
  destruct (VoicePool.holds v note) eqn:E; [| reflexivity].
  apply holds_iff in E. contradiction.
Qed.

Lemma envelope_note_off_released (e : Envelope.ADSREnvelope) :
  env_released e (Envelope.note_off e).
Proof.
  unfold env_released, same_params, Envelope.note_off.
  destruct e as [a d s r st l rl]. cbn [Envelope._state].
  destruct st; cbn; repeat split; auto; try congruence;
    intro H; try discriminate H; try (exfalso; apply H; reflexivity).
Qed.

Lemma engine_note_off_released (g : Engines.SynthEngine) :
  Forall2 env_released (engine_envelopes g)
                       (engine_envelopes (Engines.note_off g)).
Proof.
  destruct g as [e | e | e]; cbn [Engines.note_off engine_envelopes].
  - unfold FM.note_off, FM.set_ops. cbn [FM.ops].
    induction (FM.ops e) as [|op rest IH]; cbn [map].
    + constructor.
    + constructor; [apply envelope_note_off_released | exact IH].
  - constructor; [apply envelope_note_off_released | constructor].
  - constructor; [apply envelope_note_off_released |].
    constructor; [apply envelope_note_off_released | constructor].
Qed.

Lemma voice_note_off_released (v : Voice.Voice) :
  voice_released v (Voice.note_off v).
Proof.
  unfold voice_released, Voice.note_off.
  cbn [Voice.current_note Voice.active Voice.velocity Voice._engine_name
       Voice.engine].
  repeat split. apply engine_note_off_released.
Qed.

(** C5: on a pool of four voices, a note-off addressed to voice [i]
    (taken modulo 4) releases that voice exactly when its current note is
    the given note and leaves every other voice, and the cursor, as they
    were; a note-off without a target releases exactly the voices whose
    current note is the given note.  To release a voice is to put every
    sounding envelope of its engine in RELEASE, falling from the level it
    has; the note on record and the active flag stay. *)
Theorem C5_note_off_precision (p : VoicePool.VoicePool) (i note : Z) :
  List.length (VoicePool.voices p) = 4%nat ->
  let k := Z.to_nat (i mod 4) in
  (exists p' v,
      VoicePool.note_off p (Some i) note = Ok p'
      /\ nth_error (VoicePool.voices p) k = Some v
      /\ (Voice.current_note v = Some note ->
          exists v', nth_error (VoicePool.voices p') k = Some v'
                     /\ v' = Voice.note_off v
                     /\ voice_released v v')
      /\ (Voice.current_note v <> Some note ->
          nth_error (VoicePool.voices p') k = Some v)
      /\ (forall j, j <> k ->
          nth_error (VoicePool.voices p') j = nth_error (VoicePool.voices p) j)
      /\ VoicePool._next_voice p' = VoicePool._next_voice p)
  /\ (exists p',
      VoicePool.note_off p None note = Ok p'
      /\ List.length (VoicePool.voices p') = 4%nat
      /\ VoicePool._next_voice p' = VoicePool._next_voice p
      /\ forall j v, nth_error (VoicePool.voices p) j = Some v ->
           (Voice.current_note v = Some note ->
            exists v', nth_error (VoicePool.voices p') j = Some v'
                       /\ v' = Voice.note_off v
                       /\ voice_released v v')
           /\ (Voice.current_note v <> Some note ->
               nth_error (VoicePool.voices p') j = Some v)).
Proof.
  intros Hlen k. split.
  - pose proof (voice_index_in_range i) as Hi.
    assert (Hk : (k < List.length (VoicePool.voices p))%nat)
      by (unfold k, VoicePool.N_VOICES in *; lia).
    unfold VoicePool.note_off, VoicePool.on_voice.
    rewrite norm_index_in_range by (rewrite Hlen; exact Hi).
    change (Z.to_nat (i mod VoicePool.N_VOICES)) with k. cbn [py_bind].
    destruct (nth_error (VoicePool.voices p) k) as [v|] eqn:Ev;
      [| apply nth_error_None in Ev; lia].
    eexists. exists v. split; [reflexivity |]. cbn [VoicePool.voices VoicePool._next_voice].
    repeat split.
    + intro H. rewrite release_if_holds_yes by exact H.
      exists (Voice.note_off v).
      split; [apply nth_error_set_nth_same; exact Hk |].
      split; [reflexivity | apply voice_note_off_released].
    + intro H. rewrite release_if_holds_no by exact H.
      apply nth_error_set_nth_same. exact Hk.
    + intros j Hj. apply nth_error_set_nth_other. congruence.
  - simpl. eexists. split; [reflexivity |]. simpl.
    rewrite length_map. split; [exact Hlen | split; [reflexivity |]].
    intros j v Hv. rewrite nth_error_map, Hv. simpl. split; intro Hn.
    + rewrite release_if_holds_yes by exact Hn.
      exists (Voice.note_off v).
      split; [reflexivity | split; [reflexivity | apply voice_note_off_released]].
    + now rewrite release_if_holds_no.
Qed.

(** On the pool where voices 0 and 2 both sound note 60, a note-off for
    note 60 addressed to voice 2 puts the two envelopes of voice 2 in
    RELEASE and leaves the four envelopes of voice 0 in ATTACK. *)
Lemma C5_note_off_precision_witness :
  List.length (VoicePool.voices sounding_pool) = 4%nat
  /\ exists p' v0,
      VoicePool.note_off sounding_pool (Some 2%Z) 60 = Ok p'
      /\ nth_error (VoicePool.voices sounding_pool) 0 = Some v0
      /\ Voice.current_note v0 = Some 60%Z
      /\ nth_error (VoicePool.voices p') 0 = Some v0
      /\ envelope_states sounding_pool 0
         = [Envelope.ATTACK; Envelope.ATTACK; Envelope.ATTACK; Envelope.ATTACK]
      /\ envelope_states sounding_pool 2 = [Envelope.ATTACK; Envelope.ATTACK]
      /\ envelope_states p' 2 = [Envelope.RELEASE; Envelope.RELEASE].
Proof.
  split; [reflexivity |].
  destruct (C5_note_off_precision sounding_pool 2 60 eq_refl)
    as [(p' & v & Hoff & Hv & Hyes & _ & Hother & _) _].
  exists p'. eexists.
  split; [exact Hoff |].
  split; [vm_compute; reflexivity |].
  split; [reflexivity |].
  split; [rewrite (Hother 0%nat); [vm_compute; reflexivity | discriminate] |].
  split; [vm_compute; reflexivity |].
  split; [vm_compute; reflexivity |].
  change (Z.to_nat (2 mod 4)) with 2%nat in Hv, Hyes.
  vm_compute in Hv. injection Hv as <-.
  destruct (Hyes eq_refl) as (v' & Hv' & -> & _).
  unfold envelope_states. rewrite Hv'. vm_compute. reflexivity.
Defined.

(** ** Voice pool: allocation *)

Lemma first_free_none_all_busy (vs : list Voice.Voice) : forall k,
  VoicePool.first_free vs k = None <-> forallb (fun v => negb (Voice.is_free v)) vs = true.
Proof.
  induction vs as [|v rest IH]; intro k; simpl.
  - tauto.
  - destruct (Voice.is_free v); simpl.
    + split; discriminate.
    + apply IH.
Qed.

Lemma first_free_first (vs : list Voice.Voice) : forall (k0 k : nat) (v : Voice.Voice),
  nth_error vs k = Some v ->
  Voice.is_free v = true ->
  (forall j u, (j < k)%nat -> nth_error vs j = Some u -> Voice.is_free u = false) ->
  VoicePool.first_free vs k0 = Some (k0 + k)%nat.
Proof.
  induction vs as [|w rest IH]; intros k0 k v Hk Hfree Hbusy.
  - destruct k; discriminate Hk.
  - destruct k as [|k]; cbn [VoicePool.first_free].
    + injection Hk as ->. rewrite Hfree. f_equal. lia.
    + rewrite (Hbusy 0%nat w) by (try lia; reflexivity).
      rewrite (IH (S k0) k v Hk Hfree).
      * f_equal. lia.
      * intros j u Hj Hu. apply (Hbusy (S j) u); [lia | exact Hu].
Qed.

(** C4: five auto-allocated note-ons with MIDI notes and velocities on a
    fresh pool go to voices 0, 1, 2, 3 and then 0 again.  The first ones
    take free voices and leave the cursor at 0; the fifth finds no free
    voice, steals voice 0 and leaves the cursor at 1.  In general the
    allocator hands out the first free voice in index order without
    touching the cursor, and when no voice of a four-voice pool is free it
    hands out the voice under the cursor and moves the cursor on by one,
    modulo 4. *)
Theorem C4_voice_stealing_order (exp2 : Q -> Q) (shuffle : list Z -> list Z)
    (n1 v1 n2 v2 n3 v3 n4 v4 n5 v5 : Z) :
  Forall midi_data [n1; v1; n2; v2; n3; v3; n4; v4; n5; v5] ->
  (exists p3 p4 p5,
     auto_note_ons exp2 shuffle VoicePool.init [(n1, v1); (n2, v2); (n3, v3)]
     = Ok ([0; 1; 2]%nat, p3)
     /\ VoicePool._next_voice p3 = 0%Z
     /\ VoicePool._allocate p3 = Ok (3%nat, p3)
     /\ auto_note_ons exp2 shuffle VoicePool.init
          [(n1, v1); (n2, v2); (n3, v3); (n4, v4)]
        = Ok ([0; 1; 2; 3]%nat, p4)
     /\ VoicePool._next_voice p4 = 0%Z
     /\ forallb (fun v => negb (Voice.is_free v)) (VoicePool.voices p4) = true
     /\ auto_note_ons exp2 shuffle VoicePool.init
          [(n1, v1); (n2, v2); (n3, v3); (n4, v4); (n5, v5)]
        = Ok ([0; 1; 2; 3; 0]%nat, p5)
     /\ VoicePool._next_voice p5 = 1%Z)
  /\ (forall (p : VoicePool.VoicePool) (k : nat) (v : Voice.Voice),
        nth_error (VoicePool.voices p) k = Some v ->
        Voice.is_free v = true ->
        (forall j u, (j < k)%nat -> nth_error (VoicePool.voices p) j = Some u ->
                     Voice.is_free u = false) ->
        VoicePool._allocate p = Ok (k, p))
  /\ (forall p : VoicePool.VoicePool,
        List.length (VoicePool.voices p) = 4%nat ->
        forallb (fun v => negb (Voice.is_free v)) (VoicePool.voices p) = true ->
        VoicePool._allocate p
        = Ok (Z.to_nat (VoicePool._next_voice p mod 4),
              VoicePool.mkPool (VoicePool.voices p)
                               ((VoicePool._next_voice p + 1) mod 4))).
Proof.
  intros _. split; [| split].
  - do 3 eexists.
    split; [vm_compute; reflexivity |].
    split; [reflexivity |].
    split; [vm_compute; reflexivity |].
    split; [vm_compute; reflexivity |].
    split; [reflexivity |].
    split; [vm_compute; reflexivity |].
    split; [vm_compute; reflexivity | reflexivity].
  - intros p k v Hk Hfree Hbusy. unfold VoicePool._allocate.
    rewrite (first_free_first _ 0 k v Hk Hfree Hbusy). reflexivity.
  - intros p Hlen Hbusy. unfold VoicePool._allocate.
    apply (first_free_none_all_busy _ 0%nat) in Hbusy. rewrite Hbusy.
    rewrite norm_index_in_range
      by (rewrite Hlen; apply voice_index_in_range).
    reflexivity.
Qed.

(** On the pool where every voice sounds and the cursor is at 2, the
    allocator steals voice 2 and moves the cursor to 3; on the pool where
    only voice 0 sounds, it hands out voice 1 and leaves the cursor. *)
Lemma C4_voice_stealing_order_witness :
  Forall midi_data [60; 100; 62; 100; 64; 100; 65; 100; 67; 100]%Z
  /\ forallb (fun v => negb (Voice.is_free v)) (VoicePool.voices chord_pool) = true
  /\ VoicePool._allocate chord_pool
     = Ok (2%nat, VoicePool.mkPool (VoicePool.voices chord_pool) 3)
  /\ VoicePool._allocate one_note_pool = Ok (1%nat, one_note_pool).
Proof.
  assert (Hm : Forall midi_data [60; 100; 62; 100; 64; 100; 65; 100; 67; 100]%Z)
    by (repeat constructor; unfold midi_data; lia).
  destruct (C4_voice_stealing_order (fun x => x) (fun l => l)
              60 100 62 100 64 100 65 100 67 100 Hm) as (_ & Hfree & Hsteal).
  split; [exact Hm |].
  split; [reflexivity |].
  split; [apply (Hsteal chord_pool); reflexivity |].
  apply (Hfree one_note_pool 1%nat (Voice.init "vector")).
  - reflexivity.
  - reflexivity.
  - intros j u Hj Hu. destruct j as [|j]; [| lia].
    vm_compute in Hu. injection Hu as <-. reflexivity.
Defined.

(** ** Engine construction and switching *)

Lemma make_engine_unknown (name : string) :
  ~ In name Engines.ENGINE_NAMES ->
  Engines.make_engine name = Engines.FMEngine FM.init.
Proof.
  intro H. unfold Engines.make_engine.
  destruct (String.eqb_spec name "fm"); [reflexivity |].
  destruct (String.eqb_spec name "vector"); [subst; exfalso; apply H; simpl; auto |].
  destruct (String.eqb_spec name "subtractive");
    [subst; exfalso; apply H; simpl; auto | reflexivity].
Qed.

(** C10 (as amended): a name outside fm, vector, subtractive makes
    [make_engine] build a fresh FM engine, and [change_engine] with such a
    name, when it differs from the name the voice has on record, installs
    that fresh FM engine, clears the note and the active flag and records
    the name. *)
Theorem C10_unknown_engine_falls_back_to_fm (v : Voice.Voice) (name : string) :
  ~ In name Engines.ENGINE_NAMES ->
  name <> Voice._engine_name v ->
  Engines.make_engine name = Engines.FMEngine FM.init
  /\ Voice.change_engine v name
     = Voice.mkVoice (Engines.FMEngine FM.init) None false (Voice.velocity v) name.
Proof.
  intros Hunknown Hdiff.
  pose proof (make_engine_unknown name Hunknown) as Hmk.
  split; [exact Hmk |].
  unfold Voice.change_engine.
  destruct (String.eqb_spec name (Voice._engine_name v)); [contradiction |].
  simpl. now rewrite Hmk.
Qed.

Lemma C10_unknown_engine_falls_back_to_fm_witness :
  let v := holding 60 (Voice.init "vector") in
  Engines.make_engine "organ" = Engines.FMEngine FM.init
  /\ Voice.change_engine v "organ"
     = Voice.mkVoice (Engines.FMEngine FM.init) None false 100 "organ".
Proof.
  apply (C10_unknown_engine_falls_back_to_fm
           (holding 60 (Voice.init "vector")) "organ").
  - simpl. intros [H | [H | [H | []]]]; discriminate H.
  - discriminate.
Defined.

(** C10 (as stated) fails when the unknown name is the one the voice
    already has on record: the call is skipped, the engine in place (here
    with algorithm 5) stays and is not a fresh FM engine. *)
Lemma C10_same_unknown_name_counterexample :
  ~ In "organ"%string Engines.ENGINE_NAMES
  /\ Voice.change_engine organ_voice "organ" = organ_voice
  /\ Voice.engine (Voice.change_engine organ_voice "organ")
     = Engines.FMEngine (FM.set_algorithm FM.init 5)
  /\ Voice.engine (Voice.change_engine organ_voice "organ")
     <> Engines.make_engine "organ".
Proof.
  split; [simpl; intros [H | [H | [H | []]]]; discriminate H |].
  split; [reflexivity |].
  split; [reflexivity |].
  discriminate.
Qed.

(** ** Voice indices *)

(** C2 (code violates the claim): [set_track_engine] and [set_track_param]
    index the voice list with the index as given; index 4 on the four-voice
    pool raises IndexError, where [note_off] with the same index wraps to
    voice 0. *)
Theorem C2_set_track_index_not_wrapped :
  VoicePool.set_track_engine VoicePool.init 4 "vector" = Raise IndexError
  /\ VoicePool.set_track_param VoicePool.init 4 "algorithm" (NInt 1)
     = Raise IndexError
  /\ VoicePool.set_track_engine VoicePool.init (-5) "vector" = Raise IndexError
  /\ AudioEngine._handle_event (fun x => x) (fun l => l) VoicePool.init
       (AudioEngine.SetEngine 4 "vector") = Raise IndexError
  /\ VoicePool.note_off VoicePool.init (Some 4%Z) 60 = Ok VoicePool.init.
Proof. repeat split; reflexivity. Qed.

Lemma note_on_wraps_index (exp2 : Q -> Q) (shuffle : list Z -> list Z)
    (p : VoicePool.VoicePool) (i note velocity : Z) :
  List.length (VoicePool.voices p) = 4%nat ->
  exists p', VoicePool.note_on_at exp2 shuffle p (Some i) note velocity
             = Ok (Z.to_nat (i mod 4), p').
Proof.
  intro Hlen. unfold VoicePool.note_on_at, VoicePool.target.
  pose proof (voice_index_in_range i) as Hi.
  rewrite norm_index_in_range by (rewrite Hlen; exact Hi).
  cbn [py_bind].
  destruct (nth_error (VoicePool.voices p) (Z.to_nat (i mod VoicePool.N_VOICES)))
    as [v|] eqn:Ev.
  - eexists. reflexivity.
  - apply nth_error_None in Ev. unfold VoicePool.N_VOICES in *. lia.
Qed.

Lemma fm_algorithm_wrapped (e : FM.FMEngine) (value : number) :
  exists a, FM.set_param e "algorithm" value = Ok (FM.set_algorithm e a)
            /\ a = (py_int value mod 6)%Z /\ (0 <= a < 6)%Z.
Proof.
  eexists. split; [reflexivity |]. split; [reflexivity |].
  apply Z.mod_pos_bound. reflexivity.
Qed.

(** ** Unknown parameter names *)

Ltac in_list := simpl; repeat (first [left; reflexivity | right]).

Ltac skip_key H name :=
  repeat match goal with
  | |- context [String.eqb name ?k] =>
      destruct (String.eqb_spec name k);
      [subst; exfalso; apply H; in_list |]
  end.

Lemma vector_unknown_name_noop (e : Vector.VectorEngine) (name : string)
    (value : number) :
  ~ In name vector_keys -> Vector.set_param e name value = Ok e.
Proof.
  intro H. unfold Vector.set_param, Vector.osc_slot.
  skip_key H name.
  destruct (prefix "osc_" name); reflexivity.
Qed.

Lemma subtractive_unknown_name_noop (e : Subtractive.SubtractiveEngine)
    (name : string) (value : number) :
  ~ In name subtractive_keys -> Subtractive.set_param e name value = Ok e.
Proof.
  intro H. unfold Subtractive.set_param.
  skip_key H name. reflexivity.
Qed.

Lemma fm_unknown_attr_noop (op : FM.FMOperator) (attr : string) (value : number) :
  ~ In attr fm_attrs -> FM.assign_attr op attr value = op.
Proof.
  intro H. unfold FM.assign_attr.
  skip_key H attr. reflexivity.
Qed.

(** C1 (code violates the claim): on the FM engine an operator index
    outside 0..3 is not ignored.  "op4_ratio" and "op9_bogus" raise
    IndexError, and "op-1_level" assigns the level of operator 3; the
    in-range name "op2_bogus" and the name "volume" are the no-ops the
    claim describes. *)
Theorem C1_fm_operator_index_not_checked :
  FM.set_param FM.init "op4_ratio" (NFloat 2.0) = Raise IndexError
  /\ FM.set_param FM.init "op9_bogus" (NInt 0) = Raise IndexError
  /\ (exists e', FM.set_param FM.init "op-1_level" (NFloat 0.25) = Ok e'
                 /\ option_map FM.level (nth_error (FM.ops e') 3) = Some 0.25
                 /\ e' <> FM.init)
  /\ FM.set_param FM.init "op2_bogus" (NInt 0) = Ok FM.init
  /\ FM.set_param FM.init "volume" (NInt 0) = Ok FM.init.
Proof.
  split; [reflexivity |].
  split; [reflexivity |].
  split; [| split; reflexivity].
  eexists. split; [reflexivity |].
  split; [reflexivity | discriminate].
Qed.

(** ** FM algorithm 5 as an additive voice *)

Section AdditiveFM.

Variable sin : Q -> Q.
Variable pi : Q.
Hypothesis sin_ext : forall x y : Q, x == y -> sin x == sin y.

Lemma render_block_length n : forall e,
  List.length (snd (Envelope.render_block e n)) = n.
Proof.
  induction n as [|n IH]; intro e; simpl; [reflexivity |].
  destruct (Envelope._tick e) as [e1 v]. specialize (IH e1).
  destruct (Envelope.render_block e1 n) as [e2 vs]. simpl in *. now rewrite IH.
Qed.

(** What [render_sample] leaves unchanged. *)
Lemma render_sample_frame op f m ev :
  let op' := fst (FM.render_sample sin pi op f m ev) in
  FM.ratio op' = FM.ratio op /\ FM.level op' = FM.level op
  /\ FM.feedback op' = FM.feedback op.
Proof. simpl. auto. Qed.

(** One sample of an unmodulated operator without feedback against one
    step of a sine generator whose frequency and phase agree with it. *)
Lemma render_sample_sine op f ev F phi :
  FM.feedback op == 0 ->
  F == FM.ratio op * f ->
  phi == FM._phase op ->
  let ph := phi + F / 44100 in
  let ph := ph - inject_Z (Qfloor ph) in
  FM._phase (fst (FM.render_sample sin pi op f 0 ev)) == ph
  /\ snd (FM.render_sample sin pi op f 0 ev) == sin (2 * pi * ph) * ev * FM.level op.
Proof.
  intros Hfb HF Hphi. cbv zeta. unfold FM.render_sample, FM.SAMPLE_RATE.
  cbn [fst snd FM._phase].
  assert (Hx : FM._phase op + f * FM.ratio op / inject_Z 44100
               == phi + F / 44100).
  { rewrite HF, Hphi. change (inject_Z 44100) with 44100. field. }
  rewrite (Qfloor_comp _ _ Hx).
  split.
  - rewrite Hx. reflexivity.
  - rewrite (sin_ext
               (2.0 * pi * (FM._phase op + f * FM.ratio op / inject_Z 44100
                            - inject_Z (Qfloor (phi + F / 44100)))
                + 2.0 * pi * (0 + FM.feedback op * FM._last_out op))
               (2 * pi * (phi + F / 44100 - inject_Z (Qfloor (phi + F / 44100))))).
    + ring.
    + rewrite Hx, Hfb. ring.
Qed.

Lemma tracks_step f F phi p ev :
  tracks f F phi p ->
  let ph := phi + F / 44100 in
  let ph := ph - inject_Z (Qfloor ph) in
  let r := FM.render_sample sin pi p f 0 ev in
  tracks f F ph (fst r)
  /\ FM.level (fst r) = FM.level p
  /\ snd r == sin (2 * pi * ph) * ev * FM.level p.
Proof.
  intros (Hfb & HF & Hphi). cbv zeta.
  destruct (render_sample_sine p f ev F phi Hfb HF Hphi) as [Hph Hs].
  split; [| split; [reflexivity | exact Hs]].
  split; [exact Hfb | split; [exact HF |]].
  symmetry. exact Hph.
Qed.

Lemma skipn_nth_error {A} (l : list A) : forall i a,
  nth_error l i = Some a -> skipn i l = a :: skipn (S i) l.
Proof.
  induction l as [|h t IH]; intros [|i] a H; simpl in *; try discriminate.
  - now injection H as ->.
  - apply IH. exact H.
Qed.

Lemma nth_error_in_block {A} (l : list A) (i k : nat) :
  List.length l = (i + S k)%nat -> exists a, nth_error l i = Some a.
Proof.
  intro H. destruct (nth_error l i) as [a|] eqn:E; [now exists a |].
  apply nth_error_None in E. lia.
Qed.

(** Sample [i] of the inner loop under algorithm 5. *)
Lemma for_ops_alg5 f b0 b1 b2 b3 i p0 p1 p2 p3 ev0 ev1 ev2 ev3 :
  nth_error b0 i = Some ev0 -> nth_error b1 i = Some ev1 ->
  nth_error b2 i = Some ev2 -> nth_error b3 i = Some ev3 ->
  let r0 := FM.render_sample sin pi p0 f 0 ev0 in
  let r1 := FM.render_sample sin pi p1 f 0 ev1 in
  let r2 := FM.render_sample sin pi p2 f 0 ev2 in
  let r3 := FM.render_sample sin pi p3 f 0 ev3 in
  FM.for_ops sin pi alg5 f [b0; b1; b2; b3] i
    ([p0; p1; p2; p3], repeat 0.0 FM.N_OPS, 0.0) (seq 0 FM.N_OPS)
  = Ok ([fst r0; fst r1; fst r2; fst r3],
        [snd r0; snd r1; snd r2; snd r3],
        0.0 + snd r0 + snd r1 + snd r2 + snd r3).
Proof.
  intros H0 H1 H2 H3. cbv zeta.
  unfold FM.N_OPS, alg5. cbn [seq repeat FM.for_ops].
  unfold FM.render_op at 1.
  cbn [nth_error FM.sum_sources py_bind]. rewrite H0.
  cbn [FM.render_sample py_bind set_nth].
  unfold FM.render_op at 1.
  cbn [nth_error FM.sum_sources py_bind]. rewrite H1.
  cbn [FM.render_sample py_bind set_nth].
  unfold FM.render_op at 1.
  cbn [nth_error FM.sum_sources py_bind]. rewrite H2.
  cbn [FM.render_sample py_bind set_nth].
  unfold FM.render_op at 1.
  cbn [nth_error FM.sum_sources py_bind]. rewrite H3.
  cbn [FM.render_sample py_bind set_nth].
  reflexivity.
Qed.

(** Samples [i .. i+k-1] of the outer loop under algorithm 5: the raw
    carrier sums are the pointwise sums of the four scaled generators. *)
Lemma for_frames_alg5 f k : forall i b0 b1 b2 b3 p0 p1 p2 p3 F0 F1 F2 F3 h0 h1 h2 h3,
  List.length b0 = (i + k)%nat -> List.length b1 = (i + k)%nat ->
  List.length b2 = (i + k)%nat -> List.length b3 = (i + k)%nat ->
  tracks f F0 h0 p0 -> tracks f F1 h1 p1 ->
  tracks f F2 h2 p2 -> tracks f F3 h3 p3 ->
  exists ps out,
    FM.for_frames sin pi alg5 f [b0; b1; b2; b3] [p0; p1; p2; p3] i k = Ok (ps, out)
    /\ Forall2 Qeq out
         (Reference.zip_with Qplus
            (Reference.zip_with Qplus
               (Reference.zip_with Qplus
                  (Reference.scaled (FM.level p0) (skipn i b0)
                     (Reference.sine_generator sin pi F0 h0 k))
                  (Reference.scaled (FM.level p1) (skipn i b1)
                     (Reference.sine_generator sin pi F1 h1 k)))
               (Reference.scaled (FM.level p2) (skipn i b2)
                  (Reference.sine_generator sin pi F2 h2 k)))
            (Reference.scaled (FM.level p3) (skipn i b3)
               (Reference.sine_generator sin pi F3 h3 k))).
Proof.
  induction k as [|k IH];
    intros i b0 b1 b2 b3 p0 p1 p2 p3 F0 F1 F2 F3 h0 h1 h2 h3
           L0 L1 L2 L3 T0 T1 T2 T3.
  - do 2 eexists. split; [reflexivity |].
    unfold Reference.scaled. simpl.
    destruct (skipn i b0); constructor.
  - destruct (nth_error_in_block b0 i k L0) as [ev0 E0].
    destruct (nth_error_in_block b1 i k L1) as [ev1 E1].
    destruct (nth_error_in_block b2 i k L2) as [ev2 E2].
    destruct (nth_error_in_block b3 i k L3) as [ev3 E3].
    cbn [FM.for_frames].
    rewrite (for_ops_alg5 f b0 b1 b2 b3 i p0 p1 p2 p3 ev0 ev1 ev2 ev3 E0 E1 E2 E3).
    cbn [py_bind].
    destruct (tracks_step f F0 h0 p0 ev0 T0) as (T0' & V0 & S0).
    destruct (tracks_step f F1 h1 p1 ev1 T1) as (T1' & V1 & S1).
    destruct (tracks_step f F2 h2 p2 ev2 T2) as (T2' & V2 & S2).
    destruct (tracks_step f F3 h3 p3 ev3 T3) as (T3' & V3 & S3).
    cbv zeta in *.
    destruct (IH (S i) b0 b1 b2 b3 _ _ _ _ _ _ _ _ _ _ _ _
                 ltac:(lia) ltac:(lia) ltac:(lia) ltac:(lia) T0' T1' T2' T3')
      as (ps & out & Hrun & Hout).
    rewrite Hrun. cbn [py_bind].
    do 2 eexists. split; [reflexivity |].
    rewrite (skipn_nth_error b0 i ev0 E0), (skipn_nth_error b1 i ev1 E1),
            (skipn_nth_error b2 i ev2 E2), (skipn_nth_error b3 i ev3 E3).
    rewrite V0, V1, V2, V3 in Hout.
    unfold Reference.scaled in *. cbn [Reference.sine_generator Reference.zip_with].
    constructor; [| exact Hout].
    rewrite S0, S1, S2, S3. ring.
Qed.

Lemma render_env_eq (o : FM.FMOperator) (n : nat) :
  FM.render_env o n
  = (FM.set_env o (fst (Envelope.render_block (FM.env o) n)),
     snd (Envelope.render_block (FM.env o) n)).
Proof.
  unfold FM.render_env. now destruct (Envelope.render_block (FM.env o) n).
Qed.

Lemma Forall2_Qeq_map (g h : Q -> Q) (a b : list Q) :
  (forall x y, x == y -> g x == h y) ->
  Forall2 Qeq a b -> Forall2 Qeq (map g a) (map h b).
Proof.
  intros Hgh Hab. induction Hab as [|x y a b Hxy _ IH]; simpl;
    constructor; auto.
Qed.

Lemma tracks_after_env (f : Q) (o : FM.FMOperator) (e1 : Envelope.ADSREnvelope) :
  FM.feedback o == 0 ->
  tracks f (FM.ratio o * f) (FM._phase o) (FM.set_env o e1).
Proof. intro H. unfold tracks. simpl. split; [exact H | split; reflexivity]. Qed.

(** C6: with algorithm 5 selected and zero feedback on the four
    operators, [render_block] succeeds and its block equals, sample for
    sample, the mean of four sine generators at [ratio_i * note_freq],
    each scaled by its operator's envelope block and level, the whole
    scaled by [velocity / 127]. *)
Theorem C6_algorithm5_additive_equivalence (e : FM.FMEngine)
    (o0 o1 o2 o3 : FM.FMOperator) (velocity : Z) (n_frames : nat) :
  FM.ops e = [o0; o1; o2; o3] ->
  FM.algorithm e = 5%Z ->
  FM.feedback o0 == 0 -> FM.feedback o1 == 0 ->
  FM.feedback o2 == 0 -> FM.feedback o3 == 0 ->
  FM._velocity_scale e == inject_Z velocity / 127 ->
  exists e' out,
    FM.render_block sin pi e n_frames = Ok (e', out)
    /\ List.length out = n_frames
    /\ Forall2 Qeq out
         (Reference.additive_block sin pi (FM._note_freq e) velocity
            o0 o1 o2 o3 n_frames).
Proof.
  intros Hops Halg Z0 Z1 Z2 Z3 Hvel.
  unfold FM.render_block. rewrite Halg, Hops.
  change (py_getitem FM.ALGORITHMS 5) with (Ok alg5).
  cbn [py_bind map]. rewrite !render_env_eq. cbn [fst snd].
  set (f := FM._note_freq e).
  destruct (for_frames_alg5 f n_frames 0
              (snd (Envelope.render_block (FM.env o0) n_frames))
              (snd (Envelope.render_block (FM.env o1) n_frames))
              (snd (Envelope.render_block (FM.env o2) n_frames))
              (snd (Envelope.render_block (FM.env o3) n_frames))
              _ _ _ _ _ _ _ _ _ _ _ _
              (render_block_length n_frames (FM.env o0))
              (render_block_length n_frames (FM.env o1))
              (render_block_length n_frames (FM.env o2))
              (render_block_length n_frames (FM.env o3))
              (tracks_after_env f o0
                 (fst (Envelope.render_block (FM.env o0) n_frames)) Z0)
              (tracks_after_env f o1
                 (fst (Envelope.render_block (FM.env o1) n_frames)) Z1)
              (tracks_after_env f o2
                 (fst (Envelope.render_block (FM.env o2) n_frames)) Z2)
              (tracks_after_env f o3
                 (fst (Envelope.render_block (FM.env o3) n_frames)) Z3))
    as (ps & out & Hrun & Hout).
  rewrite Hrun. cbn [py_bind].
  change (1 <? FM.n_carriers alg5)%Z with true. cbv iota.
  do 2 eexists. split; [reflexivity |].
  assert (Hfinal : Forall2 Qeq
            (map (fun x => x * FM._velocity_scale e)
               (map (fun x => x / inject_Z (FM.n_carriers alg5)) out))
            (Reference.additive_block sin pi f velocity o0 o1 o2 o3 n_frames)).
  { unfold Reference.additive_block, Reference.mean4.
    apply Forall2_Qeq_map; [intros x y Hxy; rewrite Hxy, Hvel; reflexivity |].
    apply Forall2_Qeq_map; [intros x y Hxy; rewrite Hxy; reflexivity |].
    exact Hout. }
  split; [| exact Hfinal].
  rewrite (Forall2_length Hfinal).
  unfold Reference.additive_block, Reference.mean4. rewrite !length_map.
  clear. unfold Reference.scaled.
  assert (Hzip : forall g a b, List.length (Reference.zip_with g a b)
                               = Nat.min (List.length a) (List.length b)).
  { intros g a. induction a as [|x a IH]; intros [|y b]; simpl; auto. }
  assert (Hgen : forall F h k,
             List.length (Reference.sine_generator sin pi F h k) = k).
  { intros F h k. revert h. induction k as [|k IH]; intro h; simpl; auto. }
  rewrite !Hzip, !Hgen, !render_block_length. lia.
Qed.

End AdditiveFM.

Lemma sin_cubic_ext (x y : Q) : x == y -> sin_cubic x == sin_cubic y.
Proof. intro H. unfold sin_cubic. now rewrite H. Qed.

Lemma C6_algorithm5_additive_equivalence_witness :
  exists o0 o1 o2 o3 e' out,
    FM.ops additive_a4 = [o0; o1; o2; o3]
    /\ FM.render_block sin_cubic pi_approx additive_a4 3 = Ok (e', out)
    /\ List.length out = 3%nat
    /\ FM._note_freq additive_a4 == 440
    /\ Forall2 Qeq out
         (Reference.additive_block sin_cubic pi_approx
            (FM._note_freq additive_a4) 100 o0 o1 o2 o3 3).
Proof.
  do 4 eexists.
  destruct (C6_algorithm5_additive_equivalence sin_cubic pi_approx sin_cubic_ext
              additive_a4 _ _ _ _ 100 3 eq_refl eq_refl
              eq_refl eq_refl eq_refl eq_refl eq_refl)
    as (e' & out & Hrun & Hlen & Hout).
  exists e', out. split; [reflexivity |]. split; [exact Hrun |].
  split; [exact Hlen |].
  split; [reflexivity | exact Hout].
Defined.

(** ** The exact extent of the FM no-op

    Every name other than "algorithm" whose operator index, if it has one,
    lies in -4..3 and whose attribute is not one of the seven is ignored;
    only an index outside that range escapes. *)

Lemma norm_index_negative (len : nat) (i : Z) :
  (- Z.of_nat len <= i < 0)%Z ->
  norm_index len i = Ok (Z.to_nat (i + Z.of_nat len)).
Proof.
  intro H. unfold norm_index.
  destruct (i <? 0)%Z eqn:E; [| apply Z.ltb_ge in E; lia].
  replace ((0 <=? i + Z.of_nat len)%Z && (i + Z.of_nat len <? Z.of_nat len)%Z)
    with true; [reflexivity |].
  symmetry. apply andb_true_iff. split; [apply Z.leb_le | apply Z.ltb_lt]; lia.
Qed.

Lemma fm_set_ops_same (e : FM.FMEngine) : FM.set_ops e (FM.ops e) = e.
Proof. now destruct e. Qed.

Lemma fm_unknown_name_noop (e : FM.FMEngine) (name : string) (value : number) :
  List.length (FM.ops e) = 4%nat ->
  name <> "algorithm"%string ->
  (forall p0 attr i,
      Str.split1 Str.underscore name = [p0; attr] ->
      prefix "op" p0 = true ->
      Str.to_int (Str.drop 2 p0) = Ok i ->
      (-4 <= i < 4)%Z /\ ~ In attr fm_attrs) ->
  FM.set_param e name value = Ok e.
Proof.
  intros Hlen Hname Hshape. unfold FM.set_param.
  destruct (String.eqb_spec name "algorithm"); [contradiction |].
  destruct (Str.split1 Str.underscore name) as [|p0 [|attr [|? ?]]];
    try reflexivity.
  destruct (prefix "op" p0) eqn:Hop; [| reflexivity].
  destruct (Str.to_int (Str.drop 2 p0)) as [i | x] eqn:Hint.
  - destruct (Hshape p0 attr i eq_refl Hop Hint) as [Hi Hattr].
    assert (Hj : exists j, norm_index (List.length (FM.ops e)) i = Ok j
                           /\ (j < 4)%nat).
    { rewrite Hlen. destruct (Z.ltb_spec i 0).
      - exists (Z.to_nat (i + 4)). split; [| lia].
        apply (norm_index_negative 4). simpl. lia.
      - exists (Z.to_nat i). split; [| lia].
        apply norm_index_in_range. simpl. lia. }
    destruct Hj as (j & -> & Hj). cbn [py_bind].
    destruct (nth_error (FM.ops e) j) as [op|] eqn:Eop;
      [| apply nth_error_None in Eop; lia].
    rewrite fm_unknown_attr_noop by exact Hattr.
    rewrite set_nth_same by exact Eop.
    now rewrite fm_set_ops_same.
  - unfold Str.to_int in Hint.
    destruct (Str.strip (Str.drop 2 p0)) as [|c r];
      [injection Hint as <-; reflexivity |].
    revert Hint.
    set (sb := match String c r with
               | String "-"%char r0 => ((-1)%Z, r0)
               | String "+"%char r0 => (1%Z, r0)
               | _ => (1%Z, String c r)
               end).
    destruct sb as [sign body].
    destruct body; [intro Hint; injection Hint as <-; reflexivity |].
    destruct (Str.digits _ 0); intro Hint;
      [discriminate | injection Hint as <-; reflexivity].
Qed.

(** ** Checks of the embedding on concrete inputs *)

Example to_int_checks :
  Str.to_int "3" = Ok 3%Z
  /\ Str.to_int " 12 " = Ok 12%Z
  /\ Str.to_int "-1" = Ok (-1)%Z
  /\ Str.to_int "+07" = Ok 7%Z
  /\ Str.to_int "" = Raise ValueError
  /\ Str.to_int "x" = Raise ValueError
  /\ Str.to_int "1.5" = Raise ValueError
  /\ Str.to_int "-" = Raise ValueError.
Proof. repeat split; reflexivity. Qed.

Example split1_checks :
  Str.split1 Str.underscore "op0_ratio" = ["op0"; "ratio"]%string
  /\ Str.split1 Str.underscore "osc_a_b" = ["osc"; "a_b"]%string
  /\ Str.split1 Str.underscore "volume" = ["volume"]%string
  /\ Str.split1 Str.underscore "_x" = [""; "x"]%string.
Proof. repeat split; reflexivity. Qed.

Example getitem_checks :
  py_getitem [10; 20; 30]%Z 0 = Ok 10%Z
  /\ py_getitem [10; 20; 30]%Z (-1) = Ok 30%Z
  /\ py_getitem [10; 20; 30]%Z 3 = Raise IndexError
  /\ py_getitem [10; 20; 30]%Z (-4) = Raise IndexError.
Proof. repeat split; reflexivity. Qed.

Example fm_set_param_checks :
  (exists e, FM.set_param FM.init "op1_ratio" (NFloat 0.001) = Ok e
             /\ option_map FM.ratio (nth_error (FM.ops e) 1) = Some 0.01)
  /\ (exists e, FM.set_param FM.init "algorithm" (NInt 11) = Ok e
                /\ FM.algorithm e = 5%Z)
  /\ (exists e, FM.set_param FM.init "algorithm" (NInt (-1)) = Ok e
                /\ FM.algorithm e = 5%Z)
  /\ FM.set_param FM.init "opx_ratio" (NInt 1) = Ok FM.init.
Proof.
  repeat split; try (eexists; split; reflexivity); reflexivity.
Qed.

Example time_to_samples_checks :
  Envelope._time_to_samples 0 = 1%Z
  /\ Envelope._time_to_samples (-0.5) = 1%Z
  /\ Envelope._time_to_samples 0.001 = 44%Z
  /\ Envelope._time_to_samples 0.005 = 220%Z
  /\ Envelope._time_to_samples 1 = 44100%Z.
Proof. repeat split; reflexivity. Qed.

Example envelope_attack_check :
  let e := Envelope.note_on (Envelope.init 0.00005 0.2 0.5 0.4) in
  Forall2 Qeq (snd (Envelope.render_block e 3)) [0.5; 1; 1 - (1 - 0.5) / 8820].
Proof. repeat constructor. Qed.

(** * Further properties of the code *)

(** ** Envelope timing *)

Lemma ticks_S (e : Envelope.ADSREnvelope) (k : nat) :
  ticks e (S k) = ticks (fst (Envelope._tick e)) k.
Proof.
  unfold ticks. simpl. destruct (Envelope._tick e) as [e1 v]. simpl.
  destruct (Envelope.render_block e1 k) as [e2 vs]. reflexivity.
Qed.

Lemma ticks_add (e : Envelope.ADSREnvelope) (j k : nat) :
  ticks e (j + k) = ticks (ticks e j) k.
Proof.
  revert e. induction j as [|j IH]; intro e; [reflexivity |].
  change (S j + k)%nat with (S (j + k)). now rewrite !ticks_S, IH.
Qed.

Lemma tick_same_params (e : Envelope.ADSREnvelope) :
  same_params e (fst (Envelope._tick e)).
Proof.
  unfold same_params, Envelope._tick.
  destruct (Envelope._state e); simpl; auto;
    destruct (Qle_bool _ _); simpl; auto.
Qed.

Lemma inject_nat_S (k : nat) :
  inject_Z (Z.of_nat (S k)) == inject_Z (Z.of_nat k) + 1.
Proof. rewrite Nat2Z.inj_succ, <- Z.add_1_r, inject_Z_plus. reflexivity. Qed.

(** Attack climbs by [1/n] per tick while it stays below 1. *)
Lemma attack_progress (k : nat) : forall e,
  Envelope._state e = Envelope.ATTACK ->
  Envelope._level e
    + inject_Z (Z.of_nat k) / inject_Z (Envelope._time_to_samples (Envelope.attack e)) < 1 ->
  Envelope._state (ticks e k) = Envelope.ATTACK
  /\ Envelope._level (ticks e k)
     == Envelope._level e
        + inject_Z (Z.of_nat k) / inject_Z (Envelope._time_to_samples (Envelope.attack e))
  /\ same_params e (ticks e k).
Proof.
  induction k as [|k IH]; intros e Hst Hlt.
  - split; [exact Hst |]. split; [| unfold same_params; auto].
    unfold ticks. simpl. field.
    pose proof (time_to_samples_pos (Envelope.attack e)). lra.
  - rewrite ticks_S.
    pose proof (time_to_samples_pos (Envelope.attack e)) as Hn.
    set (n := inject_Z (Envelope._time_to_samples (Envelope.attack e))) in *.
    assert (Hk : 0 <= inject_Z (Z.of_nat k) / n).
    { apply Qle_shift_div_l; [exact Hn |].
      rewrite Qmult_0_l. change 0 with (inject_Z 0). rewrite <- Zle_Qle. lia. }
    assert (Hstep : inject_Z (Z.of_nat (S k)) / n == inject_Z (Z.of_nat k) / n + 1 / n).
    { rewrite inject_nat_S. field. lra. }
    rewrite Hstep in Hlt |- *.
    assert (Htick : fst (Envelope._tick e)
                    = Envelope.with_state e Envelope.ATTACK
                        (Envelope._level e + 1 / n) (Envelope._release_level e)).
    { unfold Envelope._tick. rewrite Hst. fold n.
      destruct (Qle_bool 1 (Envelope._level e + 1 / n)) eqn:E; [| reflexivity].
      apply Qle_bool_iff in E. lra. }
    rewrite Htick.
    destruct (IH (Envelope.with_state e Envelope.ATTACK
                    (Envelope._level e + 1 / n) (Envelope._release_level e)))
      as (H1 & H2 & H3).
    + reflexivity.
    + simpl. fold n. lra.
    + split; [exact H1 |]. simpl in H2. fold n in H2. split.
      * rewrite H2. ring.
      * unfold same_params in *. simpl in H3. exact H3.
Qed.

Lemma ticks_1 (e : Envelope.ADSREnvelope) : ticks e 1 = fst (Envelope._tick e).
Proof. rewrite ticks_S. reflexivity. Qed.

Lemma samples_nat (s : Q) :
  inject_Z (Z.of_nat (Z.to_nat (Envelope._time_to_samples s)))
  = inject_Z (Envelope._time_to_samples s).
Proof. rewrite Z2Nat.id; [reflexivity |]. pose proof (time_to_samples_ge_1 s). lia. Qed.

Lemma ratio_lt_1 (k : nat) (s : Q) :
  (k < Z.to_nat (Envelope._time_to_samples s))%nat ->
  inject_Z (Z.of_nat k) / inject_Z (Envelope._time_to_samples s) < 1.
Proof.
  intro H. apply Qlt_shift_div_r; [apply time_to_samples_pos |].
  rewrite Qmult_1_l, <- Zlt_Qlt.
  pose proof (time_to_samples_ge_1 s). lia.
Qed.

Lemma ratio_pred (s : Q) :
  let n := Envelope._time_to_samples s in
  inject_Z (Z.of_nat (Z.to_nat n - 1)) / inject_Z n + 1 / inject_Z n == 1.
Proof.
  cbv zeta. pose proof (time_to_samples_ge_1 s) as H1.
  pose proof (time_to_samples_pos s) as Hp.
  set (n := Envelope._time_to_samples s) in *.
  replace (Z.of_nat (Z.to_nat n - 1)) with (n + -1)%Z by lia.
  rewrite inject_Z_plus. change (inject_Z (-1)) with (-1).
  field. lra.
Qed.

Lemma attack_exact (e : Envelope.ADSREnvelope) :
  Envelope._state e = Envelope.ATTACK ->
  Envelope._level e == 0 ->
  let n := Envelope._time_to_samples (Envelope.attack e) in
  (forall k, (k < Z.to_nat n)%nat ->
     Envelope._state (ticks e k) = Envelope.ATTACK
     /\ Envelope._level (ticks e k) == inject_Z (Z.of_nat k) / inject_Z n)
  /\ Envelope._state (ticks e (Z.to_nat n)) = Envelope.DECAY
  /\ Envelope._level (ticks e (Z.to_nat n)) = 1.
Proof.
  intros Hst H0 n.
  assert (Hbelow : forall k, (k < Z.to_nat n)%nat ->
            Envelope._level e + inject_Z (Z.of_nat k) / inject_Z n < 1).
  { intros k Hk. pose proof (ratio_lt_1 k (Envelope.attack e) Hk). fold n in H.
    rewrite H0, Qplus_0_l. exact H. }
  split.
  - intros k Hk. destruct (attack_progress k e Hst (Hbelow k Hk)) as (H1 & H2 & _).
    split; [exact H1 |]. fold n in H2. rewrite H2, H0. ring.
  - pose proof (time_to_samples_ge_1 (Envelope.attack e)) as Hn. fold n in Hn.
    replace (Z.to_nat n) with ((Z.to_nat n - 1) + 1)%nat by lia.
    rewrite ticks_add, ticks_1.
    assert (Hlast : (Z.to_nat n - 1 < Z.to_nat n)%nat) by lia.
    destruct (attack_progress (Z.to_nat n - 1) e Hst (Hbelow _ Hlast))
      as (H1 & H2 & (Ha & _)).
    fold n in H2.
    set (e' := ticks e (Z.to_nat n - 1)) in *.
    unfold Envelope._tick. rewrite H1, Ha. fold n.
    assert (Hpeak : Envelope._level e' + 1 / inject_Z n == 1).
    { rewrite H2, H0. pose proof (ratio_pred (Envelope.attack e)) as Hr.
      cbv zeta in Hr. fold n in Hr. rewrite Qplus_0_l. exact Hr. }
    destruct (Qle_bool 1 (Envelope._level e' + 1 / inject_Z n)) eqn:E.
    + split; reflexivity.
    + apply Qle_bool_false in E. lra.
Qed.

(** Attack.  With floats idealised as exact rationals, an envelope in
    ATTACK at level 0 is at level [k/n] after [k] ticks for every
    [k < n], with [n = _time_to_samples(attack)], and reaches level 1 and
    DECAY at tick [n] exactly.  In binary64 the [n] rounded steps can add
    up to less than 1.0: with an attack of 0.005 s, [n] is 220, the level
    after 220 ticks is 0.9999999999999958 and DECAY is reached at tick
    221. *)
Theorem attack_takes_attack_samples (e : Envelope.ADSREnvelope) :
  Envelope._state e = Envelope.ATTACK ->
  Envelope._level e == 0 ->
  let n := Envelope._time_to_samples (Envelope.attack e) in
  ((forall k, (k < Z.to_nat n)%nat ->
      Envelope._state (ticks e k) = Envelope.ATTACK
      /\ Envelope._level (ticks e k) == inject_Z (Z.of_nat k) / inject_Z n)
   /\ Envelope._state (ticks e (Z.to_nat n)) = Envelope.DECAY
   /\ Envelope._level (ticks e (Z.to_nat n)) = 1)
  /\ (let e64 := Envelope64.note_on
                   (Envelope64.init (Binary64.of_Q 0.005) (Binary64.of_Q 0.2)
                      (Binary64.of_Q 0.5) (Binary64.of_Q 0.4)) in
      Envelope64._time_to_samples (Envelope64.attack e64) = Ok 220%Z
      /\ state_after64 e64 220
         = Ok (Envelope.ATTACK, Binary64.of_Q 0.9999999999999958)
      /\ state_after64 e64 221 = Ok (Envelope.DECAY, Binary64.one)).
Proof.
  intros Hst Hlv n. split.
  - apply attack_exact; assumption.
  - cbv zeta. repeat split; vm_compute; reflexivity.
Qed.

Lemma attack_takes_attack_samples_witness :
  let e := Envelope.note_on (Envelope.init 0.005 0.2 0.5 0.4) in
  Envelope._time_to_samples (Envelope.attack e) = 220%Z
  /\ Envelope._state (ticks e 219) = Envelope.ATTACK
  /\ Envelope._state (ticks e 220) = Envelope.DECAY
  /\ Envelope._level (ticks e 220) = 1.
Proof.
  cbv zeta.
  destruct (attack_takes_attack_samples
              (Envelope.note_on (Envelope.init 0.005 0.2 0.5 0.4))
              eq_refl eq_refl) as ((Hbefore & Hst & Hlv) & _).
  split; [reflexivity |].
  split; [apply (Hbefore 219%nat); vm_compute; lia |].
  split; [exact Hst | exact Hlv].
Defined.

Lemma nat_ratio_nonneg (k : nat) (s : Q) :
  0 <= inject_Z (Z.of_nat k) / inject_Z (Envelope._time_to_samples s).
Proof.
  apply Qle_shift_div_l; [apply time_to_samples_pos |].
  rewrite Qmult_0_l. change 0 with (inject_Z 0). rewrite <- Zle_Qle. lia.
Qed.

(** Decay falls by [(1 - sustain)/n] per tick while it stays above the
    sustain level. *)
Lemma decay_progress (k : nat) : forall e,
  Envelope._state e = Envelope.DECAY ->
  Envelope.sustain e <= 1 ->
  let r := (1 - Envelope.sustain e)
           / inject_Z (Envelope._time_to_samples (Envelope.decay e)) in
  Envelope.sustain e < Envelope._level e - inject_Z (Z.of_nat k) * r ->
  Envelope._state (ticks e k) = Envelope.DECAY
  /\ Envelope._level (ticks e k) == Envelope._level e - inject_Z (Z.of_nat k) * r
  /\ same_params e (ticks e k).
Proof.
  induction k as [|k IH]; intros e Hst Hs r Hgt.
  - split; [exact Hst |]. split; [| unfold same_params; auto].
    unfold ticks. simpl. ring.
  - rewrite ticks_S.
    assert (Hr : 0 <= r) by (apply rate_nonneg; lra).
    assert (Hk : 0 <= inject_Z (Z.of_nat k))
      by (change 0 with (inject_Z 0); rewrite <- Zle_Qle; lia).
    rewrite inject_nat_S in Hgt |- *.
    assert (Htick : fst (Envelope._tick e)
                    = Envelope.with_state e Envelope.DECAY
                        (Envelope._level e - r) (Envelope._release_level e)).
    { unfold Envelope._tick. rewrite Hst. fold r.
      destruct (Qle_bool (Envelope._level e - r) (Envelope.sustain e)) eqn:E;
        [| reflexivity].
      apply Qle_bool_iff in E. nra. }
    rewrite Htick.
    destruct (IH (Envelope.with_state e Envelope.DECAY
                    (Envelope._level e - r) (Envelope._release_level e)))
      as (H1 & H2 & H3).
    + reflexivity.
    + exact Hs.
    + simpl. fold r. lra.
    + split; [exact H1 |]. simpl in H2. fold r in H2. split.
      * rewrite H2. ring.
      * exact H3.
Qed.

Lemma decay_exact (e : Envelope.ADSREnvelope) :
  Envelope._state e = Envelope.DECAY ->
  Envelope._level e == 1 ->
  Envelope.sustain e < 1 ->
  let n := Envelope._time_to_samples (Envelope.decay e) in
  (forall k, (k < Z.to_nat n)%nat ->
     Envelope._state (ticks e k) = Envelope.DECAY
     /\ Envelope._level (ticks e k)
        == 1 - inject_Z (Z.of_nat k) * ((1 - Envelope.sustain e) / inject_Z n))
  /\ Envelope._state (ticks e (Z.to_nat n)) = Envelope.SUSTAIN
  /\ Envelope._level (ticks e (Z.to_nat n)) = Envelope.sustain e.
Proof.
  intros Hst H1 Hs n.
  pose proof (time_to_samples_pos (Envelope.decay e)) as Hn. fold n in Hn.
  set (r := (1 - Envelope.sustain e) / inject_Z n).
  assert (Hrn : r * inject_Z n == 1 - Envelope.sustain e)
    by (unfold r; field; lra).
  assert (Hr : 0 < r).
  { unfold r. apply Qlt_shift_div_l; [exact Hn | lra]. }
  assert (Habove : forall k, (k < Z.to_nat n)%nat ->
            Envelope.sustain e < Envelope._level e - inject_Z (Z.of_nat k) * r).
  { intros k Hk. rewrite H1.
    assert (inject_Z (Z.of_nat k) + 1 <= inject_Z n).
    { change 1 with (inject_Z 1). rewrite <- inject_Z_plus, <- Zle_Qle.
      pose proof (time_to_samples_ge_1 (Envelope.decay e)). fold n in H. lia. }
    nra. }
  assert (Hs' : Envelope.sustain e <= 1) by lra.
  split.
  - intros k Hk.
    destruct (decay_progress k e Hst Hs' (Habove k Hk)) as (Ha & Hb & _).
    split; [exact Ha |]. fold n in Hb. fold r in Hb. rewrite Hb, H1. reflexivity.
  - pose proof (time_to_samples_ge_1 (Envelope.decay e)) as Hge. fold n in Hge.
    assert (Hlast : (Z.to_nat n - 1 < Z.to_nat n)%nat) by lia.
    replace (Z.to_nat n) with ((Z.to_nat n - 1) + 1)%nat by lia.
    rewrite ticks_add, ticks_1.
    destruct (decay_progress (Z.to_nat n - 1) e Hst Hs' (Habove _ Hlast))
      as (Ha & Hb & (_ & Hd & Hsus & _)).
    fold n in Hb. fold r in Hb.
    set (e' := ticks e (Z.to_nat n - 1)) in *.
    unfold Envelope._tick. rewrite Ha, Hd, Hsus. fold n. fold r.
    assert (Hend : Envelope._level e' - r == Envelope.sustain e).
    { rewrite Hb, H1.
      replace (Z.of_nat (Z.to_nat n - 1)) with (n + -1)%Z by lia.
      rewrite inject_Z_plus. change (inject_Z (-1)) with (-1). nra. }
    destruct (Qle_bool (Envelope._level e' - r) (Envelope.sustain e)) eqn:E.
    + split; reflexivity.
    + apply Qle_bool_false in E. lra.
Qed.

(** Decay.  With floats idealised as exact rationals, an envelope in
    DECAY at level 1 with sustain below 1 stays in DECAY, at level
    [1 - k (1 - sustain)/n], for every [k < n] ticks, with
    [n = _time_to_samples(decay)], and lands on the sustain level and in
    SUSTAIN at tick [n] exactly.  In binary64 the [n] rounded steps can
    stop above the sustain level: with a decay of 0.001 s and sustain 0.5,
    [n] is 44, the envelope is still in DECAY after 44 ticks and in
    SUSTAIN after 45. *)
Theorem decay_takes_decay_samples (e : Envelope.ADSREnvelope) :
  Envelope._state e = Envelope.DECAY ->
  Envelope._level e == 1 ->
  Envelope.sustain e < 1 ->
  let n := Envelope._time_to_samples (Envelope.decay e) in
  ((forall k, (k < Z.to_nat n)%nat ->
      Envelope._state (ticks e k) = Envelope.DECAY
      /\ Envelope._level (ticks e k)
         == 1 - inject_Z (Z.of_nat k) * ((1 - Envelope.sustain e) / inject_Z n))
   /\ Envelope._state (ticks e (Z.to_nat n)) = Envelope.SUSTAIN
   /\ Envelope._level (ticks e (Z.to_nat n)) = Envelope.sustain e)
  /\ (let e64 := Envelope64.with_state
                   (Envelope64.init (Binary64.of_Q 0.005) (Binary64.of_Q 0.001)
                      (Binary64.of_Q 0.5) (Binary64.of_Q 0.4))
                   Envelope.DECAY Binary64.one in
      Envelope64._time_to_samples (Envelope64.decay e64) = Ok 44%Z
      /\ (exists level, state_after64 e64 44 = Ok (Envelope.DECAY, level)
                        /\ Binary64.ltb (Binary64.of_Q 0.5) level = true)
      /\ state_after64 e64 45 = Ok (Envelope.SUSTAIN, Binary64.of_Q 0.5)).
Proof.
  intros Hst Hlv Hsus n. split.
  - apply decay_exact; assumption.
  - cbv zeta. split; [vm_compute; reflexivity |].
    split; [| vm_compute; reflexivity].
    eexists. split; vm_compute; reflexivity.
Qed.

Lemma decay_takes_decay_samples_witness :
  let e := Envelope.with_state (Envelope.init 0.005 0.002 0.5 0.4) Envelope.DECAY 1 0 in
  Envelope._time_to_samples (Envelope.decay e) = 88%Z
  /\ Envelope._state (ticks e 87) = Envelope.DECAY
  /\ Envelope._state (ticks e 88) = Envelope.SUSTAIN
  /\ Envelope._level (ticks e 88) = 0.5.
Proof.
  cbv zeta.
  destruct (decay_takes_decay_samples
              (Envelope.with_state (Envelope.init 0.005 0.002 0.5 0.4) Envelope.DECAY 1 0)
              eq_refl eq_refl eq_refl) as ((Hbefore & Hst & Hlv) & _).
  split; [reflexivity |].
  split; [apply (Hbefore 87%nat); vm_compute; lia |].
  split; [exact Hst | exact Hlv].
Defined.

(** Release falls by [release_level/n] per tick while it stays above 0. *)
Lemma release_progress (k : nat) : forall e,
  Envelope._state e = Envelope.RELEASE ->
  0 <= Envelope._release_level e ->
  let r := Envelope._release_level e
           / inject_Z (Envelope._time_to_samples (Envelope.release e)) in
  0 < Envelope._level e - inject_Z (Z.of_nat k) * r ->
  Envelope._state (ticks e k) = Envelope.RELEASE
  /\ Envelope._level (ticks e k) == Envelope._level e - inject_Z (Z.of_nat k) * r
  /\ Envelope._release_level (ticks e k) = Envelope._release_level e
  /\ same_params e (ticks e k).
Proof.
  induction k as [|k IH]; intros e Hst Hrl r Hgt.
  - split; [exact Hst |]. split; [unfold ticks; simpl; ring |].
    split; [reflexivity | unfold same_params; auto].
  - rewrite ticks_S.
    assert (Hr : 0 <= r) by (apply rate_nonneg; exact Hrl).
    assert (Hk : 0 <= inject_Z (Z.of_nat k))
      by (change 0 with (inject_Z 0); rewrite <- Zle_Qle; lia).
    rewrite inject_nat_S in Hgt |- *.
    assert (Htick : fst (Envelope._tick e)
                    = Envelope.with_state e Envelope.RELEASE
                        (Envelope._level e - r) (Envelope._release_level e)).
    { unfold Envelope._tick. rewrite Hst. fold r.
      destruct (Qle_bool (Envelope._level e - r) 0) eqn:E; [| reflexivity].
      apply Qle_bool_iff in E. nra. }
    rewrite Htick.
    destruct (IH (Envelope.with_state e Envelope.RELEASE
                    (Envelope._level e - r) (Envelope._release_level e)))
      as (H1 & H2 & H3 & H4).
    + reflexivity.
    + exact Hrl.
    + simpl. fold r. lra.
    + split; [exact H1 |]. simpl in H2, H3. fold r in H2.
      split; [rewrite H2; ring |]. split; [exact H3 | exact H4].
Qed.

Lemma release_exact (e : Envelope.ADSREnvelope) :
  Envelope.is_active e = true ->
  0 < Envelope._level e ->
  let n := Envelope._time_to_samples (Envelope.release e) in
  let e' := Envelope.note_off e in
  (forall k, (k < Z.to_nat n)%nat ->
     Envelope.is_active (ticks e' k) = true
     /\ Envelope._level (ticks e' k)
        == Envelope._level e * (1 - inject_Z (Z.of_nat k) / inject_Z n))
  /\ Envelope.is_active (ticks e' (Z.to_nat n)) = false
  /\ Envelope._level (ticks e' (Z.to_nat n)) = 0.
Proof.
  intros Hact Hpos n e'.
  assert (He' : e' = Envelope.with_state e Envelope.RELEASE
                       (Envelope._level e) (Envelope._level e)).
  { unfold e', Envelope.note_off. unfold Envelope.is_active in Hact.
    now rewrite Hact. }
  pose proof (time_to_samples_pos (Envelope.release e)) as Hn. fold n in Hn.
  pose proof (time_to_samples_ge_1 (Envelope.release e)) as Hge. fold n in Hge.
  set (L := Envelope._level e) in *.
  set (r := L / inject_Z n).
  assert (Hrn : r * inject_Z n == L) by (unfold r; field; lra).
  assert (Hst : Envelope._state e' = Envelope.RELEASE) by (rewrite He'; reflexivity).
  assert (Hrl : 0 <= Envelope._release_level e') by (rewrite He'; simpl; lra).
  assert (Hrate : Envelope._release_level e'
                  / inject_Z (Envelope._time_to_samples (Envelope.release e')) = r)
    by (rewrite He'; reflexivity).
  assert (Hlv : Envelope._level e' = L) by (rewrite He'; reflexivity).
  assert (Habove : forall k, (k < Z.to_nat n)%nat ->
            0 < Envelope._level e' - inject_Z (Z.of_nat k) * r).
  { intros k Hk. rewrite Hlv.
    assert (inject_Z (Z.of_nat k) + 1 <= inject_Z n).
    { change 1 with (inject_Z 1). rewrite <- inject_Z_plus, <- Zle_Qle. lia. }
    assert (0 < r) by (unfold r; apply Qlt_shift_div_l; [exact Hn | lra]).
    nra. }
  split.
  - intros k Hk.
    pose proof (release_progress k e' Hst Hrl) as Hp. cbv zeta in Hp.
    rewrite Hrate in Hp. destruct (Hp (Habove k Hk)) as (Ha & Hb & _).
    split; [unfold Envelope.is_active; now rewrite Ha |].
    rewrite Hb, Hlv. unfold r. field. lra.
  - assert (Hlast : (Z.to_nat n - 1 < Z.to_nat n)%nat) by lia.
    replace (Z.to_nat n) with ((Z.to_nat n - 1) + 1)%nat by lia.
    rewrite ticks_add, ticks_1.
    pose proof (release_progress (Z.to_nat n - 1) e' Hst Hrl) as Hp.
    cbv zeta in Hp. rewrite Hrate in Hp.
    destruct (Hp (Habove _ Hlast)) as (Ha & Hb & Hc & (_ & _ & _ & Hd)).
    set (e'' := ticks e' (Z.to_nat n - 1)) in *.
    unfold Envelope._tick. rewrite Ha, Hc, Hd.
    rewrite Hrate.
    assert (Hend : Envelope._level e'' - r == 0).
    { rewrite Hb, Hlv.
      replace (Z.of_nat (Z.to_nat n - 1)) with (n + -1)%Z by lia.
      rewrite inject_Z_plus. change (inject_Z (-1)) with (-1). nra. }
    destruct (Qle_bool (Envelope._level e'' - r) 0) eqn:E.
    + split; reflexivity.
    + apply Qle_bool_false in E. lra.
Qed.

(** Release.  With floats idealised as exact rationals, after [note_off]
    on a sounding envelope whose level is positive the envelope stays in
    RELEASE, at level [level * (1 - k/n)], for every [k < n] ticks, with
    [n = _time_to_samples(release)], and is IDLE at level 0 at tick [n]
    exactly.  In binary64 the [n] rounded steps can stop above 0: with a
    release of 0.003 s from level 0.5, [n] is 132, the envelope is still
    in RELEASE after 132 ticks and IDLE after 133. *)
Theorem release_takes_release_samples (e : Envelope.ADSREnvelope) :
  Envelope.is_active e = true ->
  0 < Envelope._level e ->
  let n := Envelope._time_to_samples (Envelope.release e) in
  let e' := Envelope.note_off e in
  ((forall k, (k < Z.to_nat n)%nat ->
      Envelope.is_active (ticks e' k) = true
      /\ Envelope._level (ticks e' k)
         == Envelope._level e * (1 - inject_Z (Z.of_nat k) / inject_Z n))
   /\ Envelope.is_active (ticks e' (Z.to_nat n)) = false
   /\ Envelope._level (ticks e' (Z.to_nat n)) = 0)
  /\ (let e64 := Envelope64.note_off
                   (Envelope64.with_state
                      (Envelope64.init (Binary64.of_Q 0.005) (Binary64.of_Q 0.2)
                         (Binary64.of_Q 0.5) (Binary64.of_Q 0.003))
                      Envelope.SUSTAIN (Binary64.of_Q 0.5)) in
      Envelope64._time_to_samples (Envelope64.release e64) = Ok 132%Z
      /\ (exists level, state_after64 e64 132 = Ok (Envelope.RELEASE, level)
                        /\ Binary64.ltb Binary64.zero level = true)
      /\ state_after64 e64 133 = Ok (Envelope.IDLE, Binary64.zero)).
Proof.
  intros Hact Hlv n e'. split.
  - apply release_exact; assumption.
  - cbv zeta. split; [vm_compute; reflexivity |].
    split; [| vm_compute; reflexivity].
    eexists. split; vm_compute; reflexivity.
Qed.

Lemma release_takes_release_samples_witness :
  let e := Envelope.with_state (Envelope.init 0.005 0.2 0.5 0.003) Envelope.SUSTAIN 0.5 0 in
  Envelope._time_to_samples (Envelope.release e) = 132%Z
  /\ Envelope.is_active (ticks (Envelope.note_off e) 131) = true
  /\ Envelope.is_active (ticks (Envelope.note_off e) 132) = false
  /\ Envelope._level (ticks (Envelope.note_off e) 132) = 0.
Proof.
  cbv zeta.
  destruct (release_takes_release_samples
              (Envelope.with_state (Envelope.init 0.005 0.2 0.5 0.003)
                 Envelope.SUSTAIN 0.5 0)
              eq_refl eq_refl) as ((Hbefore & Hst & Hlv) & _).
  split; [reflexivity |].
  split; [apply (Hbefore 131%nat); vm_compute; lia |].
  split; [exact Hst | exact Hlv].
Defined.

(** An idle envelope renders silence and is left as it was, and a
    note-off does nothing to it. *)
Theorem idle_envelope_is_silent (e : Envelope.ADSREnvelope) (n_frames : nat) :
  Envelope.is_active e = false ->
  Envelope.render_block e n_frames = (e, repeat 0 n_frames)
  /\ Envelope.note_off e = e.
Proof.
  intro H. unfold Envelope.is_active in H. apply negb_false_iff in H.
  split.
  - induction n_frames as [|n IH]; [reflexivity |].
    simpl. unfold Envelope._tick.
    destruct (Envelope._state e); try discriminate. now rewrite IH.
  - unfold Envelope.note_off. now rewrite H.
Qed.

Lemma idle_envelope_is_silent_witness :
  Envelope.render_block (Envelope.init 0.01 0.1 0.7 0.3) 3
  = (Envelope.init 0.01 0.1 0.7 0.3, [0; 0; 0]).
Proof.
  apply (idle_envelope_is_silent (Envelope.init 0.01 0.1 0.7 0.3) 3). reflexivity.
Defined.

(** Rendering [m + n] frames in one block gives the same values and the
    same final envelope as rendering [m] frames and then [n]. *)
Theorem envelope_blocks_compose (e : Envelope.ADSREnvelope) (m n : nat) :
  Envelope.render_block e (m + n)
  = (fst (Envelope.render_block (fst (Envelope.render_block e m)) n),
     snd (Envelope.render_block e m)
     ++ snd (Envelope.render_block (fst (Envelope.render_block e m)) n)).
Proof.
  revert e. induction m as [|m IH]; intro e; simpl.
  - now destruct (Envelope.render_block e n).
  - destruct (Envelope._tick e) as [e1 v]. rewrite IH.
    destruct (Envelope.render_block e1 m) as [e2 vs]. simpl.
    now destruct (Envelope.render_block e2 n).
Qed.

(** ** Filter *)

Lemma run_app m f q (s1 : list Q) : forall low band s2,
  Filter.run m f q low band (s1 ++ s2)
  = let '(low1, band1, o1) := Filter.run m f q low band s1 in
    let '(low2, band2, o2) := Filter.run m f q low1 band1 s2 in
    (low2, band2, o1 ++ o2).
Proof.
  induction s1 as [|s rest IH]; intros low band s2; simpl.
  - now destruct (Filter.run m f q low band s2) as [[? ?] ?].
  - rewrite IH.
    destruct (Filter.run m f q _ _ rest) as [[low1 band1] o1].
    now destruct (Filter.run m f q low1 band1 s2) as [[? ?] ?].
Qed.

(** Filtering a signal in one block gives the same samples and the same
    final registers as filtering a first part and then the rest: the block
    boundary leaves no trace. *)
Theorem filter_blocks_compose (sin : Q -> Q) (pi : Q) (flt : Filter.SVFilter)
    (s1 s2 : list Q) :
  Filter.render_block sin pi flt (s1 ++ s2)
  = (fst (Filter.render_block sin pi (fst (Filter.render_block sin pi flt s1)) s2),
     snd (Filter.render_block sin pi flt s1)
     ++ snd (Filter.render_block sin pi (fst (Filter.render_block sin pi flt s1)) s2)).
Proof.
  unfold Filter.render_block at 1 3 4. rewrite run_app.
  unfold Filter.render_block, Filter.coeff_f, Filter.coeff_q.
  destruct (Filter.run _ _ _ _ _ s1) as [[low1 band1] o1]. simpl.
  destruct (Filter.run _ _ _ low1 band1 s2) as [[low2 band2] o2]. reflexivity.
Qed.

Lemma run_linear m f q c (x : list Q) : forall y la ba lb bb lc bc,
  List.length x = List.length y ->
  lc == c * la + lb -> bc == c * ba + bb ->
  let ra := Filter.run m f q la ba x in
  let rb := Filter.run m f q lb bb y in
  let rc := Filter.run m f q lc bc (scale_add c x y) in
  fst (fst rc) == c * fst (fst ra) + fst (fst rb)
  /\ snd (fst rc) == c * snd (fst ra) + snd (fst rb)
  /\ Forall2 Qeq (snd rc) (scale_add c (snd ra) (snd rb)).
Proof.
  induction x as [|a x IH]; intros [|b y] la ba lb bb lc bc Hlen Hl Hb;
    try discriminate Hlen.
  - simpl. split; [exact Hl | split; [exact Hb | constructor]].
  - unfold scale_add. cbn [combine map fst snd Filter.run].
    fold (scale_add c x y).
    set (la1 := la + f * ba). set (lb1 := lb + f * bb). set (lc1 := lc + f * bc).
    set (ha := a - la1 - q * ba). set (hb := b - lb1 - q * bb).
    set (hc := c * a + b - lc1 - q * bc).
    assert (Hl1 : lc1 == c * la1 + lb1) by (unfold lc1, la1, lb1; rewrite Hl, Hb; ring).
    assert (Hh : hc == c * ha + hb) by (unfold hc, ha, hb; rewrite Hl1, Hb; ring).
    assert (Hb1 : f * hc + bc == c * (f * ha + ba) + (f * hb + bb))
      by (rewrite Hh, Hb; ring).
    injection Hlen as Hlen.
    specialize (IH y la1 (f * ha + ba) lb1 (f * hb + bb) lc1 (f * hc + bc)
                   Hlen Hl1 Hb1).
    cbv zeta in IH.
    destruct (Filter.run m f q la1 (f * ha + ba) x) as [[la2 ba2] oa].
    destruct (Filter.run m f q lb1 (f * hb + bb) y) as [[lb2 bb2] ob].
    destruct (Filter.run m f q lc1 (f * hc + bc) (scale_add c x y)) as [[lc2 bc2] oc].
    cbn [fst snd] in *. destruct IH as (I1 & I2 & I3).
    split; [exact I1 | split; [exact I2 |]].
    unfold scale_add. cbn [combine map fst snd]. fold (scale_add c oa ob).
    constructor; [| exact I3].
    destruct (m =? "lp")%string; [exact Hl1 |].
    destruct (m =? "hp")%string; [exact Hh | exact Hb1].
Qed.

(** The filter is linear: for three filters with the same cutoff,
    resonance and mode, started from cleared registers, the response to
    [c * x + y] is [c] times the response to [x] plus the response to [y],
    sample by sample, whatever the mode. *)
Theorem filter_is_linear (sin : Q -> Q) (pi : Q) (flt : Filter.SVFilter)
    (c : Q) (x y : list Q) :
  List.length x = List.length y ->
  let z := Filter.reset flt in
  Forall2 Qeq
    (snd (Filter.render_block sin pi z (scale_add c x y)))
    (scale_add c (snd (Filter.render_block sin pi z x))
                 (snd (Filter.render_block sin pi z y))).
Proof.
  intros Hlen z. unfold Filter.render_block.
  pose proof (run_linear (Filter.mode z) (Filter.coeff_f sin pi z)
                (Filter.coeff_q z) c x y 0 0 0 0 0 0 Hlen
                ltac:(ring) ltac:(ring)) as H.
  cbv zeta in H. unfold z in *. simpl Filter._low in *. simpl Filter._band in *.
  destruct (Filter.run _ _ _ 0 0 x) as [[la ba] oa].
  destruct (Filter.run _ _ _ 0 0 y) as [[lb bb] ob].
  destruct (Filter.run _ _ _ 0 0 (scale_add c x y)) as [[lc bc] oc].
  cbn [fst snd] in *. tauto.
Qed.

Lemma filter_is_linear_witness :
  let z := Filter.reset (Filter.init 1000.0 0.5 "hp") in
  Forall2 Qeq
    (snd (Filter.render_block sin_cubic pi_approx z (scale_add 3 [1; 0.5] [0.25; -1])))
    (scale_add 3 (snd (Filter.render_block sin_cubic pi_approx z [1; 0.5]))
                 (snd (Filter.render_block sin_cubic pi_approx z [0.25; -1]))).
Proof.
  apply (filter_is_linear sin_cubic pi_approx (Filter.init 1000.0 0.5 "hp")
           3 [1; 0.5] [0.25; -1]).
  reflexivity.
Defined.

(** ** Wavetable oscillator *)

Lemma py_fmod_range (x m : Q) : 0 < m -> 0 <= Wavetable.py_fmod x m < m.
Proof.
  intro Hm. unfold Wavetable.py_fmod.
  pose proof (Qfloor_le (x / m)) as Hlo.
  pose proof (Qlt_floor (x / m)) as Hhi.
  assert (Hx : x == x / m * m) by (field; lra).
  set (k := inject_Z (Qfloor (x / m))) in *.
  assert (Hhi' : x / m < k + 1).
  { unfold k. rewrite <- (inject_Z_plus _ 1). exact Hhi. }
  set (d := x / m) in *. split; nra.
Qed.

Lemma wavetable_run_length table inc (n : nat) : forall phase,
  List.length (snd (Wavetable.run table inc phase n)) = n.
Proof.
  induction n as [|n IH]; intro phase; simpl; [reflexivity |].
  specialize (IH (phase + inc)).
  destruct (Wavetable.run table inc (phase + inc) n). simpl in *. now rewrite IH.
Qed.

Lemma render_block_ok (sin : Q -> Q) (pi : Q)
    (o : Oscillator.WavetableOscillator) (freq : Q) (n_frames : nat) :
  In (Oscillator.wave o) Oscillator.WAVE_NAMES ->
  exists o' out,
    Wavetable.render_block sin pi o freq n_frames = Some (o', out)
    /\ List.length out = n_frames
    /\ Oscillator.wave o' = Oscillator.wave o
    /\ 0 <= Oscillator._phase o' < 2048.
Proof.
  intro Hw. unfold Wavetable.render_block.
  assert (Ht : exists t, Wavetable.WAVE_TABLES sin pi (Oscillator.wave o) = Some t).
  { unfold Wavetable.WAVE_TABLES.
    destruct Hw as [<- | [<- | [<- | [<- | []]]]]; eexists; reflexivity. }
  destruct Ht as [t ->].
  pose proof (wavetable_run_length t
                (freq * inject_Z Wavetable.TABLE_SIZE / inject_Z Wavetable.SAMPLE_RATE)
                n_frames (Oscillator._phase o)) as Hlen.
  destruct (Wavetable.run _ _ _ _) as [ph out]. simpl in Hlen.
  do 2 eexists. split; [reflexivity |]. split; [exact Hlen |].
  split; [reflexivity |]. simpl.
  apply (py_fmod_range ph 2048). reflexivity.
Qed.

(** Every name of [WAVE_NAMES] has a table; rendering an oscillator with
    such a wave, at a frequency between 0 and the sample rate and from a
    phase that is not negative, never fails, returns [n_frames] samples,
    keeps the wave and leaves the phase in [0, TABLE_SIZE).  The bounds are
    needed in the code: in binary64, one frame at -1e-20 Hz from phase 0
    leaves the phase at [TABLE_SIZE] itself. *)
Theorem oscillator_phase_normalised (sin : Q -> Q) (pi : Q)
    (o : Oscillator.WavetableOscillator) (freq : Q) (n_frames : nat) :
  In (Oscillator.wave o) Oscillator.WAVE_NAMES ->
  0 <= freq <= 44100 ->
  0 <= Oscillator._phase o ->
  (exists o' out,
     Wavetable.render_block sin pi o freq n_frames = Some (o', out)
     /\ List.length out = n_frames
     /\ Oscillator.wave o' = Oscillator.wave o
     /\ 0 <= Oscillator._phase o' < 2048)
  /\ Wavetable64._phase_after Binary64.zero (Binary64.of_Q (-1e-20)) 1
     = Ok (Binary64.of_Q 2048).
Proof.
  intros Hw _ _. split.
  - exact (render_block_ok sin pi o freq n_frames Hw).
  - vm_compute. reflexivity.
Qed.

Lemma oscillator_phase_normalised_witness :
  exists o' out,
    Wavetable.render_block sin_cubic pi_approx
      (Oscillator.mkOsc "saw" 2047.5) 12543.85 4 = Some (o', out)
    /\ List.length out = 4%nat
    /\ Oscillator.wave o' = "saw"%string
    /\ 0 <= Oscillator._phase o' < 2048.
Proof.
  apply (oscillator_phase_normalised sin_cubic pi_approx
           (Oscillator.mkOsc "saw" 2047.5) 12543.85 4).
  - simpl. auto.
  - split; discriminate.
  - discriminate.
Defined.

Lemma table_index_range (z : Z) : (0 <= z mod Wavetable.TABLE_SIZE < 2048)%Z.
Proof. apply Z.mod_pos_bound. reflexivity. Qed.

Lemma inject_Z_index_range (i : Z) :
  (0 <= i < 2048)%Z -> 0 <= inject_Z i /\ inject_Z i <= 2047.
Proof.
  intro H. split.
  - change 0 with (inject_Z 0). rewrite <- Zle_Qle. lia.
  - change 2047 with (inject_Z 2047). rewrite <- Zle_Qle. lia.
Qed.

Lemma tables_full_scale (sin : Q -> Q) (pi : Q) (wave : string) (t : Z -> Q) :
  (forall x, full_scale (sin x)) ->
  Wavetable.WAVE_TABLES sin pi wave = Some t ->
  forall i, (0 <= i < 2048)%Z -> full_scale (t i).
Proof.
  intros Hsin Ht i Hi. unfold Wavetable.WAVE_TABLES in Ht.
  destruct (inject_Z_index_range i Hi) as [H0 H1].
  destruct (wave =? "sine")%string; [injection Ht as <-; apply Hsin |].
  destruct (wave =? "saw")%string.
  { injection Ht as <-. unfold Wavetable._SAW_TABLE, full_scale, Wavetable.TABLE_SIZE.
    change (inject_Z 2048) with 2048. unfold Qdiv. change (/ 2048) with (1 # 2048).
    generalize dependent (inject_Z i). intros x H0 H1. split; lra. }
  destruct (wave =? "square")%string.
  { injection Ht as <-. unfold Wavetable._SQUARE_TABLE, full_scale.
    destruct (i <? _)%Z; split; discriminate. }
  destruct (wave =? "triangle")%string; [| discriminate].
  injection Ht as <-. unfold Wavetable._TRIANGLE_TABLE, full_scale, Wavetable.TABLE_SIZE.
  change (inject_Z 2048) with 2048.
  set (u := 2.0 * inject_Z i / 2048 - 1.0).
  assert (Hu : -1 <= u <= 1).
  { unfold u, Qdiv. change (/ 2048) with (1 # 2048).
    generalize dependent (inject_Z i). intros x H0 H1 u. split; lra. }
  pose proof (Qabs_nonneg u) as Ha.
  assert (Hb : Qabs u <= 1) by (apply Qabs_Qle_condition; exact Hu).
  split; lra.
Qed.

Lemma wavetable_run_full_scale (t : Z -> Q) (inc : Q) (n : nat) :
  (forall i, (0 <= i < 2048)%Z -> full_scale (t i)) ->
  0 <= inc ->
  forall phase, 0 <= phase ->
  Forall full_scale (snd (Wavetable.run t inc phase n)).
Proof.
  intros Ht Hinc. induction n as [|n IH]; intros phase Hph; simpl.
  - constructor.
  - assert (Hnext : 0 <= phase + inc) by lra.
    specialize (IH (phase + inc) Hnext).
    destruct (Wavetable.run t inc (phase + inc) n) as [ph out]. simpl in *.
    constructor; [| exact IH].
    rewrite (Qtrunc_nonneg_floor phase Hph).
    pose proof (Qfloor_le phase) as Hlo. pose proof (Qlt_floor phase) as Hhi.
    rewrite inject_Z_plus in Hhi. change (inject_Z 1) with 1 in Hhi.
    pose proof (Ht _ (table_index_range (Qfloor phase))) as [Ha1 Ha2].
    pose proof (Ht _ (table_index_range (Qfloor phase mod Wavetable.TABLE_SIZE + 1)))
      as [Hb1 Hb2].
    set (a := t (Qfloor phase mod Wavetable.TABLE_SIZE)%Z) in *.
    set (b := t ((Qfloor phase mod Wavetable.TABLE_SIZE + 1) mod Wavetable.TABLE_SIZE)%Z) in *.
    set (fr := phase - inject_Z (Qfloor phase)).
    assert (Hfr : 0 <= fr < 1) by (unfold fr; split; lra).
    unfold full_scale. split; nra.
Qed.

(** With a sine that stays within [-1, 1], a frequency that is not
    negative and a phase that is not negative, every sample an oscillator
    renders is within [-1, 1], for each of the four waves. *)
Theorem oscillator_output_full_scale (sin : Q -> Q) (pi : Q)
    (o : Oscillator.WavetableOscillator) (freq : Q) (n_frames : nat) :
  (forall x, full_scale (sin x)) ->
  In (Oscillator.wave o) Oscillator.WAVE_NAMES ->
  0 <= freq ->
  0 <= Oscillator._phase o ->
  exists o' out,
    Wavetable.render_block sin pi o freq n_frames = Some (o', out)
    /\ Forall full_scale out.
Proof.
  intros Hsin Hw Hf Hph.
  destruct (render_block_ok sin pi o freq n_frames Hw)
    as (o' & out & Hr & _).
  exists o', out. split; [exact Hr |].
  unfold Wavetable.render_block in Hr.
  destruct (Wavetable.WAVE_TABLES sin pi (Oscillator.wave o)) as [t|] eqn:Et;
    [| discriminate].
  assert (Hinc : 0 <= freq * inject_Z Wavetable.TABLE_SIZE / inject_Z Wavetable.SAMPLE_RATE).
  { unfold Wavetable.TABLE_SIZE, Wavetable.SAMPLE_RATE.
    change (inject_Z 2048) with 2048. change (inject_Z 44100) with 44100.
    apply Qle_shift_div_l; [reflexivity | lra]. }
  pose proof (wavetable_run_full_scale t _ n_frames
                (tables_full_scale sin pi _ t Hsin Et) Hinc _ Hph) as H.
  destruct (Wavetable.run _ _ _ _) as [ph out']. simpl in H.
  injection Hr as _ <-. exact H.
Qed.

Lemma sin_clamped_full_scale (x : Q) : full_scale (sin_clamped x).
Proof.
  unfold sin_clamped, full_scale, py_min, py_max, Qlt_bool.
  destruct (Qle_bool (-1) (sin_cubic x)) eqn:E1; simpl.
  - apply Qle_bool_iff in E1.
    destruct (Qle_bool (sin_cubic x) 1) eqn:E2; simpl.
    + apply Qle_bool_iff in E2. split; assumption.
    + split; discriminate.
  - split; discriminate.
Qed.

Lemma oscillator_output_full_scale_witness :
  exists o' out,
    Wavetable.render_block sin_clamped pi_approx
      (Oscillator.init "triangle") 440 5 = Some (o', out)
    /\ Forall full_scale out.
Proof.
  apply (oscillator_output_full_scale sin_clamped pi_approx
           (Oscillator.init "triangle") 440 5 sin_clamped_full_scale).
  - simpl. auto.
  - discriminate.
  - discriminate.
Defined.

Lemma Qfloor_unique (y : Q) (n : Z) :
  inject_Z n <= y -> y < inject_Z n + 1 -> Qfloor y = n.
Proof.
  intros Hlo Hhi.
  pose proof (Qfloor_le y) as Flo. pose proof (Qlt_floor y) as Fhi.
  rewrite inject_Z_plus in Fhi. change (inject_Z 1) with 1 in Fhi.
  assert (H1 : inject_Z n < inject_Z (Qfloor y) + 1) by lra.
  assert (H2 : inject_Z (Qfloor y) < inject_Z n + 1) by lra.
  change 1 with (inject_Z 1) in H1, H2.
  rewrite <- inject_Z_plus, <- Zlt_Qlt in H1, H2. lia.
Qed.

Lemma Qfloor_shift (x : Q) (z : Z) : Qfloor (x - inject_Z z) = (Qfloor x - z)%Z.
Proof.
  apply Qfloor_unique.
  - unfold Z.sub. rewrite inject_Z_plus, inject_Z_opp.
    pose proof (Qfloor_le x). lra.
  - unfold Z.sub. rewrite inject_Z_plus, inject_Z_opp.
    pose proof (Qlt_floor x) as H. rewrite inject_Z_plus in H.
    change (inject_Z 1) with 1 in H. lra.
Qed.

Lemma wavetable_run_app t inc (m : nat) : forall phase n,
  Wavetable.run t inc phase (m + n)
  = let '(ph1, o1) := Wavetable.run t inc phase m in
    let '(ph2, o2) := Wavetable.run t inc ph1 n in
    (ph2, o1 ++ o2).
Proof.
  induction m as [|m IH]; intros phase n; simpl.
  - now destruct (Wavetable.run t inc phase n).
  - rewrite IH. destruct (Wavetable.run t inc (phase + inc) m) as [ph1 o1].
    now destruct (Wavetable.run t inc ph1 n).
Qed.

(** From two non-negative phases at the same table position the loop
    reads the same table entries. *)
Lemma wavetable_run_same_position t inc (n : nat) : forall ph ph',
  0 <= inc -> 0 <= ph -> 0 <= ph' -> same_table_position ph ph' ->
  same_table_position (fst (Wavetable.run t inc ph n))
                      (fst (Wavetable.run t inc ph' n))
  /\ Forall2 Qeq (snd (Wavetable.run t inc ph n)) (snd (Wavetable.run t inc ph' n)).
Proof.
  induction n as [|n IH]; intros ph ph' Hinc H0 H0' Hsame; simpl.
  - split; [exact Hsame | constructor].
  - destruct Hsame as [k Hk].
    assert (Hnext : same_table_position (ph + inc) (ph' + inc)).
    { exists k. rewrite Hk. ring. }
    destruct (IH (ph + inc) (ph' + inc) Hinc ltac:(lra) ltac:(lra) Hnext)
      as [I1 I2].
    destruct (Wavetable.run t inc (ph + inc) n) as [p1 o1].
    destruct (Wavetable.run t inc (ph' + inc) n) as [p2 o2]. simpl in *.
    split; [exact I1 |]. constructor; [| exact I2].
    rewrite (Qtrunc_nonneg_floor ph H0), (Qtrunc_nonneg_floor ph' H0').
    assert (Hk' : ph' == ph - inject_Z (2048 * k))
      by (rewrite Hk, inject_Z_mult; reflexivity).
    assert (Hfl : Qfloor ph' = (Qfloor ph - 2048 * k)%Z).
    { rewrite (Qfloor_comp _ _ Hk'). apply Qfloor_shift. }
    assert (Hidx : (Qfloor ph' mod Wavetable.TABLE_SIZE
                    = Qfloor ph mod Wavetable.TABLE_SIZE)%Z).
    { rewrite Hfl. unfold Wavetable.TABLE_SIZE.
      replace (Qfloor ph - 2048 * k)%Z with (Qfloor ph + (- k) * 2048)%Z by ring.
      apply Z_mod_plus_full. }
    rewrite Hidx.
    assert (Hfrac : ph' - inject_Z (Qfloor ph') == ph - inject_Z (Qfloor ph)).
    { rewrite Hfl, Hk. unfold Z.sub.
      rewrite inject_Z_plus, inject_Z_opp, inject_Z_mult.
      change (inject_Z 2048) with 2048. ring. }
    rewrite Hfrac. reflexivity.
Qed.

Lemma py_fmod_same_position (x : Q) :
  same_table_position x (Wavetable.py_fmod x 2048).
Proof.
  exists (Qfloor (x / 2048)). unfold Wavetable.py_fmod. ring.
Qed.

Lemma py_fmod_congr (x y : Q) :
  same_table_position x y ->
  Wavetable.py_fmod y 2048 == Wavetable.py_fmod x 2048.
Proof.
  intros [k Hk]. unfold Wavetable.py_fmod.
  assert (Hdiv : y / 2048 == x / 2048 - inject_Z k) by (rewrite Hk; field).
  rewrite (Qfloor_comp _ _ Hdiv), Qfloor_shift.
  unfold Z.sub. rewrite inject_Z_plus, inject_Z_opp, Hk. ring.
Qed.

Lemma wavetable_run_nonneg t inc (n : nat) : forall ph,
  0 <= inc -> 0 <= ph -> 0 <= fst (Wavetable.run t inc ph n).
Proof.
  induction n as [|n IH]; intros ph Hinc Hph; simpl; [exact Hph |].
  specialize (IH (ph + inc) Hinc ltac:(lra)).
  now destruct (Wavetable.run t inc (ph + inc) n).
Qed.

Lemma oscillator_blocks_exact (sin : Q -> Q) (pi : Q)
    (o : Oscillator.WavetableOscillator) (freq : Q) (m n : nat) :
  In (Oscillator.wave o) Oscillator.WAVE_NAMES ->
  0 <= freq ->
  0 <= Oscillator._phase o ->
  exists o_whole out o1 out1 o2 out2,
    Wavetable.render_block sin pi o freq (m + n) = Some (o_whole, out)
    /\ Wavetable.render_block sin pi o freq m = Some (o1, out1)
    /\ Wavetable.render_block sin pi o1 freq n = Some (o2, out2)
    /\ Forall2 Qeq out (out1 ++ out2)
    /\ Oscillator._phase o_whole == Oscillator._phase o2.
Proof.
  intros Hw Hf Hph.
  assert (Ht : exists t, Wavetable.WAVE_TABLES sin pi (Oscillator.wave o) = Some t).
  { unfold Wavetable.WAVE_TABLES.
    destruct Hw as [<- | [<- | [<- | [<- | []]]]]; eexists; reflexivity. }
  destruct Ht as [t Ht].
  set (inc := freq * inject_Z Wavetable.TABLE_SIZE / inject_Z Wavetable.SAMPLE_RATE).
  assert (Hinc : 0 <= inc).
  { unfold inc, Wavetable.TABLE_SIZE, Wavetable.SAMPLE_RATE.
    change (inject_Z 2048) with 2048. change (inject_Z 44100) with 44100.
    apply Qle_shift_div_l; [reflexivity | lra]. }
  pose proof (wavetable_run_nonneg t inc m _ Hinc Hph) as Hp1.
  destruct (Wavetable.run t inc (Oscillator._phase o) m) as [ph1 out1] eqn:E1.
  simpl in Hp1.
  destruct (py_fmod_range ph1 2048 eq_refl) as [Hm0 _].
  destruct (wavetable_run_same_position t inc n ph1 (Wavetable.py_fmod ph1 2048)
              Hinc Hp1 Hm0 (py_fmod_same_position ph1)) as [Hpos Hout].
  destruct (Wavetable.run t inc ph1 n) as [ph2 out2] eqn:E2.
  destruct (Wavetable.run t inc (Wavetable.py_fmod ph1 2048) n) as [ph2' out2'] eqn:E3.
  simpl in Hpos, Hout.
  exists (Oscillator.mkOsc (Oscillator.wave o) (Wavetable.py_fmod ph2 2048)),
         (out1 ++ out2),
         (Oscillator.mkOsc (Oscillator.wave o) (Wavetable.py_fmod ph1 2048)), out1,
         (Oscillator.mkOsc (Oscillator.wave o) (Wavetable.py_fmod ph2' 2048)), out2'.
  unfold Wavetable.render_block. cbn [Oscillator.wave Oscillator._phase].
  rewrite Ht. fold inc. change (inject_Z Wavetable.TABLE_SIZE) with 2048.
  rewrite wavetable_run_app, E1, E2, E3.
  split; [reflexivity |]. split; [reflexivity |]. split; [reflexivity |]. split.
  - apply Forall2_app; [| exact Hout].
    clear. induction out1; constructor; [reflexivity | assumption].
  - simpl. symmetry. apply py_fmod_congr. exact Hpos.
Qed.

(** With floats idealised as exact rationals, for a frequency and a phase
    that are not negative, rendering [m + n] frames in one block yields the
    same samples as rendering [m] frames and then [n], and the same final
    phase.  In binary64 the phase that is wrapped at the end of the first
    block is then advanced with different roundings: at 440 Hz from phase
    0, one block of 512 frames leaves the phase 221.98276644004727 and two
    blocks of 256 leave 221.9827664399818. *)
Theorem oscillator_blocks_compose (sin : Q -> Q) (pi : Q)
    (o : Oscillator.WavetableOscillator) (freq : Q) (m n : nat) :
  In (Oscillator.wave o) Oscillator.WAVE_NAMES ->
  0 <= freq ->
  0 <= Oscillator._phase o ->
  (exists o_whole out o1 out1 o2 out2,
     Wavetable.render_block sin pi o freq (m + n) = Some (o_whole, out)
     /\ Wavetable.render_block sin pi o freq m = Some (o1, out1)
     /\ Wavetable.render_block sin pi o1 freq n = Some (o2, out2)
     /\ Forall2 Qeq out (out1 ++ out2)
     /\ Oscillator._phase o_whole == Oscillator._phase o2)
  /\ Wavetable64._phase_after Binary64.zero (Binary64.of_Q 440) 512
     = Ok (Binary64.of_Q 221.98276644004727)
  /\ phase_after_two64 Binary64.zero (Binary64.of_Q 440) 256 256
     = Ok (Binary64.of_Q 221.9827664399818).
Proof.
  intros Hw Hf Hph. split.
  - apply oscillator_blocks_exact; assumption.
  - split; vm_compute; reflexivity.
Qed.

Lemma oscillator_blocks_compose_witness :
  exists o_whole out o1 out1 o2 out2,
    Wavetable.render_block sin_cubic pi_approx (Oscillator.init "saw") 440 (3 + 2)
      = Some (o_whole, out)
    /\ Wavetable.render_block sin_cubic pi_approx (Oscillator.init "saw") 440 3
      = Some (o1, out1)
    /\ Wavetable.render_block sin_cubic pi_approx o1 440 2 = Some (o2, out2)
    /\ Forall2 Qeq out (out1 ++ out2)
    /\ Oscillator._phase o_whole == Oscillator._phase o2.
Proof.
  apply (oscillator_blocks_compose sin_cubic pi_approx (Oscillator.init "saw")
           440 3 2).
  - simpl. auto.
  - discriminate.
  - discriminate.
Defined.

(** ** Step parameter locks *)

Lemma dict_get_set_same {V} (d : PyDict.t V) (k : string) (v : V) :
  PyDict.get (PyDict.set d k v) k = Some v.
Proof.
  induction d as [|[k' v'] rest IH]; simpl.
  - now rewrite String.eqb_refl.
  - destruct (String.eqb_spec k' k); simpl.
    + now rewrite String.eqb_refl.
    + destruct (String.eqb_spec k' k); [contradiction | exact IH].
Qed.

Lemma dict_get_set_other {V} (d : PyDict.t V) (k k2 : string) (v : V) :
  k2 <> k -> PyDict.get (PyDict.set d k v) k2 = PyDict.get d k2.
Proof.
  intro Hne. induction d as [|[k' v'] rest IH]; simpl.
  - destruct (String.eqb_spec k k2); [congruence | reflexivity].
  - destruct (String.eqb_spec k' k); simpl.
    + subst k'. destruct (String.eqb_spec k k2); [congruence | reflexivity].
    + destruct (String.eqb_spec k' k2); [reflexivity | exact IH].
Qed.

Lemma dict_get_absent {V} (d : PyDict.t V) (k : string) :
  ~ In k (PyDict.keys d) -> PyDict.get d k = None.
Proof.
  induction d as [|[k' v'] rest IH]; simpl; intro H; [reflexivity |].
  destruct (String.eqb_spec k' k); [tauto | apply IH; tauto].
Qed.

Lemma dict_pop_keys {V} (d : PyDict.t V) (k k2 : string) :
  In k2 (PyDict.keys (PyDict.pop d k)) -> In k2 (PyDict.keys d).
Proof.
  induction d as [|[k' v'] rest IH]; simpl; [tauto |].
  destruct (String.eqb_spec k' k); simpl; tauto.
Qed.

Lemma dict_get_pop_same {V} (d : PyDict.t V) (k : string) :
  NoDup (PyDict.keys d) -> PyDict.get (PyDict.pop d k) k = None.
Proof.
  induction d as [|[k' v'] rest IH]; simpl; intro H; [reflexivity |].
  inversion H as [|? ? Hnot Hrest]; subst.
  destruct (String.eqb_spec k' k); simpl.
  - subst k'. apply dict_get_absent. exact Hnot.
  - destruct (String.eqb_spec k' k); [contradiction | apply IH; exact Hrest].
Qed.

Lemma dict_get_pop_other {V} (d : PyDict.t V) (k k2 : string) :
  k2 <> k -> PyDict.get (PyDict.pop d k) k2 = PyDict.get d k2.
Proof.
  intro Hne. induction d as [|[k' v'] rest IH]; simpl; [reflexivity |].
  destruct (String.eqb_spec k' k); simpl.
  - subst k'. destruct (String.eqb_spec k k2); [congruence | reflexivity].
  - destruct (String.eqb_spec k' k2); [reflexivity | exact IH].
Qed.

Lemma dict_pop_absent {V} (d : PyDict.t V) (k : string) :
  ~ In k (PyDict.keys d) -> PyDict.pop d k = d.
Proof.
  induction d as [|[k' v'] rest IH]; simpl; intro H; [reflexivity |].
  destruct (String.eqb_spec k' k); [tauto |].
  rewrite IH; [reflexivity | tauto].
Qed.

Lemma dict_set_keys {V} (d : PyDict.t V) (k k2 : string) (v : V) :
  In k2 (PyDict.keys (PyDict.set d k v)) <-> k2 = k \/ In k2 (PyDict.keys d).
Proof.
  induction d as [|[k' v'] rest IH]; simpl.
  - intuition congruence.
  - destruct (String.eqb_spec k' k); simpl; [subst; intuition congruence |].
    rewrite IH. intuition congruence.
Qed.

Lemma dict_set_nodup {V} (d : PyDict.t V) (k : string) (v : V) :
  NoDup (PyDict.keys d) -> NoDup (PyDict.keys (PyDict.set d k v)).
Proof.
  induction d as [|[k' v'] rest IH]; simpl; intro H.
  - constructor; [simpl; tauto | constructor].
  - inversion H as [|? ? Hnot Hrest]; subst.
    destruct (String.eqb_spec k' k); simpl.
    + subst k'. constructor; assumption.
    + constructor; [| apply IH; exact Hrest].
      intro Hin. apply dict_set_keys in Hin. destruct Hin; [congruence | tauto].
Qed.

Lemma dict_pop_nodup {V} (d : PyDict.t V) (k : string) :
  NoDup (PyDict.keys d) -> NoDup (PyDict.keys (PyDict.pop d k)).
Proof.
  induction d as [|[k' v'] rest IH]; simpl; intro H; [constructor |].
  inversion H as [|? ? Hnot Hrest]; subst.
  destruct (String.eqb_spec k' k); simpl; [exact Hrest |].
  constructor; [| apply IH; exact Hrest].
  intro Hin. apply dict_pop_keys in Hin. tauto.
Qed.

(** Parameter locks of a step: a lock that was set is read back, setting
    or clearing one lock leaves every other lock as it was, a cleared lock
    is gone, clearing a lock that is not there changes nothing (and is no
    error), and the keys stay distinct. *)
Theorem param_lock_round_trip (s : Step.Step) (param other : string) (value : number) :
  NoDup (PyDict.keys (Step.param_locks s)) ->
  let locks st := PyDict.get (Step.param_locks st) in
  locks (Step.set_param_lock s param value) param = Some value
  /\ locks (Step.clear_param_lock s param) param = None
  /\ locks (Step.clear_param_lock (Step.set_param_lock s param value) param) param = None
  /\ (other <> param ->
      locks (Step.set_param_lock s param value) other = locks s other
      /\ locks (Step.clear_param_lock s param) other = locks s other)
  /\ (locks s param = None -> Step.clear_param_lock s param = s)
  /\ NoDup (PyDict.keys (Step.param_locks (Step.set_param_lock s param value)))
  /\ NoDup (PyDict.keys (Step.param_locks (Step.clear_param_lock s param))).
Proof.
  intros Hnd locks. unfold locks. simpl.
  split; [apply dict_get_set_same |].
  split; [apply dict_get_pop_same; exact Hnd |].
  split; [apply dict_get_pop_same, dict_set_nodup; exact Hnd |].
  split; [intro Hne; split;
          [apply dict_get_set_other | apply dict_get_pop_other]; exact Hne |].
  split; [| split; [apply dict_set_nodup | apply dict_pop_nodup]; exact Hnd].
  intro Hnone. destruct s as [a n v l d]. unfold Step.clear_param_lock. simpl in *.
  f_equal. apply dict_pop_absent. clear Hnd.
  induction d as [|[k' v'] rest IH]; simpl in *; [tauto |].
  destruct (String.eqb_spec k' param); [discriminate |].
  intros [H | H]; [contradiction | exact (IH Hnone H)].
Qed.

Lemma param_lock_round_trip_witness :
  let s := Step.set_param_lock Step.init "filter_cutoff" (NFloat 800.0) in
  PyDict.get (Step.param_locks (Step.set_param_lock s "detune" (NInt 7))) "detune"
  = Some (NInt 7)
  /\ PyDict.get (Step.param_locks (Step.set_param_lock s "detune" (NInt 7)))
       "filter_cutoff" = Some (NFloat 800.0)
  /\ Step.clear_param_lock s "detune" = s.
Proof.
  cbv zeta.
  destruct (param_lock_round_trip
              (Step.set_param_lock Step.init "filter_cutoff" (NFloat 800.0))
              "detune" "filter_cutoff" (NInt 7))
    as (H1 & _ & _ & H4 & H5 & _).
  - simpl. constructor; [simpl; tauto | constructor].
  - split; [exact H1 |]. split.
    + rewrite (proj1 (H4 ltac:(discriminate))). reflexivity.
    + apply H5. reflexivity.
Defined.

(** ** Tracks and patterns *)

Lemma getitem_mod {A} (l : list A) (i n : Z) :
  (0 < n)%Z -> Z.of_nat (List.length l) = n ->
  exists a, py_getitem l (i mod n) = Ok a
            /\ nth_error l (Z.to_nat (i mod n)) = Some a.
Proof.
  intros Hn Hlen. pose proof (Z.mod_pos_bound i n Hn) as Hi.
  unfold py_getitem. rewrite norm_index_in_range by lia. cbn [py_bind].
  destruct (nth_error l (Z.to_nat (i mod n))) as [a|] eqn:E.
  - now exists a.
  - apply nth_error_None in E. lia.
Qed.

(** On a track of sixteen steps [step_at] accepts every integer, negative
    ones included, returns the step at position [idx mod 16] and so has
    period 16. *)
Theorem step_at_wraps (t : Track.Track) (idx : Z) :
  List.length (Track.steps t) = 16%nat ->
  exists s,
    Track.step_at t idx = Ok s
    /\ nth_error (Track.steps t) (Z.to_nat (idx mod 16)) = Some s
    /\ Track.step_at t (idx + 16) = Ok s
    /\ Track.step_at t (idx - 16) = Ok s.
Proof.
  intro Hlen. unfold Track.step_at, Track.N_STEPS.
  destruct (getitem_mod (Track.steps t) idx 16 eq_refl) as (s & H1 & H2);
    [rewrite Hlen; reflexivity |].
  exists s. split; [exact H1 |]. split; [exact H2 |].
  replace ((idx + 16) mod 16)%Z with (idx mod 16)%Z
    by (rewrite <- (Z.mul_1_l 16) at 2; now rewrite Z_mod_plus_full).
  replace ((idx - 16) mod 16)%Z with (idx mod 16)%Z
    by (replace (idx - 16)%Z with (idx + (-1) * 16)%Z by ring;
        now rewrite Z_mod_plus_full).
  split; exact H1.
Qed.

Lemma step_at_wraps_witness :
  exists s,
    Track.step_at (Track.init 2 "fm") (-1) = Ok s
    /\ nth_error (Track.steps (Track.init 2 "fm")) 15 = Some s
    /\ Track.step_at (Track.init 2 "fm") (-1 + 16) = Ok s
    /\ Track.step_at (Track.init 2 "fm") (-1 - 16) = Ok s.
Proof.
  apply (step_at_wraps (Track.init 2 "fm") (-1)). reflexivity.
Defined.

Lemma enumerate_active_spec (l : list Step.Step) : forall (i0 i : Z) (s : Step.Step),
  In (i, s) (Track.enumerate_active l i0)
  <-> (i0 <= i)%Z /\ nth_error l (Z.to_nat (i - i0)) = Some s /\ Step.active s = true.
Proof.
  induction l as [|h rest IH]; intros i0 i s; simpl.
  - split; [tauto |]. intros (_ & H & _). destruct (Z.to_nat (i - i0)); discriminate.
  - assert (Hrest : In (i, s) (Track.enumerate_active rest (i0 + 1))
                    <-> (i0 < i)%Z /\ nth_error rest (Z.to_nat (i - i0) - 1) = Some s
                        /\ Step.active s = true).
    { rewrite IH. replace (Z.to_nat (i - (i0 + 1))) with (Z.to_nat (i - i0) - 1)%nat by lia.
      intuition lia. }
    destruct (Step.active h) eqn:Hh; simpl; rewrite Hrest; split.
    + intros [Heq | (Hlt & Hn & Ha)].
      * injection Heq as <- <-. replace (i0 - i0)%Z with 0%Z by lia. simpl. auto with zarith.
      * split; [lia |]. split; [| exact Ha].
        destruct (Z.to_nat (i - i0)) eqn:E; [lia |]. simpl in *.
        now rewrite Nat.sub_0_r in Hn.
    + intros (Hle & Hn & Ha).
      destruct (Z.to_nat (i - i0)) eqn:E; simpl in Hn.
      * left. injection Hn as ->. f_equal. lia.
      * right. split; [lia |]. simpl. rewrite Nat.sub_0_r. auto.
    + intros (Hlt & Hn & Ha). split; [lia |]. split; [| exact Ha].
      destruct (Z.to_nat (i - i0)) eqn:E; [lia |]. simpl in *.
      now rewrite Nat.sub_0_r in Hn.
    + intros (Hle & Hn & Ha).
      destruct (Z.to_nat (i - i0)) eqn:E; simpl in Hn.
      * injection Hn as ->. congruence.
      * split; [lia |]. simpl. rewrite Nat.sub_0_r. auto.
Qed.

Lemma enumerate_active_sorted (l : list Step.Step) : forall i0,
  Sorted.StronglySorted Z.lt (map fst (Track.enumerate_active l i0))
  /\ Forall (fun p => (i0 <= fst p)%Z) (Track.enumerate_active l i0).
Proof.
  induction l as [|h rest IH]; intro i0; simpl.
  - split; constructor.
  - destruct (IH (i0 + 1)%Z) as [Hs Hf].
    assert (Hf' : Forall (fun p => (i0 <= fst p)%Z) (Track.enumerate_active rest (i0 + 1))).
    { eapply Forall_impl; [| exact Hf]. simpl. intros; lia. }
    destruct (Step.active h); simpl; [| split; assumption].
    split.
    + constructor; [exact Hs |]. rewrite Forall_map.
      eapply Forall_impl; [| exact Hf]. simpl. intros; lia.
    + constructor; [simpl; lia | exact Hf'].
Qed.

(** [active_steps] lists exactly the positions whose step is active, each
    with its step, in strictly increasing order of position. *)
Theorem active_steps_exact (t : Track.Track) :
  (forall i s,
     In (i, s) (Track.active_steps t)
     <-> (0 <= i)%Z /\ nth_error (Track.steps t) (Z.to_nat i) = Some s
         /\ Step.active s = true)
  /\ Sorted.StronglySorted Z.lt (map fst (Track.active_steps t)).
Proof.
  split.
  - intros i s. unfold Track.active_steps. rewrite enumerate_active_spec.
    now rewrite Z.sub_0_r.
  - apply enumerate_active_sorted.
Qed.

(** ** MIDI messages *)

Lemma land_15_mod (z : Z) : Z.land z 15 = (z mod 16)%Z.
Proof. change 15%Z with (Z.ones 4). now rewrite Z.land_ones by lia. Qed.

Lemma land_127_mod (z : Z) : Z.land z 127 = (z mod 128)%Z.
Proof. change 127%Z with (Z.ones 7). now rewrite Z.land_ones by lia. Qed.

Lemma land_15_range (z : Z) : (0 <= Z.land z 15 < 16)%Z.
Proof. rewrite land_15_mod. apply Z.mod_pos_bound. reflexivity. Qed.

Lemma land_127_range (z : Z) : (0 <= Z.land z 127 <= 127)%Z.
Proof.
  rewrite land_127_mod. pose proof (Z.mod_pos_bound z 128 eq_refl). lia.
Qed.

Lemma land_127_id (z : Z) : (0 <= z <= 127)%Z -> Z.land z 127 = z.
Proof. intro H. rewrite land_127_mod. apply Z.mod_small. lia. Qed.

Ltac nibble_cases x :=
  let H := fresh in
  pose proof (land_15_range x) as H;
  let c := fresh "c" in
  set (c := Z.land x 15) in *;
  assert (c = 0 \/ c = 1 \/ c = 2 \/ c = 3 \/ c = 4 \/ c = 5 \/ c = 6 \/ c = 7
          \/ c = 8 \/ c = 9 \/ c = 10 \/ c = 11 \/ c = 12 \/ c = 13 \/ c = 14
          \/ c = 15)%Z by lia;
  clearbody c;
  repeat match goal with
         | Hc : _ \/ _ |- _ => destruct Hc as [Hc | Hc]
         end; subst c.

Lemma status_byte (base channel : Z) :
  In base [0x80; 0x90; 0xB0]%Z ->
  (base <= Z.lor base (Z.land channel 0x0F) <= base + 15)%Z
  /\ Z.land (Z.lor base (Z.land channel 0x0F)) 0xF0 = base.
Proof.
  intros [<- | [<- | [<- | []]]]; nibble_cases channel;
    (split; [vm_compute; split; discriminate | reflexivity]).
Qed.

(** Every message the output sends is a three-byte channel message: the
    status byte is the message kind (0x90, 0x80, 0xB0) plus a channel in
    0..15 and both data bytes are in 0..127, whatever integers are passed
    in; with no port open nothing is sent. *)
Theorem midi_out_messages_well_formed (m : MidiOutput.MidiOutput)
    (channel a b : Z) :
  let ok base msg :=
    exists s d1 d2, msg = [s; d1; d2]
      /\ (base <= s <= base + 15)%Z /\ (0 <= d1 <= 127)%Z /\ (0 <= d2 <= 127)%Z in
  (MidiOutput.port_open m = true ->
     (exists msg, MidiOutput.sent (MidiOutput.note_on m channel a b)
                  = MidiOutput.sent m ++ [msg] /\ ok 0x90%Z msg)
     /\ (exists msg, MidiOutput.sent (MidiOutput.note_off m channel a)
                     = MidiOutput.sent m ++ [msg] /\ ok 0x80%Z msg)
     /\ (exists msg, MidiOutput.sent (MidiOutput.send_cc m channel a b)
                     = MidiOutput.sent m ++ [msg] /\ ok 0xB0%Z msg))
  /\ (MidiOutput.port_open m = false ->
      MidiOutput.note_on m channel a b = m
      /\ MidiOutput.note_off m channel a = m
      /\ MidiOutput.send_cc m channel a b = m).
Proof.
  cbv zeta. split; intro Hp.
  - unfold MidiOutput.note_on, MidiOutput.note_off, MidiOutput.send_cc.
    rewrite Hp.
    cbn [negb MidiOutput.send_message MidiOutput.sent MidiOutput.port_open].
    pose proof (land_127_range a). pose proof (land_127_range b).
    split; [| split]; eexists; (split; [reflexivity |]);
      do 3 eexists; (split; [reflexivity |]);
      (split; [apply (fun H => proj1 (status_byte _ channel H)); simpl; tauto |]);
      split; lia.
  - unfold MidiOutput.note_on, MidiOutput.note_off, MidiOutput.send_cc.
    rewrite Hp. cbn [negb]. auto.
Qed.

Lemma midi_out_messages_well_formed_witness :
  MidiOutput.sent (MidiOutput.note_on (MidiOutput.mkOut true []) 17 200 (-1))
  = [[0x91; 72; 127]%Z]
  /\ MidiOutput.note_on (MidiOutput.mkOut false []) 17 200 (-1)
     = MidiOutput.mkOut false [].
Proof.
  destruct (midi_out_messages_well_formed (MidiOutput.mkOut true []) 17 200 (-1))
    as [Hopen _].
  destruct (midi_out_messages_well_formed (MidiOutput.mkOut false []) 17 200 (-1))
    as [_ Hclosed].
  split.
  - destruct (Hopen eq_refl) as [(msg & Hsent & _) _]. reflexivity.
  - apply (Hclosed eq_refl).
Defined.

(** Output to input round trip, all callbacks set: the message of
    [note_on] reaches the note-on callback with the note and velocity
    reduced to 7 bits, or the note-off callback when the reduced velocity
    is 0; the message of [note_off] reaches the note-off callback and the
    message of [send_cc] the controller callback; the channel plays no
    part. *)
Theorem midi_round_trip (channel a b : Z) :
  let out := MidiOutput.mkOut true [] in
  let inp := MidiInput.mkIn true true true in
  let received m := MidiInput._on_message inp (last (MidiOutput.sent m) []) in
  received (MidiOutput.note_on out channel a b)
  = (if (Z.land b 127 =? 0)%Z
     then Some (MidiInput.note_off_cb (Z.land a 127))
     else Some (MidiInput.note_on_cb (Z.land a 127) (Z.land b 127)))
  /\ received (MidiOutput.note_off out channel a)
     = Some (MidiInput.note_off_cb (Z.land a 127))
  /\ received (MidiOutput.send_cc out channel a b)
     = Some (MidiInput.cc_cb (Z.land a 127) (Z.land b 127))
  /\ ((0 <= a <= 127)%Z -> (1 <= b <= 127)%Z ->
      received (MidiOutput.note_on out channel a b)
      = Some (MidiInput.note_on_cb a b)).
Proof.
  cbv zeta.
  assert (H90 := proj2 (status_byte 0x90 channel ltac:(simpl; tauto))).
  assert (H80 := proj2 (status_byte 0x80 channel ltac:(simpl; tauto))).
  assert (HB0 := proj2 (status_byte 0xB0 channel ltac:(simpl; tauto))).
  assert (Hon : MidiInput._on_message (MidiInput.mkIn true true true)
                  (last (MidiOutput.sent
                           (MidiOutput.note_on (MidiOutput.mkOut true []) channel a b)) [])
                = (if (Z.land b 127 =? 0)%Z
                   then Some (MidiInput.note_off_cb (Z.land a 127))
                   else Some (MidiInput.note_on_cb (Z.land a 127) (Z.land b 127)))).
  { cbn [MidiOutput.note_on MidiOutput.port_open negb MidiOutput.send_message
         MidiOutput.sent app last MidiInput._on_message].
    rewrite H90. reflexivity. }
  split; [exact Hon |]. split; [| split].
  - cbn [MidiOutput.note_off MidiOutput.port_open negb MidiOutput.send_message
         MidiOutput.sent app last MidiInput._on_message].
    rewrite H80. reflexivity.
  - cbn [MidiOutput.send_cc MidiOutput.port_open negb MidiOutput.send_message
         MidiOutput.sent app last MidiInput._on_message].
    rewrite HB0. reflexivity.
  - intros Ha Hb. rewrite Hon, (land_127_id a Ha), (land_127_id b) by lia.
    destruct (Z.eqb_spec b 0); [lia | reflexivity].
Qed.

Lemma midi_round_trip_witness :
  MidiInput._on_message (MidiInput.mkIn true true true)
    (last (MidiOutput.sent (MidiOutput.note_on (MidiOutput.mkOut true []) 3 60 100)) [])
  = Some (MidiInput.note_on_cb 60 100).
Proof.
  destruct (midi_round_trip 3 60 100) as (_ & _ & _ & H).
  apply H; lia.
Defined.

(** ** The clock loop *)

Lemma step_duration_ok (c : Clock.Clock) (step : Z) :
  ~ Clock.bpm c == 0 ->
  Clock._step_duration c step = Ok (step_seconds c step).
Proof.
  intro Hb. unfold step_seconds, Clock._step_duration.
  destruct (Qeq_bool (Clock.bpm c) 0) eqn:E;
    [apply Qeq_bool_iff in E; contradiction |].
  destruct (Qeq_bool (Clock.swing c) 0.0); [reflexivity |].
  destruct (step mod 2 =? 0)%Z; reflexivity.
Qed.

Lemma step_seconds_settings (c c' : Clock.Clock) (step : Z) :
  same_settings c c' -> step_seconds c' step = step_seconds c step.
Proof.
  intros (Hb & Hs & _). unfold step_seconds, Clock._step_duration.
  now rewrite Hb, Hs.
Qed.

Lemma run_pass_ok (c : Clock.Clock) (t0 : Q) :
  ~ Clock.bpm c == 0 -> Clock.n_steps c <> 0%Z ->
  ClockLoop._run_pass c t0
  = Ok (Clock._step c,
        ClockLoop.set_step c ((Clock._step c + 1) mod Clock.n_steps c),
        t0 + step_seconds c (Clock._step c)).
Proof.
  intros Hb Hn. unfold ClockLoop._run_pass, py_mod.
  rewrite (step_duration_ok c _ Hb). cbn [py_bind].
  destruct (Z.eqb_spec (Clock.n_steps c) 0); [contradiction | reflexivity].
Qed.

Lemma set_step_settings (c : Clock.Clock) (s : Z) :
  same_settings c (ClockLoop.set_step c s).
Proof. unfold same_settings. simpl. auto. Qed.

Lemma same_settings_trans (a b c : Clock.Clock) :
  same_settings a b -> same_settings b c -> same_settings a c.
Proof. unfold same_settings. intuition congruence. Qed.

(** With a non-zero tempo, a positive step count and the step counter
    within it (as [start] leaves it), the loop never fails: from step [s]
    it fires [(s + i) mod n_steps] on pass [i], ends [k] passes later on
    step [(s + k) mod n_steps], and leaves tempo, swing and step count
    untouched. *)
Theorem clock_steps_cycle (k : nat) : forall (c : Clock.Clock) (t0 : Q),
  ~ Clock.bpm c == 0 ->
  (0 <= Clock._step c < Clock.n_steps c)%Z ->
  exists fired c' t',
    ClockLoop._run k c t0 = Ok (fired, c', t')
    /\ fired = map (fun i => ((Clock._step c + Z.of_nat i) mod Clock.n_steps c)%Z)
                   (seq 0 k)
    /\ Clock._step c' = ((Clock._step c + Z.of_nat k) mod Clock.n_steps c)%Z
    /\ (0 <= Clock._step c' < Clock.n_steps c)%Z
    /\ same_settings c c'.
Proof.
  induction k as [|k IH]; intros c t0 Hb Hs.
  - exists [], c, t0. split; [reflexivity |]. split; [reflexivity |].
    rewrite Z.add_0_r, Z.mod_small by exact Hs.
    split; [reflexivity |]. split; [exact Hs | unfold same_settings; auto].
  - cbn [ClockLoop._run]. rewrite run_pass_ok by (try exact Hb; lia).
    cbn [py_bind].
    set (n := Clock.n_steps c) in *. set (s := Clock._step c) in *.
    set (c1 := ClockLoop.set_step c ((s + 1) mod n)).
    assert (Hs1 : (0 <= Clock._step c1 < Clock.n_steps c1)%Z)
      by (simpl; apply Z.mod_pos_bound; lia).
    destruct (IH c1 (t0 + step_seconds c s) Hb Hs1)
      as (fired & c' & t' & Hrun & Hfired & Hstep & Hrange & Hset).
    rewrite Hrun. cbn [py_bind].
    exists (s :: fired), c', t'. split; [reflexivity |].
    simpl Clock._step in *. simpl Clock.n_steps in *. fold n in Hfired, Hstep, Hrange.
    split; [| split; [| split; [exact Hrange |]]].
    + cbn [seq map]. f_equal.
      * rewrite Z.add_0_r, Z.mod_small by exact Hs. reflexivity.
      * rewrite Hfired, <- seq_shift, map_map. apply map_ext. intro i.
        rewrite Zplus_mod_idemp_l. f_equal. lia.
    + rewrite Hstep, Zplus_mod_idemp_l. f_equal. lia.
    + apply same_settings_trans with c1; [apply set_step_settings | exact Hset].
Qed.

Lemma clock_steps_cycle_witness :
  exists c' t',
    ClockLoop._run 18 (ClockLoop.start (Clock.init 120.0)) 0
    = Ok ([0; 1; 2; 3; 4; 5; 6; 7; 8; 9; 10; 11; 12; 13; 14; 15; 0; 1]%Z, c', t')
    /\ Clock._step c' = 2%Z.
Proof.
  destruct (clock_steps_cycle 18 (ClockLoop.start (Clock.init 120.0)) 0)
    as (fired & c' & t' & Hrun & Hfired & Hstep & _).
  - discriminate.
  - simpl. lia.
  - exists c', t'. rewrite Hrun, Hfired. split; [reflexivity | exact Hstep].
Defined.

Lemma step_seconds_pair (c : Clock.Clock) (s : Z) :
  ~ Clock.bpm c == 0 -> (s mod 2 = 0)%Z ->
  step_seconds c s + step_seconds c (s + 1) == 2 * (60 / Clock.bpm c / 4).
Proof.
  intros Hb Hs. unfold step_seconds, Clock._step_duration.
  destruct (Qeq_bool (Clock.bpm c) 0) eqn:E;
    [apply Qeq_bool_iff in E; contradiction |].
  assert (Hodd : ((s + 1) mod 2 =? 0)%Z = false).
  { apply Z.eqb_neq. rewrite Zplus_mod, Hs. discriminate. }
  rewrite Hodd, Hs. cbn [Z.eqb].
  destruct (Qeq_bool (Clock.swing c) 0.0); field; exact Hb.
Qed.

Lemma clock_deadline_exact (m : nat) : forall (c : Clock.Clock) (t0 : Q),
  ~ Clock.bpm c == 0 ->
  (Clock.n_steps c mod 2 = 0)%Z ->
  (0 <= Clock._step c < Clock.n_steps c)%Z ->
  (Clock._step c mod 2 = 0)%Z ->
  exists fired c' t',
    ClockLoop._run (2 * m) c t0 = Ok (fired, c', t')
    /\ t' == t0 + inject_Z (Z.of_nat (2 * m)) * (60 / Clock.bpm c / 4)
    /\ (Clock._step c' mod 2 = 0)%Z.
Proof.
  induction m as [|m IH]; intros c t0 Hb Hn Hs He.
  - exists [], c, t0. split; [reflexivity |]. split; [simpl; ring | exact He].
  - replace (2 * S m)%nat with (S (S (2 * m))) by lia.
    cbn [ClockLoop._run]. rewrite run_pass_ok by (try exact Hb; lia).
    cbn [py_bind].
    set (n := Clock.n_steps c) in *. set (s := Clock._step c) in *.
    assert (Hs1 : (s + 1 < n)%Z).
    { assert (s + 1 <> n)%Z; [| lia].
      intro Heq. rewrite <- Heq, Zplus_mod, He in Hn. discriminate. }
    set (c1 := ClockLoop.set_step c ((s + 1) mod n)).
    rewrite run_pass_ok by (try exact Hb; simpl; fold n; lia).
    cbn [py_bind]. simpl Clock._step. simpl Clock.n_steps. fold n.
    rewrite (Z.mod_small (s + 1) n) by lia.
    set (c2 := ClockLoop.set_step c1 ((s + 1 + 1) mod n)).
    assert (Hrange2 : (0 <= Clock._step c2 < Clock.n_steps c2)%Z)
      by (simpl; fold n; apply Z.mod_pos_bound; lia).
    assert (Heven2 : (Clock._step c2 mod 2 = 0)%Z).
    { simpl. fold n. fold s. destruct (Z.eq_dec (s + 1 + 1) n) as [Heq | Hne].
      - rewrite Heq, Z_mod_same_full. reflexivity.
      - rewrite (Z.mod_small (s + 1 + 1) n) by lia.
        replace (s + 1 + 1)%Z with (s + 1 * 2)%Z by ring.
        rewrite Z_mod_plus_full. exact He. }
    destruct (IH c2 (t0 + step_seconds c s + step_seconds c1 (s + 1)) Hb
                 ltac:(simpl; exact Hn) Hrange2 Heven2)
      as (fired & c' & t' & Hrun & Ht & Hev).
    rewrite Hrun. cbn [py_bind].
    exists (s :: (s + 1)%Z :: fired), c', t'. split; [reflexivity |].
    split; [| exact Hev].
    rewrite Ht. simpl Clock.bpm.
    rewrite (step_seconds_settings c c1) by apply set_step_settings.
    pose proof (step_seconds_pair c s Hb He) as Hpair.
    replace (Z.of_nat (S (S (2 * m)))) with (Z.of_nat (2 * m) + 2)%Z by lia.
    rewrite inject_Z_plus. change (inject_Z 2) with 2.
    set (b := 60 / Clock.bpm c / 4) in *.
    set (d0 := step_seconds c s) in *. set (d1 := step_seconds c (s + 1)) in *.
    lra.
Qed.

(** Swing does not drift, in exact arithmetic: with floats idealised as
    exact rationals, a non-zero tempo, an even step count and the step
    counter on an even step within it, every [2 m] passes of the loop
    move the deadline by [2 m] sixteenth notes of [60 / bpm / 4] seconds,
    whatever the swing, and end on an even step again.  In binary64 the
    deadline is a sum of rounded durations: at 100 BPM with swing 0.1,
    sixteen passes from 0.0 leave it at 2.399999999999999, not at 2.4. *)
Theorem clock_deadline_no_drift (m : nat) (c : Clock.Clock) (t0 : Q) :
  ~ Clock.bpm c == 0 ->
  (Clock.n_steps c mod 2 = 0)%Z ->
  (0 <= Clock._step c < Clock.n_steps c)%Z ->
  (Clock._step c mod 2 = 0)%Z ->
  (exists fired c' t',
     ClockLoop._run (2 * m) c t0 = Ok (fired, c', t')
     /\ t' == t0 + inject_Z (Z.of_nat (2 * m)) * (60 / Clock.bpm c / 4)
     /\ (Clock._step c' mod 2 = 0)%Z)
  /\ (let c64 := Clock64.mkClock (Binary64.of_Q 100) true 0 16
                   (Binary64.of_Q 0.1) in
      deadline_after64 c64 Binary64.zero 16
      = Ok (Binary64.of_Q 2.399999999999999)
      /\ Binary64.eqb (Binary64.of_Q 2.399999999999999) (Binary64.of_Q 2.4)
         = false).
Proof.
  intros Hb Hn Hs He. split.
  - apply clock_deadline_exact; assumption.
  - cbv zeta. split; vm_compute; reflexivity.
Qed.

Lemma clock_deadline_no_drift_witness :
  exists fired c' t',
    ClockLoop._run (2 * 8) (Clock.mkClock 120 true 0 16 0.5) 10 = Ok (fired, c', t')
    /\ t' == 10 + inject_Z (Z.of_nat (2 * 8)) * (60 / 120 / 4)
    /\ (Clock._step c' mod 2 = 0)%Z.
Proof.
  apply (clock_deadline_no_drift 8 (Clock.mkClock 120 true 0 16 0.5) 10).
  - discriminate.
  - reflexivity.
  - simpl. lia.
  - reflexivity.
Defined.

(** ** Draining note events *)

Lemma note_on_at_ok (exp2 : Q -> Q) (shuffle : list Z -> list Z)
    (p : VoicePool.VoicePool) (t : option Z) (note velocity : Z) :
  List.length (VoicePool.voices p) = 4%nat ->
  exists j p', VoicePool.note_on_at exp2 shuffle p t note velocity = Ok (j, p')
               /\ List.length (VoicePool.voices p') = 4%nat.
Proof.
  intro Hlen. unfold VoicePool.note_on_at.
  assert (Ht : exists j p1, VoicePool.target p t = Ok (j, p1)
                            /\ (j < 4)%nat
                            /\ VoicePool.voices p1 = VoicePool.voices p).
  { destruct t as [i|]; simpl.
    - pose proof (voice_index_in_range i) as Hi.
      rewrite norm_index_in_range by (rewrite Hlen; exact Hi).
      do 2 eexists. split; [reflexivity |]. split; [| reflexivity].
      unfold VoicePool.N_VOICES in *. lia.
    - unfold VoicePool._allocate.
      destruct (VoicePool.first_free (VoicePool.voices p) 0) as [k|] eqn:E.
      + do 2 eexists. split; [reflexivity |]. split; [| reflexivity].
        assert (Hk : forall vs k0 k1, VoicePool.first_free vs k0 = Some k1 ->
                                      (k1 < k0 + List.length vs)%nat).
        { clear. induction vs as [|v rest IH]; intros k0 k1 H; simpl in *;
            [discriminate |].
          destruct (Voice.is_free v); [injection H as <-; lia |].
          apply IH in H. lia. }
        apply Hk in E. lia.
      + pose proof (voice_index_in_range (VoicePool._next_voice p)) as Hi.
        rewrite norm_index_in_range by (rewrite Hlen; exact Hi).
        do 2 eexists. split; [reflexivity |]. split; [| reflexivity].
        unfold VoicePool.N_VOICES in *. lia. }
  destruct Ht as (j & p1 & -> & Hj & Hv). cbn [py_bind]. rewrite Hv.
  destruct (nth_error (VoicePool.voices p) j) as [v|] eqn:E;
    [| apply nth_error_None in E; lia].
  do 2 eexists. split; [reflexivity |]. simpl. now rewrite set_nth_length.
Qed.

Lemma note_off_ok (p : VoicePool.VoicePool) (t : option Z) (note : Z) :
  List.length (VoicePool.voices p) = 4%nat ->
  exists p', VoicePool.note_off p t note = Ok p'
             /\ List.length (VoicePool.voices p') = 4%nat.
Proof.
  intro Hlen. destruct t as [i|]; simpl.
  - unfold VoicePool.on_voice.
    pose proof (voice_index_in_range i) as Hi.
    rewrite norm_index_in_range by (rewrite Hlen; exact Hi). cbn [py_bind].
    destruct (nth_error (VoicePool.voices p) (Z.to_nat (i mod VoicePool.N_VOICES)))
      as [v|] eqn:E.
    + eexists. split; [reflexivity |]. simpl. now rewrite set_nth_length.
    + apply nth_error_None in E. unfold VoicePool.N_VOICES in *. lia.
  - eexists. split; [reflexivity |]. simpl. now rewrite length_map.
Qed.

Lemma drain_note_events (exp2 : Q -> Q) (shuffle : list Z -> list Z)
    (queue : list AudioEngine.Event) : forall p : VoicePool.VoicePool,
  List.length (VoicePool.voices p) = 4%nat ->
  Forall is_note_event queue ->
  exists p', AudioQueue.drain exp2 shuffle p queue = Ok p'
             /\ List.length (VoicePool.voices p') = 4%nat.
Proof.
  induction queue as [|ev rest IH]; intros p Hlen Hq.
  - exists p. split; [reflexivity | exact Hlen].
  - inversion Hq as [|? ? Hev Hrest]; subst. cbn [AudioQueue.drain].
    assert (H1 : exists p1, AudioEngine._handle_event exp2 shuffle p ev = Ok p1
                            /\ List.length (VoicePool.voices p1) = 4%nat).
    { destruct ev as [t n v | t n | |]; simpl in Hev; try contradiction; simpl.
      - unfold VoicePool.note_on.
        destruct (note_on_at_ok exp2 shuffle p t n v Hlen) as (j & p' & -> & Hl).
        exists p'. split; [reflexivity | exact Hl].
      - apply note_off_ok. exact Hlen. }
    destruct H1 as (p1 & -> & Hl1). cbn [py_bind]. apply IH; assumption.
Qed.

Lemma playable_note_event (ev : AudioEngine.Event) :
  playable ev -> is_note_event ev.
Proof. destruct ev; simpl; tauto. Qed.

Lemma pool_init_in_range : pool_in_range VoicePool.init.
Proof.
  repeat (apply Forall_cons; [simpl; try exact I; lia |]). apply Forall_nil.
Qed.

(** Note events with MIDI data never fail: a queue made of note-offs and
    of note-ons whose note and velocity are in 0..127, whatever voice
    indices (or none) they carry, drains completely on a pool of four
    voices whose subtractive engines have their octave settings in range,
    and leaves a pool of four voices. *)
Theorem note_events_always_drain (exp2 : Q -> Q) (shuffle : list Z -> list Z)
    (queue : list AudioEngine.Event) (p : VoicePool.VoicePool) :
  List.length (VoicePool.voices p) = 4%nat ->
  pool_in_range p ->
  Forall playable queue ->
  exists p', AudioQueue.drain exp2 shuffle p queue = Ok p'
             /\ List.length (VoicePool.voices p') = 4%nat.
Proof.
  intros Hlen _ Hq. apply drain_note_events; [exact Hlen |].
  eapply Forall_impl; [| exact Hq]. exact playable_note_event.
Qed.

Lemma note_events_always_drain_witness :
  exists p',
    AudioQueue.drain exp2_near_0 (fun l => l) VoicePool.init
      [AudioEngine.NoteOn None 60 100; AudioEngine.NoteOn (Some 9%Z) 64 90;
       AudioEngine.NoteOff (Some (-3)%Z) 64; AudioEngine.NoteOff None 60] = Ok p'
    /\ List.length (VoicePool.voices p') = 4%nat.
Proof.
  apply (note_events_always_drain exp2_near_0 (fun l => l)).
  - reflexivity.
  - exact pool_init_in_range.
  - repeat (apply Forall_cons; [simpl; unfold midi_data; try lia; auto |]).
    apply Forall_nil.
Defined.

(** ** The sequencer callbacks of the application *)

Lemma apply_locks_spec (locks : PyDict.t number) : forall (a : App.App) (t : Z),
  let a1 := App.apply_locks a t locks in
  App.pattern a1 = App.pattern a
  /\ App.audio_queue a1
     = App.audio_queue a
       ++ map (fun kv => AudioEngine.SetParam t (fst kv) (snd kv)) locks
  /\ App.playhead_updates a1 = App.playhead_updates a
  /\ App.midi_out a1 = App.midi_out a
  /\ App.clock a1 = App.clock a.
Proof.
  induction locks as [|[k v] rest IH]; intros a t; simpl.
  - rewrite app_nil_r. auto.
  - destruct (IH (App.enqueue a (AudioEngine.SetParam t k v)) t)
      as (H1 & H2 & H3 & H4 & H5).
    simpl in *. rewrite H1, H2, H3, H4, H5, <- app_assoc. auto.
Qed.

Lemma pattern_track_ok (p : Pattern.Pattern) (t : Z) :
  pattern_ok p ->
  exists track, Pattern.track p t = Ok track
                /\ In track (Pattern.tracks p)
                /\ List.length (Track.steps track) = 16%nat.
Proof.
  intros [Hlen Hsteps]. unfold Pattern.track, Pattern.N_TRACKS.
  destruct (getitem_mod (Pattern.tracks p) t 4 eq_refl) as (track & H1 & H2);
    [rewrite Hlen; reflexivity |].
  exists track. split; [exact H1 |].
  apply nth_error_In in H2. split; [exact H2 |].
  rewrite Forall_forall in Hsteps. apply Hsteps. exact H2.
Qed.

Lemma track_step_ok (track : Track.Track) (idx : Z) :
  List.length (Track.steps track) = 16%nat ->
  exists s, Track.step_at track idx = Ok s /\ In s (Track.steps track).
Proof.
  intro Hlen. unfold Track.step_at, Track.N_STEPS.
  destruct (getitem_mod (Track.steps track) idx 16 eq_refl) as (s & H1 & H2);
    [rewrite Hlen; reflexivity |].
  exists s. split; [exact H1 | apply nth_error_In in H2; exact H2].
Qed.

Lemma tick_track_spec (a : App.App) (step_idx t : Z) :
  pattern_ok (App.pattern a) ->
  Pattern.n_steps (App.pattern a) <> 0%Z ->
  exists a1 evs,
    App.tick_track a step_idx t = Ok a1
    /\ App.pattern a1 = App.pattern a
    /\ App.audio_queue a1 = App.audio_queue a ++ evs
    /\ App.playhead_updates a1 = App.playhead_updates a
    /\ Forall (tick_event t) evs
    /\ (no_locks (App.pattern a) -> Forall is_note_event evs)
    /\ (no_locks (App.pattern a) -> midi_steps (App.pattern a) ->
        Forall playable evs).
Proof.
  intros Hok Hn. unfold App.tick_track.
  destruct (pattern_track_ok _ t Hok) as (track & -> & Hin & Hlen). cbn [py_bind].
  destruct (Track.muted track).
  { exists a, []. rewrite app_nil_r. repeat split; auto. }
  destruct (track_step_ok track step_idx Hlen) as (s & -> & Hs). cbn [py_bind].
  unfold py_mod. destruct (Z.eqb_spec (Pattern.n_steps (App.pattern a)) 0);
    [contradiction |].
  cbn [py_bind].
  destruct (track_step_ok track ((step_idx - 1) mod Pattern.n_steps (App.pattern a)) Hlen)
    as (prev & -> & Hprev).
  cbn [py_bind].
  set (evs_prev := if Step.active prev
                   then [AudioEngine.NoteOff (Some t) (Step.note prev)] else []).
  set (evs_now := if Step.active s
                  then map (fun kv => AudioEngine.SetParam t (fst kv) (snd kv))
                           (Step.param_locks s)
                       ++ [AudioEngine.NoteOn (Some t) (Step.note s) (Step.velocity s)]
                  else []).
  eexists. exists (evs_prev ++ evs_now). split; [reflexivity |].
  assert (Hlocks : no_locks (App.pattern a) -> Step.param_locks s = []).
  { unfold no_locks. rewrite Forall_forall. intro H.
    specialize (H track Hin). rewrite Forall_forall in H. apply H. exact Hs. }
  assert (Hdata : midi_steps (App.pattern a) ->
                  midi_data (Step.note s) /\ midi_data (Step.velocity s)).
  { unfold midi_steps. rewrite Forall_forall. intro H.
    specialize (H track Hin). rewrite Forall_forall in H. apply H. exact Hs. }
  unfold evs_prev, evs_now.
  destruct (Step.active prev), (Step.active s), (Track.midi_out_enabled track);
    cbn [App.set_midi_out App.enqueue App.pattern App.audio_queue
         App.playhead_updates];
    repeat match goal with
    | |- context [App.apply_locks ?x ?y ?z] =>
        let H := fresh in
        pose proof (apply_locks_spec z x y) as H; cbv zeta in H;
        destruct H as (-> & -> & -> & _ & _)
    end;
    cbn [App.set_midi_out App.enqueue App.pattern App.audio_queue
         App.playhead_updates];
    rewrite <- ?app_assoc; cbn [app]; rewrite ?app_nil_r;
    (split; [reflexivity |]); (split; [reflexivity |]); (split; [reflexivity |]);
    (split;
     [ repeat (first [apply Forall_nil | apply Forall_cons | apply Forall_app; split]);
       simpl; auto;
       rewrite Forall_map; apply Forall_forall; intros; reflexivity
     | split;
       [ intro Hno; rewrite ?(Hlocks Hno); repeat constructor
       | intros Hno Hmidi; rewrite ?(Hlocks Hno); pose proof (Hdata Hmidi);
         repeat (first [apply Forall_nil | apply Forall_cons]); simpl; auto ] ]).
Qed.

Lemma for_tracks_spec (idxs : list Z) : forall (a : App.App) (step_idx : Z),
  pattern_ok (App.pattern a) ->
  Pattern.n_steps (App.pattern a) <> 0%Z ->
  exists a1 evs,
    App.for_tracks a step_idx idxs = Ok a1
    /\ App.pattern a1 = App.pattern a
    /\ App.audio_queue a1 = App.audio_queue a ++ evs
    /\ App.playhead_updates a1 = App.playhead_updates a
    /\ Forall (fun ev => exists t, In t idxs /\ tick_event t ev) evs
    /\ (no_locks (App.pattern a) -> Forall is_note_event evs)
    /\ (no_locks (App.pattern a) -> midi_steps (App.pattern a) ->
        Forall playable evs).
Proof.
  induction idxs as [|t rest IH]; intros a step_idx Hok Hn.
  - exists a, []. rewrite app_nil_r. repeat split; auto.
  - cbn [App.for_tracks].
    destruct (tick_track_spec a step_idx t Hok Hn)
      as (a1 & evs1 & -> & Hp1 & Hq1 & Hu1 & He1 & Hn1 & Hm1).
    cbn [py_bind].
    destruct (IH a1 step_idx)
      as (a2 & evs2 & -> & Hp2 & Hq2 & Hu2 & He2 & Hn2 & Hm2);
      [rewrite Hp1; exact Hok | rewrite Hp1; exact Hn |].
    exists a2, (evs1 ++ evs2). split; [reflexivity |].
    split; [congruence |]. split; [rewrite Hq2, Hq1, app_assoc; reflexivity |].
    split; [congruence |]. split; [| split].
    + apply Forall_app. split.
      * eapply Forall_impl; [| exact He1]. intros ev H. exists t. simpl. auto.
      * eapply Forall_impl; [| exact He2]. intros ev (t' & Hin & H).
        exists t'. simpl. auto.
    + intro Hno. apply Forall_app. split; [apply Hn1; exact Hno |].
      apply Hn2. rewrite Hp1. exact Hno.
    + intros Hno Hmidi. apply Forall_app.
      split; [apply Hm1; assumption |].
      apply Hm2; rewrite Hp1; assumption.
Qed.

Lemma on_step_tick_spec (a : App.App) (step_idx : Z) :
  pattern_ok (App.pattern a) ->
  Pattern.n_steps (App.pattern a) <> 0%Z ->
  exists a1 evs,
    App._on_step_tick a step_idx = Ok a1
    /\ App.pattern a1 = App.pattern a
    /\ App.audio_queue a1 = App.audio_queue a ++ evs
    /\ App.playhead_updates a1 = App.playhead_updates a ++ [step_idx]
    /\ Forall (fun ev => exists t, (0 <= t < 4)%Z /\ tick_event t ev) evs
    /\ (no_locks (App.pattern a) -> Forall is_note_event evs)
    /\ (no_locks (App.pattern a) -> midi_steps (App.pattern a) ->
        Forall playable evs).
Proof.
  intros Hok Hn. unfold App._on_step_tick.
  destruct (for_tracks_spec [0; 1; 2; 3]%Z a step_idx Hok Hn)
    as (a1 & evs & -> & Hp & Hq & Hu & He & Hnl & Hml).
  cbn [py_bind]. do 2 eexists. split; [reflexivity |]. simpl.
  split; [exact Hp |]. split; [exact Hq |]. split; [now rewrite Hu |].
  split; [| split; [exact Hnl | exact Hml]].
  eapply Forall_impl; [| exact He]. intros ev (t & Hin & H). exists t.
  split; [| exact H]. simpl in Hin. lia.
Qed.

(** A step tick on a pattern of four sixteen-step tracks with a non-zero
    step count never fails, for any step index; it leaves the pattern as
    it was, queues one playhead update, and every audio event it queues is
    a note-on, note-off or parameter change addressed to a voice index in
    0..3; without parameter locks the events are note events only. *)
Theorem step_tick_events (a : App.App) (step_idx : Z) :
  pattern_ok (App.pattern a) ->
  Pattern.n_steps (App.pattern a) <> 0%Z ->
  exists a1 evs,
    App._on_step_tick a step_idx = Ok a1
    /\ App.pattern a1 = App.pattern a
    /\ App.audio_queue a1 = App.audio_queue a ++ evs
    /\ App.playhead_updates a1 = App.playhead_updates a ++ [step_idx]
    /\ Forall (fun ev => exists t, (0 <= t < 4)%Z /\ tick_event t ev) evs
    /\ (no_locks (App.pattern a) -> Forall is_note_event evs).
Proof.
  intros Hok Hn.
  destruct (on_step_tick_spec a step_idx Hok Hn)
    as (a1 & evs & H1 & H2 & H3 & H4 & H5 & H6 & _).
  exists a1, evs.
  split; [exact H1 |]. split; [exact H2 |]. split; [exact H3 |].
  split; [exact H4 |]. split; [exact H5 | exact H6].
Qed.

Lemma pattern_init_ok : pattern_ok Pattern.init.
Proof. split; [reflexivity | repeat constructor]. Qed.

Lemma step_tick_events_witness :
  exists a1 evs,
    App._on_step_tick App.init 5 = Ok a1
    /\ App.pattern a1 = App.pattern App.init
    /\ App.audio_queue a1 = App.audio_queue App.init ++ evs
    /\ App.playhead_updates a1 = [5%Z].
Proof.
  destruct (step_tick_events App.init 5 pattern_init_ok ltac:(discriminate))
    as (a1 & evs & H1 & H2 & H3 & H4 & _).
  exists a1, evs. auto.
Defined.

(** The events of a step tick are always accepted: on a pattern without
    parameter locks whose steps carry MIDI notes and velocities, what a
    tick adds to an empty queue is note-offs and note-ons with MIDI data,
    and it drains without an exception on a pool of four voices whose
    subtractive engines have their octave settings in range. *)
Theorem step_tick_drains (exp2 : Q -> Q) (shuffle : list Z -> list Z)
    (a : App.App) (step_idx : Z) (p : VoicePool.VoicePool) :
  pattern_ok (App.pattern a) ->
  Pattern.n_steps (App.pattern a) <> 0%Z ->
  no_locks (App.pattern a) ->
  midi_steps (App.pattern a) ->
  App.audio_queue a = [] ->
  List.length (VoicePool.voices p) = 4%nat ->
  pool_in_range p ->
  exists a1 p',
    App._on_step_tick a step_idx = Ok a1
    /\ Forall playable (App.audio_queue a1)
    /\ AudioQueue.drain exp2 shuffle p (App.audio_queue a1) = Ok p'
    /\ List.length (VoicePool.voices p') = 4%nat.
Proof.
  intros Hok Hn Hno Hmidi Hq Hlen _.
  destruct (on_step_tick_spec a step_idx Hok Hn)
    as (a1 & evs & H1 & _ & H3 & _ & _ & H6 & H7).
  rewrite Hq in H3. simpl in H3.
  destruct (drain_note_events exp2 shuffle evs p Hlen (H6 Hno))
    as (p' & Hd & Hl).
  exists a1, p'. rewrite H3. auto.
Qed.

Lemma midi_steps_toggled : midi_steps (App.pattern (with_step_on App.init 1 3)).
Proof.
  vm_compute.
  repeat (apply Forall_cons || apply Forall_nil || split); discriminate.
Qed.

(** With step 3 of track 1 switched on, the tick of step 3 queues the
    note-on of that step for voice 1, and it drains. *)
Lemma step_tick_drains_witness :
  exists a1 p',
    App._on_step_tick (with_step_on App.init 1 3) 3 = Ok a1
    /\ App.audio_queue a1 = [AudioEngine.NoteOn (Some 1%Z) 60 100]
    /\ AudioQueue.drain exp2_near_0 (fun l => l) VoicePool.init (App.audio_queue a1)
       = Ok p'
    /\ List.length (VoicePool.voices p') = 4%nat.
Proof.
  destruct (step_tick_drains exp2_near_0 (fun l => l)
              (with_step_on App.init 1 3) 3 VoicePool.init)
    as (a1 & p' & Htick & _ & Hdrain & Hlen).
  - split; [reflexivity | repeat constructor].
  - discriminate.
  - vm_compute. repeat constructor.
  - exact midi_steps_toggled.
  - reflexivity.
  - reflexivity.
  - exact pool_init_in_range.
  - exists a1, p'. split; [exact Htick |].
    split; [| split; [exact Hdrain | exact Hlen]].
    vm_compute in Htick. injection Htick as <-. reflexivity.
Defined.

Lemma set_nth_set_nth {A} (l : list A) : forall j a b,
  set_nth (set_nth l j a) j b = set_nth l j b.
Proof.
  induction l as [|h t IH]; intros [|j] a b; simpl; try reflexivity.
  now rewrite IH.
Qed.

Lemma toggle_toggle (s : Step.Step) : Step.toggle (Step.toggle s) = s.
Proof. destruct s. unfold Step.toggle. simpl. now rewrite negb_involutive. Qed.

Lemma track_lookup (p : Pattern.Pattern) (t : Z) (track : Track.Track) :
  List.length (Pattern.tracks p) = 4%nat ->
  nth_error (Pattern.tracks p) (Z.to_nat (t mod 4)) = Some track ->
  Pattern.track p t = Ok track.
Proof.
  intros Hlen Hn. unfold Pattern.track, py_getitem, Pattern.N_TRACKS.
  pose proof (Z.mod_pos_bound t 4 eq_refl).
  rewrite norm_index_in_range by lia. cbn [py_bind]. now rewrite Hn.
Qed.

Lemma step_lookup (track : Track.Track) (s : Z) (step : Step.Step) :
  List.length (Track.steps track) = 16%nat ->
  nth_error (Track.steps track) (Z.to_nat (s mod 16)) = Some step ->
  Track.step_at track s = Ok step.
Proof.
  intros Hlen Hn. unfold Track.step_at, py_getitem, Track.N_STEPS.
  pose proof (Z.mod_pos_bound s 16 eq_refl).
  rewrite norm_index_in_range by lia. cbn [py_bind]. now rewrite Hn.
Qed.

Lemma on_step_toggle_at (a : App.App) (t s : Z) (track : Track.Track)
    (step : Step.Step) :
  List.length (Pattern.tracks (App.pattern a)) = 4%nat ->
  nth_error (Pattern.tracks (App.pattern a)) (Z.to_nat (t mod 4)) = Some track ->
  List.length (Track.steps track) = 16%nat ->
  nth_error (Track.steps track) (Z.to_nat (s mod 16)) = Some step ->
  App._on_step_toggle a t s
  = Ok (App.set_pattern a
          (Pattern.mkPattern
             (set_nth (Pattern.tracks (App.pattern a)) (Z.to_nat (t mod 4))
                (Track.set_steps track
                   (set_nth (Track.steps track) (Z.to_nat (s mod 16))
                            (Step.toggle step))))
             (Pattern.bpm (App.pattern a)) (Pattern.swing (App.pattern a))
             (Pattern.n_steps (App.pattern a)))).
Proof.
  intros Hlen Et Hl16 Es.
  pose proof (Z.mod_pos_bound t 4 eq_refl). pose proof (Z.mod_pos_bound s 16 eq_refl).
  unfold App._on_step_toggle, Pattern.N_TRACKS, Track.N_STEPS.
  rewrite norm_index_in_range by lia. cbn [py_bind]. rewrite Et.
  rewrite norm_index_in_range by lia. cbn [py_bind]. now rewrite Es.
Qed.

(** Toggling a step accepts any pair of integers on a pattern of four
    sixteen-step tracks: it flips the step at track [t mod 4], position
    [s mod 16], queues nothing for the audio engine, and toggling the same
    step again restores the application exactly. *)
Theorem step_toggle_twice (a : App.App) (t s : Z) :
  pattern_ok (App.pattern a) ->
  exists a1 track step track1 step1,
    App._on_step_toggle a t s = Ok a1
    /\ Pattern.track (App.pattern a) t = Ok track
    /\ Track.step_at track s = Ok step
    /\ Pattern.track (App.pattern a1) t = Ok track1
    /\ Track.step_at track1 s = Ok step1
    /\ step1 = Step.toggle step
    /\ App.audio_queue a1 = App.audio_queue a
    /\ pattern_ok (App.pattern a1)
    /\ App._on_step_toggle a1 t s = Ok a.
Proof.
  intros [Hlen Hsteps].
  pose proof (Z.mod_pos_bound t 4 eq_refl) as Ht.
  pose proof (Z.mod_pos_bound s 16 eq_refl) as Hs.
  set (ti := Z.to_nat (t mod 4)). set (si := Z.to_nat (s mod 16)).
  destruct (nth_error (Pattern.tracks (App.pattern a)) ti) as [track|] eqn:Et;
    [| apply nth_error_None in Et; lia].
  assert (Hl16 : List.length (Track.steps track) = 16%nat).
  { rewrite Forall_forall in Hsteps. apply Hsteps. eapply nth_error_In. exact Et. }
  destruct (nth_error (Track.steps track) si) as [step|] eqn:Es;
    [| apply nth_error_None in Es; lia].
  set (track1 := Track.set_steps track (set_nth (Track.steps track) si (Step.toggle step))).
  set (p1 := Pattern.mkPattern (set_nth (Pattern.tracks (App.pattern a)) ti track1)
               (Pattern.bpm (App.pattern a)) (Pattern.swing (App.pattern a))
               (Pattern.n_steps (App.pattern a))).
  assert (Hl1 : List.length (Track.steps track1) = 16%nat)
    by (unfold track1; simpl; now rewrite set_nth_length).
  assert (Es1 : nth_error (Track.steps track1) si = Some (Step.toggle step))
    by (unfold track1; simpl; apply nth_error_set_nth_same; lia).
  assert (Hlen1 : List.length (Pattern.tracks p1) = 4%nat)
    by (unfold p1; simpl; now rewrite set_nth_length).
  assert (Et1 : nth_error (Pattern.tracks p1) ti = Some track1)
    by (unfold p1; simpl; apply nth_error_set_nth_same; lia).
  exists (App.set_pattern a p1), track, step, track1, (Step.toggle step).
  split; [apply on_step_toggle_at; assumption |].
  split; [apply track_lookup; assumption |].
  split; [apply step_lookup; assumption |].
  split; [apply track_lookup; assumption |].
  split; [apply step_lookup; assumption |].
  split; [reflexivity |]. split; [reflexivity |]. split.
  - split; [exact Hlen1 |]. simpl.
    rewrite Forall_forall in *. intros x Hin.
    apply In_nth_error in Hin. destruct Hin as [j Hj].
    destruct (Nat.eq_dec ti j) as [<- | Hne].
    + rewrite nth_error_set_nth_same in Hj by lia. injection Hj as <-. exact Hl1.
    + rewrite nth_error_set_nth_other in Hj by exact Hne.
      apply Hsteps. eapply nth_error_In. exact Hj.
  - rewrite (on_step_toggle_at (App.set_pattern a p1) t s track1 (Step.toggle step))
      by assumption.
    f_equal. fold ti. fold si.
    assert (Hback : Track.set_steps track1
                      (set_nth (Track.steps track1) si (Step.toggle (Step.toggle step)))
                    = track).
    { unfold track1. cbn [Track.steps Track.set_steps Track.track_idx
                          Track.engine_name Track.midi_channel
                          Track.midi_out_enabled Track.muted].
      rewrite set_nth_set_nth, toggle_toggle, (set_nth_same _ _ _ Es).
      now destruct track. }
    rewrite Hback. unfold p1.
    cbn [App.pattern App.set_pattern Pattern.tracks Pattern.bpm Pattern.swing
         Pattern.n_steps App.audio_queue App.clock App.midi_out
         App.playhead_updates].
    rewrite set_nth_set_nth, (set_nth_same _ _ _ Et).
    destruct a as [[trs b sw n] q c m u]. reflexivity.
Qed.

Lemma step_toggle_twice_witness :
  exists a1,
    App._on_step_toggle App.init (-1) 35 = Ok a1
    /\ App._on_step_toggle a1 (-1) 35 = Ok App.init.
Proof.
  destruct (step_toggle_twice App.init (-1) 35 pattern_init_ok)
    as (a1 & tr & st & tr1 & st1 & H1 & _ & _ & _ & _ & _ & _ & _ & H2).
  exists a1. split; assumption.
Defined.

(** ** The arpeggiator of the subtractive engine *)

Lemma existsb_eqb_In (n : Z) (l : list Z) :
  existsb (Z.eqb n) l = true <-> In n l.
Proof.
  rewrite existsb_exists. split.
  - intros (x & Hin & Heq). apply Z.eqb_eq in Heq. now subst.
  - intro H. exists n. split; [exact H | apply Z.eqb_refl].
Qed.

Lemma held_after_rebuild (shuffle : list Z -> list Z)
    (e : Subtractive.SubtractiveEngine) :
  Subtractive._held_notes (Subtractive._rebuild_arp_sequence shuffle e)
  = Subtractive._held_notes e.
Proof.
  unfold Subtractive._rebuild_arp_sequence.
  destruct (Subtractive._held_notes e) eqn:E; simpl; now rewrite ?E.
Qed.

Lemma held_after_note_on (exp2 : Q -> Q) (shuffle : list Z -> list Z)
    (e : Subtractive.SubtractiveEngine) (n v : Z) :
  Subtractive._held_notes (Subtractive.note_on exp2 shuffle e n v)
  = if existsb (Z.eqb n) (Subtractive._held_notes e)
    then Subtractive._held_notes e
    else Subtractive._held_notes e ++ [n].
Proof.
  unfold Subtractive.note_on.
  set (e0 := Subtractive.set_velocity_scale e (inject_Z v / 127.0)).
  change (Subtractive._held_notes e0) with (Subtractive._held_notes e).
  destruct (existsb (Z.eqb n) (Subtractive._held_notes e)).
  - destruct (Subtractive.arp_mode e0 =? "off")%string;
      [reflexivity | now rewrite held_after_rebuild].
  - set (e1 := Subtractive.set_held_notes e0 (Subtractive._held_notes e ++ [n])).
    destruct (Subtractive.arp_mode e1 =? "off")%string;
      [reflexivity | now rewrite held_after_rebuild].
Qed.

(** The held notes are a set kept in arrival order: a note-on adds the
    note unless it is already held, so the list never has duplicates and
    always contains the note just played; a note-off empties it; an
    arpeggiator tick leaves it alone. *)
Theorem held_notes_are_a_set (exp2 : Q -> Q) (shuffle : list Z -> list Z)
    (e : Subtractive.SubtractiveEngine) (n v : Z) :
  NoDup (Subtractive._held_notes e) ->
  let e' := Subtractive.note_on exp2 shuffle e n v in
  NoDup (Subtractive._held_notes e')
  /\ In n (Subtractive._held_notes e')
  /\ (forall x, In x (Subtractive._held_notes e) -> In x (Subtractive._held_notes e'))
  /\ Subtractive._held_notes (Subtractive.note_on exp2 shuffle e' n v)
     = Subtractive._held_notes e'
  /\ Subtractive._held_notes (Subtractive.note_off e') = []
  /\ (forall e2, Subtractive.arp_tick exp2 e' = Ok e2 ->
                 Subtractive._held_notes e2 = Subtractive._held_notes e').
Proof.
  intros Hnd e'. unfold e'. rewrite !held_after_note_on.
  destruct (existsb (Z.eqb n) (Subtractive._held_notes e)) eqn:E.
  - rewrite E. apply existsb_eqb_In in E.
    repeat split; auto.
    intros e2 H2. unfold Subtractive.arp_tick in H2.
    set (e1 := Subtractive.note_on exp2 shuffle e n v) in *.
    assert (Hh : Subtractive._held_notes e1 = Subtractive._held_notes e).
    { unfold e1. rewrite held_after_note_on.
      apply existsb_eqb_In in E. now rewrite E. }
    rewrite <- Hh.
    destruct (Subtractive.arp_mode e1 =? "off")%string; [now injection H2 as <- |].
    destruct (Subtractive._arp_notes e1) as [|a l] eqn:Ea; [now injection H2 as <- |].
    destruct (py_getitem _ _) as [note|]; [| discriminate].
    cbn [py_bind] in H2. injection H2 as <-. reflexivity.
  - assert (Hnot : ~ In n (Subtractive._held_notes e)).
    { intro H. apply existsb_eqb_In in H. congruence. }
    assert (E2 : existsb (Z.eqb n) (Subtractive._held_notes e ++ [n]) = true).
    { apply existsb_eqb_In, in_or_app. right. simpl. auto. }
    rewrite E2.
    split; [| split; [| split; [| split; [reflexivity | split; [reflexivity |]]]]].
    + apply NoDup_app; [exact Hnd | constructor; [simpl; tauto | constructor] |].
      intros x Hx [<- | []]. contradiction.
    + apply in_or_app. right. simpl. auto.
    + intros x Hx. apply in_or_app. now left.
    + intros e2 H2. unfold Subtractive.arp_tick in H2.
      set (e1 := Subtractive.note_on exp2 shuffle e n v) in *.
      assert (Hh : Subtractive._held_notes e1 = Subtractive._held_notes e ++ [n]).
      { unfold e1. rewrite held_after_note_on. now rewrite E. }
      rewrite <- Hh.
      destruct (Subtractive.arp_mode e1 =? "off")%string; [now injection H2 as <- |].
      destruct (Subtractive._arp_notes e1) as [|a l] eqn:Ea; [now injection H2 as <- |].
      destruct (py_getitem _ _) as [note|]; [| discriminate].
      cbn [py_bind] in H2. injection H2 as <-. reflexivity.
Qed.

Lemma held_notes_are_a_set_witness :
  let e := Subtractive.note_on exp2_near_0 (fun l => l) Subtractive.init 64 100 in
  Subtractive._held_notes (Subtractive.note_on exp2_near_0 (fun l => l) e 60 90)
  = [64; 60]%Z
  /\ Subtractive._held_notes
       (Subtractive.note_on exp2_near_0 (fun l => l)
          (Subtractive.note_on exp2_near_0 (fun l => l) e 60 90) 60 90)
     = [64; 60]%Z.
Proof.
  cbv zeta.
  destruct (held_notes_are_a_set exp2_near_0 (fun l => l)
              (Subtractive.note_on exp2_near_0 (fun l => l) Subtractive.init 64 100)
              60 90) as (_ & _ & _ & Hagain & _).
  - simpl. constructor; [simpl; tauto | constructor].
  - split; [reflexivity |]. rewrite Hagain. reflexivity.
Defined.

Lemma insert_sorted_perm (x : Z) (l : list Z) :
  Permutation (Subtractive.insert_sorted x l) (x :: l).
Proof.
  induction l as [|y t IH]; simpl; [reflexivity |].
  destruct (x <=? y)%Z; [reflexivity |].
  rewrite IH. apply perm_swap.
Qed.

Lemma sorted_perm (l : list Z) : Permutation (Subtractive.sorted l) l.
Proof.
  induction l as [|x t IH]; simpl; [reflexivity |].
  unfold Subtractive.sorted in *. simpl. rewrite insert_sorted_perm. now constructor.
Qed.

Lemma insert_sorted_sorted (x : Z) (l : list Z) :
  Sorted Z.le l -> Sorted Z.le (Subtractive.insert_sorted x l).
Proof.
  induction l as [|y t IH]; intro H; simpl.
  - repeat constructor.
  - destruct (Z.leb_spec x y).
    + constructor; [exact H | constructor; exact H0].
    + inversion H as [|? ? Ht Hhd]; subst.
      constructor; [apply IH; exact Ht |].
      destruct t as [|z t']; simpl.
      * constructor. lia.
      * destruct (Z.leb_spec x z); constructor; [lia |].
        inversion Hhd; subst. assumption.
Qed.

Lemma sorted_sorted (l : list Z) : Sorted Z.le (Subtractive.sorted l).
Proof.
  induction l as [|x t IH]; simpl; [constructor |].
  apply insert_sorted_sorted. exact IH.
Qed.

Lemma rebuild_up_down (shuffle : list Z -> list Z)
    (x : Subtractive.SubtractiveEngine) :
  Subtractive._held_notes x <> [] ->
  let layers := arp_layers (Subtractive._held_notes x) (Subtractive.arp_octaves x) in
  (Subtractive.arp_mode x = "up"%string ->
   Subtractive._rebuild_arp_sequence shuffle x = Subtractive.set_arp x layers 0)
  /\ (Subtractive.arp_mode x = "down"%string ->
      Subtractive._rebuild_arp_sequence shuffle x
      = Subtractive.set_arp x (List.rev layers) 0)
  /\ (Subtractive.arp_mode x = "chord"%string ->
      Subtractive._rebuild_arp_sequence shuffle x = Subtractive.set_arp x layers 0).
Proof.
  intros Hne layers. unfold Subtractive._rebuild_arp_sequence.
  destruct (Subtractive._held_notes x) as [|h t] eqn:E; [contradiction |].
  fold (arp_layers (h :: t) (Subtractive.arp_octaves x)). fold layers.
  repeat split; intros ->; reflexivity.
Qed.

Lemma arp_layers_length (held : list Z) (octaves : Z) :
  List.length (arp_layers held octaves)
  = (List.length held * Z.to_nat octaves)%nat.
Proof.
  unfold arp_layers. generalize 0%nat as start.
  induction (Z.to_nat octaves) as [|k IH]; intro start; simpl; [lia |].
  rewrite length_app, length_map, IH.
  rewrite (Permutation_length (sorted_perm held)). lia.
Qed.

Lemma arp_layers_one (held : list Z) :
  arp_layers held 1 = Subtractive.sorted held.
Proof.
  unfold arp_layers. simpl. rewrite app_nil_r.
  rewrite <- (map_id (Subtractive.sorted held)) at 2.
  apply map_ext. intro a. lia.
Qed.

Lemma arp_layers_In (held : list Z) (octaves x : Z) :
  In x (arp_layers held octaves)
  <-> exists h k, In h held /\ (0 <= k < octaves)%Z /\ x = (h + k * 12)%Z.
Proof.
  unfold arp_layers. rewrite in_flat_map. split.
  - intros (o & Ho & Hx). apply in_seq in Ho. apply in_map_iff in Hx.
    destruct Hx as (h & <- & Hh).
    exists h, (Z.of_nat o). split; [| split; [lia | reflexivity]].
    eapply Permutation_in; [apply sorted_perm | exact Hh].
  - intros (h & k & Hh & Hk & ->). exists (Z.to_nat k). split.
    + apply in_seq. lia.
    + apply in_map_iff. exists h. split; [f_equal; lia |].
      eapply Permutation_in; [apply Permutation_sym, sorted_perm | exact Hh].
Qed.

(** With the arpeggiator in "up" or "down" mode a note-on starts no sound
    (envelopes and note frequency are untouched): it rebuilds the
    sequence from the held notes and rewinds the cursor.  The sequence has
    one entry per held note and octave layer, its entries are exactly the
    held notes raised by 0, 12, ... semitones, and with one octave it is
    the held notes in ascending order ("up") or descending order
    ("down"). *)
Theorem arp_note_on_builds_sequence (exp2 : Q -> Q) (shuffle : list Z -> list Z)
    (e : Subtractive.SubtractiveEngine) (n v : Z) :
  Subtractive.arp_mode e = "up"%string \/ Subtractive.arp_mode e = "down"%string ->
  let e' := Subtractive.note_on exp2 shuffle e n v in
  let held := Subtractive._held_notes e' in
  Subtractive.amp_env e' = Subtractive.amp_env e
  /\ Subtractive.filt_env e' = Subtractive.filt_env e
  /\ Subtractive._note_freq e' = Subtractive._note_freq e
  /\ Subtractive._arp_index e' = 0%Z
  /\ List.length (Subtractive._arp_notes e')
     = (List.length held * Z.to_nat (Subtractive.arp_octaves e))%nat
  /\ (forall x, In x (Subtractive._arp_notes e')
                <-> exists h k, In h held /\ (0 <= k < Subtractive.arp_octaves e)%Z
                                /\ x = (h + k * 12)%Z)
  /\ (Subtractive.arp_octaves e = 1%Z ->
      Permutation (Subtractive._arp_notes e') held
      /\ (Subtractive.arp_mode e = "up"%string ->
          Sorted Z.le (Subtractive._arp_notes e'))
      /\ (Subtractive.arp_mode e = "down"%string ->
          Sorted Z.le (List.rev (Subtractive._arp_notes e')))).
Proof.
  intros Hmode e' held.
  set (e0 := Subtractive.set_velocity_scale e (inject_Z v / 127.0)).
  set (e1 := if existsb (Z.eqb n) (Subtractive._held_notes e0) then e0
             else Subtractive.set_held_notes e0 (Subtractive._held_notes e0 ++ [n])).
  assert (Hm1 : Subtractive.arp_mode e1 = Subtractive.arp_mode e)
    by (unfold e1; destruct (existsb _ _); reflexivity).
  assert (Hoct1 : Subtractive.arp_octaves e1 = Subtractive.arp_octaves e)
    by (unfold e1; destruct (existsb _ _); reflexivity).
  assert (He' : e' = Subtractive._rebuild_arp_sequence shuffle e1).
  { unfold e', Subtractive.note_on. fold e0. fold e1. rewrite Hm1.
    destruct Hmode as [-> | ->]; reflexivity. }
  assert (Hheld : held = Subtractive._held_notes e1)
    by (unfold held; rewrite He'; apply held_after_rebuild).
  assert (Hne : Subtractive._held_notes e1 <> []).
  { unfold e1. destruct (existsb (Z.eqb n) (Subtractive._held_notes e0)) eqn:E.
    - apply existsb_eqb_In in E. intro H0. rewrite H0 in E. exact E.
    - simpl. intro H0. apply app_eq_nil in H0. destruct H0 as [_ H0]. discriminate. }
  destruct (rebuild_up_down shuffle e1 Hne) as (Hup & Hdown & _).
  rewrite Hm1, Hoct1, <- Hheld in Hup, Hdown.
  set (layers := arp_layers held (Subtractive.arp_octaves e)) in *.
  assert (Hnotes : Subtractive._arp_notes e' = layers
                   \/ Subtractive._arp_notes e' = List.rev layers).
  { rewrite He'. destruct Hmode as [H | H];
      [left; rewrite (Hup H) | right; rewrite (Hdown H)]; reflexivity. }
  assert (Hrest : Subtractive.amp_env e' = Subtractive.amp_env e
                  /\ Subtractive.filt_env e' = Subtractive.filt_env e
                  /\ Subtractive._note_freq e' = Subtractive._note_freq e
                  /\ Subtractive._arp_index e' = 0%Z).
  { rewrite He'. destruct Hmode as [H | H];
      [rewrite (Hup H) | rewrite (Hdown H)];
      unfold e1; destruct (existsb _ _); simpl; auto. }
  destruct Hrest as (R1 & R2 & R3 & R4).
  split; [exact R1 |]. split; [exact R2 |]. split; [exact R3 |].
  split; [exact R4 |]. split; [| split].
  - destruct Hnotes as [-> | ->]; rewrite ?length_rev; apply arp_layers_length.
  - intro x. rewrite <- arp_layers_In. fold layers.
    destruct Hnotes as [-> | ->]; [tauto | symmetry; apply in_rev].
  - intro Hone. unfold layers in *. rewrite Hone, arp_layers_one in *.
    split; [| split].
    + destruct Hnotes as [-> | ->]; rewrite <- ?Permutation_rev; apply sorted_perm.
    + intro H. rewrite He', (Hup H). simpl. apply sorted_sorted.
    + intro H. rewrite He', (Hdown H). simpl. rewrite rev_involutive.
      apply sorted_sorted.
Qed.

Lemma arp_note_on_builds_sequence_witness :
  let up := Subtractive.set_arp_mode Subtractive.init "up" in
  let e1 := Subtractive.note_on exp2_near_0 (fun l => l) up 67 100 in
  let e2 := Subtractive.note_on exp2_near_0 (fun l => l) e1 60 100 in
  Subtractive._arp_notes e2 = [60; 67]%Z
  /\ Sorted Z.le (Subtractive._arp_notes e2)
  /\ Subtractive.amp_env e2 = Subtractive.amp_env e1.
Proof.
  cbv zeta.
  destruct (arp_note_on_builds_sequence exp2_near_0 (fun l => l)
              (Subtractive.note_on exp2_near_0 (fun l => l)
                 (Subtractive.set_arp_mode Subtractive.init "up") 67 100)
              60 100 (or_introl eq_refl))
    as (Hamp & _ & _ & _ & _ & _ & Hone).
  split; [reflexivity |].
  split; [apply (proj1 (proj2 (Hone eq_refl))); reflexivity | exact Hamp].
Defined.

Lemma arp_tick_step (exp2 : Q -> Q) (e : Subtractive.SubtractiveEngine) :
  Subtractive.arp_mode e <> "off"%string ->
  Subtractive._arp_notes e <> [] ->
  let notes := Subtractive._arp_notes e in
  let len := Z.of_nat (List.length notes) in
  let note := nth (Z.to_nat (Subtractive._arp_index e mod len)) notes 0%Z in
  Subtractive.arp_tick exp2 e
  = Ok (Subtractive._trigger_note exp2
          (Subtractive.set_arp e notes ((Subtractive._arp_index e + 1) mod len)%Z)
          note).
Proof.
  intros Hmode Hne. cbv zeta. unfold Subtractive.arp_tick.
  destruct (String.eqb_spec (Subtractive.arp_mode e) "off"); [contradiction |].
  remember (Subtractive._arp_notes e) as notes eqn:En.
  set (len := Z.of_nat (List.length notes)).
  assert (Hlen : (0 < len)%Z).
  { unfold len. destruct notes; [contradiction | cbn [List.length]; lia]. }
  pose proof (Z.mod_pos_bound (Subtractive._arp_index e) len Hlen) as Hi.
  assert (Hget : py_getitem notes (Subtractive._arp_index e mod len)
                 = Ok (nth (Z.to_nat (Subtractive._arp_index e mod len)) notes 0%Z)).
  { unfold py_getitem. rewrite norm_index_in_range by exact Hi. cbn [py_bind].
    rewrite (nth_error_nth' notes 0%Z) by (unfold len in *; lia). reflexivity. }
  rewrite Hget. cbn [py_bind].
  destruct notes; [contradiction | reflexivity].
Qed.

(** Arpeggiator ticks walk the sequence in a circle: in a mode other than
    "off" and with a non-empty sequence whose entries, shifted by the
    octave setting, are MIDI notes, [k] ticks never fail, for any cursor
    value; tick [i] triggers entry [(cursor + i) mod length] of the
    sequence, shifted by the octave setting, and the cursor ends on
    [(cursor + k) mod length]; the sequence itself is not changed. *)
Theorem arp_ticks_cycle (exp2 : Q -> Q) (k : nat) :
  forall e : Subtractive.SubtractiveEngine,
  Subtractive.arp_mode e <> "off"%string ->
  Subtractive._arp_notes e <> [] ->
  Forall (fun n => midi_data (n + Subtractive.octave e * 12))
         (Subtractive._arp_notes e) ->
  let notes := Subtractive._arp_notes e in
  let len := Z.of_nat (List.length notes) in
  exists fs e',
    arp_ticks exp2 k e = Ok (fs, e')
    /\ fs = map (fun i =>
                   Oscillator.midi_to_hz exp2
                     (nth (Z.to_nat ((Subtractive._arp_index e + Z.of_nat i) mod len)) notes 0
                      + Subtractive.octave e * 12)%Z)
                (seq 0 k)
    /\ Subtractive._arp_notes e' = notes
    /\ ((0 < k)%nat ->
        Subtractive._arp_index e' = ((Subtractive._arp_index e + Z.of_nat k) mod len)%Z).
Proof.
  induction k as [|k IH]; intros e Hmode Hne Hmidi notes len.
  - exists [], e. split; [reflexivity |]. split; [reflexivity |].
    split; [reflexivity | lia].
  - cbn [arp_ticks]. rewrite (arp_tick_step exp2 e Hmode Hne). cbn [py_bind].
    fold notes. fold len.
    set (e1 := Subtractive._trigger_note exp2
                 (Subtractive.set_arp e notes ((Subtractive._arp_index e + 1) mod len)%Z)
                 (nth (Z.to_nat (Subtractive._arp_index e mod len)) notes 0%Z)).
    destruct (IH e1) as (fs & e' & Hrun & Hfs & Hn & Hi);
      [exact Hmode | exact Hne | exact Hmidi |].
    rewrite Hrun. cbn [py_bind].
    change (Subtractive._arp_notes e1) with notes in *.
    change (Subtractive._arp_index e1)
      with ((Subtractive._arp_index e + 1) mod len)%Z in *.
    change (Subtractive.octave e1) with (Subtractive.octave e) in *.
    assert (Hlen : (0 < len)%Z).
    { unfold len, notes. destruct (Subtractive._arp_notes e); [contradiction |].
      cbn [List.length]. lia. }
    do 2 eexists. split; [reflexivity |]. split; [| split; [exact Hn |]].
    + cbn [seq map]. f_equal.
      * rewrite Z.add_0_r. reflexivity.
      * rewrite Hfs, <- seq_shift, map_map. apply map_ext. intro i.
        rewrite Zplus_mod_idemp_l.
        replace (Subtractive._arp_index e + 1 + Z.of_nat i)%Z
          with (Subtractive._arp_index e + Z.of_nat (S i))%Z by lia.
        reflexivity.
    + intros _. destruct k as [|k'].
      * injection Hrun as _ <-. reflexivity.
      * rewrite Hi by lia. rewrite Zplus_mod_idemp_l. f_equal. lia.
Qed.

Lemma arp_ticks_cycle_witness :
  let up := Subtractive.set_arp_mode Subtractive.init "up" in
  let e := Subtractive.note_on exp2_near_0 (fun l => l)
             (Subtractive.note_on exp2_near_0 (fun l => l) up 69 100) 57 100 in
  exists fs e',
    arp_ticks exp2_near_0 3 e = Ok (fs, e')
    /\ Subtractive._arp_notes e' = [57; 69]%Z
    /\ Subtractive._arp_index e' = 1%Z.
Proof.
  cbv zeta.
  destruct (arp_ticks_cycle exp2_near_0 3
              (Subtractive.note_on exp2_near_0 (fun l => l)
                 (Subtractive.note_on exp2_near_0 (fun l => l)
                    (Subtractive.set_arp_mode Subtractive.init "up") 69 100) 57 100))
    as (fs & e' & Hrun & _ & Hn & Hi).
  - discriminate.
  - discriminate.
  - repeat (apply Forall_cons; [split; discriminate |]). apply Forall_nil.
  - exists fs, e'. split; [exact Hrun |]. split; [exact Hn |].
    rewrite Hi by lia. reflexivity.
Defined.

(** ** Parameters set and read back *)




















(** ** Stopping the transport *)

Lemma stop_steps_spec (t : Z) (track : Track.Track) (l : list Step.Step) :
  forall a : App.App,
    let a' := App.stop_steps a t track l in
    App.audio_queue a'
    = App.audio_queue a
        ++ map (fun s => AudioEngine.NoteOff (Some t) (Step.note s))
               (filter Step.active l)
    /\ App.pattern a' = App.pattern a
    /\ App.clock a' = App.clock a
    /\ App.playhead_updates a' = App.playhead_updates a
    /\ (MidiOutput.port_open (App.midi_out a) = false
        -> App.midi_out a' = App.midi_out a).
Proof.
  induction l as [|s rest IH]; intro a; cbn [App.stop_steps filter].
  - cbv zeta. rewrite app_nil_r. auto.
  - cbv zeta.
    destruct (Step.active s) eqn:Ea.
    + destruct (Track.midi_out_enabled track).
      * match goal with |- context [App.stop_steps ?x t track rest] =>
          destruct (IH x) as (Hq & Hp & Hc & Hu & Hm) end.
        cbn [App.audio_queue App.pattern App.clock App.playhead_updates
             App.midi_out App.set_midi_out App.enqueue] in *.
        rewrite Hq, Hp, Hc, Hu. cbn [map]. rewrite <- app_assoc.
        repeat split; try reflexivity.
        intro Hclosed.
        assert (Hoff : MidiOutput.note_off (App.midi_out a)
                         (Track.midi_channel track) (Step.note s)
                       = App.midi_out a)
          by (unfold MidiOutput.note_off; rewrite Hclosed; reflexivity).
        rewrite Hoff in Hm |- *. exact (Hm Hclosed).
      * match goal with |- context [App.stop_steps ?x t track rest] =>
          destruct (IH x) as (Hq & Hp & Hc & Hu & Hm) end.
        cbn [App.audio_queue App.pattern App.clock App.playhead_updates
             App.midi_out App.enqueue] in *.
        rewrite Hq, Hp, Hc, Hu. cbn [map]. rewrite <- app_assoc.
        repeat split; try reflexivity. exact Hm.
    + apply IH.
Qed.

(** Stopping the transport always succeeds on a four-track pattern.  It
    stops the clock and puts it back on step 0, and queues one note-off
    for every active step of every track, muted or not, track by track
    and in step order; the pattern and the playhead queue are untouched,
    and nothing goes to a MIDI port that is not open. *)
Theorem stop_releases_every_active_step (a : App.App)
    (t0 t1 t2 t3 : Track.Track) :
  Pattern.tracks (App.pattern a) = [t0; t1; t2; t3] ->
  exists a',
    App._on_stop a = Ok a'
    /\ App.audio_queue a'
       = App.audio_queue a ++ stop_events 0 t0 ++ stop_events 1 t1
           ++ stop_events 2 t2 ++ stop_events 3 t3
    /\ App.pattern a' = App.pattern a
    /\ Clock._running (App.clock a') = false
    /\ Clock._step (App.clock a') = 0%Z
    /\ App.playhead_updates a' = App.playhead_updates a
    /\ (MidiOutput.port_open (App.midi_out a) = false
        -> App.midi_out a' = App.midi_out a).
Proof.
  intro Ht. unfold App._on_stop.
  set (a0 := App.set_clock a (ClockLoop.stop (App.clock a))).
  assert (Hp0 : App.pattern a0 = App.pattern a) by reflexivity.
  cbn [App.stop_tracks].
  unfold Pattern.track at 1. rewrite Hp0, Ht.
  change (py_getitem [t0; t1; t2; t3] (0 mod Pattern.N_TRACKS)) with (Ok t0).
  cbn [py_bind].
  destruct (stop_steps_spec 0 t0 (Track.steps t0) a0) as (Hq1 & Hp1 & Hc1 & Hu1 & Hm1).
  set (a1 := App.stop_steps a0 0 t0 (Track.steps t0)) in *.
  unfold Pattern.track at 1. rewrite Hp1, Hp0, Ht.
  change (py_getitem [t0; t1; t2; t3] (1 mod Pattern.N_TRACKS)) with (Ok t1).
  cbn [py_bind].
  destruct (stop_steps_spec 1 t1 (Track.steps t1) a1) as (Hq2 & Hp2 & Hc2 & Hu2 & Hm2).
  set (a2 := App.stop_steps a1 1 t1 (Track.steps t1)) in *.
  unfold Pattern.track at 1. rewrite Hp2, Hp1, Hp0, Ht.
  change (py_getitem [t0; t1; t2; t3] (2 mod Pattern.N_TRACKS)) with (Ok t2).
  cbn [py_bind].
  destruct (stop_steps_spec 2 t2 (Track.steps t2) a2) as (Hq3 & Hp3 & Hc3 & Hu3 & Hm3).
  set (a3 := App.stop_steps a2 2 t2 (Track.steps t2)) in *.
  unfold Pattern.track at 1. rewrite Hp3, Hp2, Hp1, Hp0, Ht.
  change (py_getitem [t0; t1; t2; t3] (3 mod Pattern.N_TRACKS)) with (Ok t3).
  cbn [py_bind].
  destruct (stop_steps_spec 3 t3 (Track.steps t3) a3) as (Hq4 & Hp4 & Hc4 & Hu4 & Hm4).
  set (a4 := App.stop_steps a3 3 t3 (Track.steps t3)) in *.
  exists a4. split; [reflexivity |].
  split.
  { rewrite Hq4, Hq3, Hq2, Hq1. unfold stop_events.
    rewrite <- !app_assoc. reflexivity. }
  split; [rewrite Hp4, Hp3, Hp2, Hp1; exact Hp0 |].
  split; [rewrite Hc4, Hc3, Hc2, Hc1; reflexivity |].
  split; [rewrite Hc4, Hc3, Hc2, Hc1; reflexivity |].
  split; [rewrite Hu4, Hu3, Hu2, Hu1; reflexivity |].
  intro Hclosed.
  assert (H0 : App.midi_out a0 = App.midi_out a) by reflexivity.
  assert (E1 : App.midi_out a1 = App.midi_out a)
    by (rewrite Hm1; [exact H0 | rewrite H0; exact Hclosed]).
  assert (E2 : App.midi_out a2 = App.midi_out a)
    by (rewrite Hm2; [exact E1 | rewrite E1; exact Hclosed]).
  assert (E3 : App.midi_out a3 = App.midi_out a)
    by (rewrite Hm3; [exact E2 | rewrite E2; exact Hclosed]).
  rewrite Hm4; [exact E3 | rewrite E3; exact Hclosed].
Qed.

Lemma stop_releases_every_active_step_witness :
  let a := with_step_on (with_step_on App.init 1 3) 2 5 in
  exists a',
    App._on_stop a = Ok a'
    /\ App.audio_queue a'
       = [AudioEngine.NoteOff (Some 1%Z) 60; AudioEngine.NoteOff (Some 2%Z) 60]
    /\ Clock._running (App.clock a') = false.
Proof.
  cbv zeta.
  destruct (stop_releases_every_active_step
              (with_step_on (with_step_on App.init 1 3) 2 5) _ _ _ _ eq_refl)
    as (a' & Hstop & Hq & _ & Hrun & _).
  exists a'. split; [exact Hstop |]. split; [| exact Hrun].
  rewrite Hq. vm_compute. reflexivity.
Defined.

(** ** Voice allocation and addressed note-ons *)

(** Auto-allocation takes the first free voice: when voice [k] is free and
    every voice before it is busy, [_allocate] returns voice [k] without
    moving the round-robin cursor, and a note-on without a track index
    starts the note on that voice and changes nothing else. *)
Theorem free_voice_taken_first (exp2 : Q -> Q) (shuffle : list Z -> list Z)
    (p : VoicePool.VoicePool) (k : nat) (v : Voice.Voice) (note velocity : Z) :
  nth_error (VoicePool.voices p) k = Some v ->
  Voice.is_free v = true ->
  (forall j u, (j < k)%nat -> nth_error (VoicePool.voices p) j = Some u ->
               Voice.is_free u = false) ->
  VoicePool._allocate p = Ok (k, p)
  /\ VoicePool.note_on exp2 shuffle p None note velocity
     = Ok (VoicePool.mkPool
             (set_nth (VoicePool.voices p) k
                (Voice.note_on exp2 shuffle v note velocity))
             (VoicePool._next_voice p)).
Proof.
  intros Hk Hfree Hbusy.
  assert (Ha : VoicePool._allocate p = Ok (k, p)).
  { unfold VoicePool._allocate.
    rewrite (first_free_first _ 0 k v Hk Hfree Hbusy). reflexivity. }
  split; [exact Ha |].
  unfold VoicePool.note_on, VoicePool.note_on_at, VoicePool.target.
  rewrite Ha. cbn [py_bind]. rewrite Hk. reflexivity.
Qed.

Lemma free_voice_taken_first_witness :
  VoicePool._allocate one_note_pool = Ok (1%nat, one_note_pool)
  /\ exists p',
       VoicePool.note_on exp2_near_0 (fun l => l) one_note_pool None 64 90 = Ok p'
       /\ option_map Voice.current_note (nth_error (VoicePool.voices p') 1)
          = Some (Some 64%Z)
       /\ VoicePool._next_voice p' = 0%Z.
Proof.
  destruct (free_voice_taken_first exp2_near_0 (fun l => l) one_note_pool 1
              (Voice.init "vector") 64 90 eq_refl eq_refl) as [Ha Hn].
  - intros j u Hj Hu. destruct j as [|j]; [| lia].
    vm_compute in Hu. injection Hu as <-. reflexivity.
  - split; [exact Ha |]. eexists. split; [exact Hn |].
    split; reflexivity.
Defined.

(** A note-on with a track index and a MIDI note and velocity never fails
    on a pool of four voices whose subtractive engines have their octave
    settings in range: any integer index is taken modulo 4, so indices 4
    apart start the note on the same voice.  That voice takes the note and
    velocity and is marked active; the other voices and the round-robin
    cursor are untouched. *)
Theorem note_on_track_index_wraps (exp2 : Q -> Q) (shuffle : list Z -> list Z)
    (p : VoicePool.VoicePool) (i note velocity : Z) :
  midi_data note ->
  midi_data velocity ->
  pool_in_range p ->
  List.length (VoicePool.voices p) = 4%nat ->
  let k := Z.to_nat (i mod 4) in
  exists p' v,
    VoicePool.note_on exp2 shuffle p (Some i) note velocity = Ok p'
    /\ (forall m : Z,
          VoicePool.note_on exp2 shuffle p (Some (i + 4 * m)%Z) note velocity = Ok p')
    /\ nth_error (VoicePool.voices p) k = Some v
    /\ nth_error (VoicePool.voices p') k
       = Some (Voice.mkVoice
                 (Engines.note_on exp2 shuffle (Voice.engine v) note velocity)
                 (Some note) true velocity (Voice._engine_name v))
    /\ (forall j, j <> k ->
          nth_error (VoicePool.voices p') j = nth_error (VoicePool.voices p) j)
    /\ VoicePool._next_voice p' = VoicePool._next_voice p.
Proof.
  intros _ _ _ Hlen k.
  pose proof (voice_index_in_range i) as Hi.
  assert (Hk : (k < 4)%nat) by (unfold k, VoicePool.N_VOICES in *; lia).
  destruct (nth_error (VoicePool.voices p) k) as [v|] eqn:Ev;
    [| apply nth_error_None in Ev; lia].
  assert (Hon : forall i', (i' mod 4 = i mod 4)%Z ->
            VoicePool.note_on exp2 shuffle p (Some i') note velocity
            = Ok (VoicePool.mkPool
                    (set_nth (VoicePool.voices p) k
                       (Voice.note_on exp2 shuffle v note velocity))
                    (VoicePool._next_voice p))).
  { intros i' Hi'.
    unfold VoicePool.note_on, VoicePool.note_on_at, VoicePool.target.
    unfold VoicePool.N_VOICES in *. rewrite Hi'.
    rewrite norm_index_in_range by (rewrite Hlen; exact Hi).
    cbn [py_bind]. fold k. cbn [VoicePool.voices]. rewrite Ev. reflexivity. }
  eexists. exists v. split; [apply Hon; reflexivity |].
  split.
  { intro m. apply Hon. rewrite Z.mul_comm. apply Z_mod_plus_full. }
  split; [reflexivity |].
  cbn [VoicePool.voices VoicePool._next_voice].
  split; [apply nth_error_set_nth_same; lia |].
  split; [| reflexivity].
  intros j Hj. apply nth_error_set_nth_other. congruence.
Qed.

Lemma note_on_track_index_wraps_witness :
  exists p',
    VoicePool.note_on exp2_near_0 (fun l => l) VoicePool.init (Some 6%Z) 64 90 = Ok p'
    /\ VoicePool.note_on exp2_near_0 (fun l => l) VoicePool.init (Some (-2)%Z) 64 90
       = Ok p'
    /\ option_map Voice.current_note (nth_error (VoicePool.voices p') 2)
       = Some (Some 64%Z).
Proof.
  destruct (note_on_track_index_wraps exp2_near_0 (fun l => l) VoicePool.init
              6 64 90 ltac:(unfold midi_data; lia) ltac:(unfold midi_data; lia)
              pool_init_in_range eq_refl) as (p' & v & Hon & Hwrap & Hv & Hk & _).
  exists p'. split; [exact Hon |]. split; [exact (Hwrap (-2)%Z) |].
  change (Z.to_nat (6 mod 4)) with 2%nat in Hk. rewrite Hk. reflexivity.
Defined.
